(** * LlamAle dialogue core: slot tracker, decision engine, catalog queries

    A shallow embedding of [components/dm.py] and [dataset/dataset.py], with
    the code around them: the rolling memory of [utils/history.py], the slot
    cleaning of [components/nlu.py] and the generator of [components/nlg.py].

    Conventions of the embedding.
    - A Python value that travels through JSON is a [value]; Python's [None]
      is [VNone].  A Python float is held as the rational it denotes.
    - A Python [dict] with text keys is an insertion-ordered association
      list with at most one entry per key ([PyDict.set] overwrites in place
      or appends, as CPython does).
    - JSON text is identified with the document it denotes: [json.dumps] and
      [json.loads] are not modelled character by character.
    - A call that may raise, or loop, returns an [outcome]. *)

From Stdlib Require Import String Ascii List Bool Arith ZArith QArith Lia.
From Stdlib Require Import Permutation.
Import ListNotations.
Open Scope string_scope.
Open Scope list_scope.
Close Scope Q_scope.

Set Implicit Arguments.
Set Warnings "-register-all".

(** ** Python values *)

Inductive value : Type :=
| VNone
| VBool (b : bool)
| VNum (q : Q)
| VStr (s : string)
| VList (l : list value)
| VDict (d : list (string * value)).

(** Python's [bool(v)]. *)
Definition truthy (v : value) : bool :=
  match v with
  | VNone => false
  | VBool b => b
  | VNum q => negb (Qeq_bool q 0)
  | VStr s => negb (s =? "")
  | VList l => match l with [] => false | _ => true end
  | VDict d => match d with [] => false | _ => true end
  end.

(** [v == s] for a text literal [s]. *)
Definition is_str (v : value) (s : string) : bool :=
  match v with
  | VStr s' => s' =? s
  | _ => false
  end.

Definition is_none (v : value) : bool :=
  match v with
  | VNone => true
  | _ => false
  end.

(** [str.lower] on the ASCII letters.  Only membership of the result in
    ["none"; "null"] is ever asked, and no non-ASCII letter lowers to one of
    the letters of those two words. *)
Definition lower_ascii (c : ascii) : ascii :=
  let n := nat_of_ascii c in
  if ((65 <=? n) && (n <=? 90))%nat then ascii_of_nat (n + 32) else c.

Fixpoint lower (s : string) : string :=
  match s with
  | EmptyString => EmptyString
  | String c r => String (lower_ascii c) (lower r)
  end.

Definition mem_str (s : string) (l : list string) : bool :=
  existsb (String.eqb s) l.

(** ** Outcomes of a call *)

Inductive exn : Type :=
| KeyError
| TypeError
| ValueError
| AttributeError
| IndexingError
| UnboundLocalError
| OverflowError.

Inductive outcome (A : Type) : Type :=
| Ret (a : A)          (* the call returns [a] *)
| Raise (e : exn)      (* the call raises *)
| Pending.             (* the call has not returned within the fuel given *)

Arguments Ret {A} a.
Arguments Raise {A} e.
Arguments Pending {A}.

Definition bind {A B} (c : outcome A) (k : A -> outcome B) : outcome B :=
  match c with
  | Ret a => k a
  | Raise e => Raise e
  | Pending => Pending
  end.

Notation "x <- c ;; k" := (bind c (fun x => k))
  (at level 61, c at next level, right associativity).
Notation "' p <- c ;; k" := (bind c (fun x => let p := x in k))
  (at level 61, p pattern, c at next level, right associativity).

(** ** Insertion-ordered dictionaries *)

Module PyDict.

Definition t (V : Type) : Type := list (string * V).

Fixpoint get {V} (k : string) (d : t V) : option V :=
  match d with
  | [] => None
  | (k', v) :: r => if k' =? k then Some v else get k r
  end.

(** [d[k] = v] *)
Fixpoint set {V} (k : string) (v : V) (d : t V) : t V :=
  match d with
  | [] => [(k, v)]
  | (k', v') :: r => if k' =? k then (k', v) :: r else (k', v') :: set k v r
  end.

Definition keys {V} (d : t V) : list string := map fst d.
Definition values {V} (d : t V) : list V := map snd d.

(** [d.get(k)] on a dictionary of Python values: [None] when absent. *)
Definition get_or_none (k : string) (d : t value) : value :=
  match get k d with
  | Some v => v
  | None => VNone
  end.

(** [d.get(key)] where the key is itself a Python value: text keys are
    looked up, other hashable keys are never present, a list or a dict is
    unhashable. *)
Definition get_value (key : value) (d : t value) : outcome value :=
  match key with
  | VStr k => Ret (get_or_none k d)
  | VList _ | VDict _ => Raise TypeError
  | _ => Ret VNone
  end.

End PyDict.

(** ** components/dm.py: StateTracker *)

Module Tracker.

Record StateTracker : Type := mkTracker {
  intent : string;
  slots : PyDict.t value
}.

(** One observation: [{"intent": label, ...other entries...}].  The label
    is text; [fields] are the remaining top-level entries in order. *)
Record observation : Type := mkObs {
  obs_intent : string;
  fields : list (string * value)
}.

Definition intent_slots : PyDict.t (list string) :=
  [ ("get_beer_recommendation", ["style"; "abv"; "ibu"; "rating"]);
    ("get_beer_info", ["name"; "brewery"]);
    ("list_beers_by_brewery", ["brewery"]);
    ("get_top_rated", ["style"]);
    ("rate_beer", ["name"; "rating"; "comment"]);
    ("out_of_context", []) ].

(** [intent_slots.get(intent, [])]: the statically defined slots of an
    intent. *)
Definition static_slots (intent : string) : list string :=
  match PyDict.get intent intent_slots with
  | Some l => l
  | None => []
  end.

Definition _initialize_slots (intent : string) : PyDict.t value :=
  let fields := static_slots intent in
  fold_left (fun d field => PyDict.set field VNone d) fields [].

Definition new (intent : string) : StateTracker :=
  mkTracker intent (_initialize_slots intent).

(** [None if val in ["null", None] else val] *)
Definition normalize (val : value) : value :=
  if is_str val "null" || is_none val then VNone else val.

(** The two nested loops of [update], on the slots alone. *)
Definition update_slots (s : PyDict.t value) (nlu_input : list (string * value))
  : PyDict.t value :=
  fold_left
    (fun s kv =>
       match snd kv with
       | VDict d =>
           fold_left (fun s sv => PyDict.set (fst sv) (normalize (snd sv)) s) d s
       | _ => s
       end)
    nlu_input s.

(** The slot writes an observation carries, in the order [update] applies
    them, and one such write. *)
Definition writes (nlu_input : list (string * value)) : list (string * value) :=
  flat_map (fun kv => match snd kv with VDict d => d | _ => [] end) nlu_input.

Definition write (s : PyDict.t value) (sv : string * value) : PyDict.t value :=
  PyDict.set (fst sv) (normalize (snd sv)) s.

(** The JSON document [serialize] dumps. *)
Definition serialize (t : StateTracker) : value :=
  let safe :=
    map (fun kv => (fst kv, if is_none (snd kv) then VStr "null" else snd kv))
        (slots t) in
  VDict [("intent", VStr (intent t)); ("slots", VDict safe)].

(** [update] mutates the tracker and returns its serialization. *)
Definition update (t : StateTracker) (nlu_input : observation)
  : StateTracker * value :=
  let t' := mkTracker (intent t) (update_slots (slots t) (fields nlu_input)) in
  (t', serialize t').

Definition get_intent (t : StateTracker) : string := intent t.

(** Merging a sequence of observations into one tracker. *)
Definition merge_all (t : StateTracker) (obs : list observation) : StateTracker :=
  fold_left (fun t o => fst (update t o)) obs t.

Definition all_writes (obs : list observation) : list (string * value) :=
  flat_map (fun o => writes (fields o)) obs.

End Tracker.

(** ** dataset/dataset.py: the catalog *)

(** Python floats that are not finite rationals appear only as results of
    [float(...)]. *)
Inductive pyfloat : Type :=
| Fin (q : Q)
| PosInf
| NegInf
| NaN.

(** What the program takes from its libraries (rapidfuzz, re, pandas' text
    accessors, Python's [float] and [str]).  Every statement below holds for
    every implementation of this interface. *)
Class Runtime : Type := {
  fuzz_ratio : string -> string -> Q;            (* rapidfuzz.fuzz.ratio *)
  fuzz_token_set_ratio : string -> string -> Q;  (* rapidfuzz.fuzz.token_set_ratio *)
  fuzz_token_sort_ratio : string -> string -> Q; (* rapidfuzz.fuzz.token_sort_ratio *)
  str_strip : string -> string;                  (* str.strip *)
  str_lower : string -> string;                  (* str.lower *)
  collapse_spaces : string -> string;            (* re.sub(r"\s+", " ", s) *)
  word_tokens : string -> list string;           (* re.findall(r"\w+", s) *)
  clean_name : string -> string;                 (* dataset.py, lines 200-203 *)
  float_of_str : string -> option pyfloat;       (* float(s), None when it raises *)
  float_of_num : Q -> option pyfloat;            (* float(x) of a number: a float is
                                                    itself, an int is rounded, None
                                                    when it raises OverflowError *)
  py_str : value -> string                       (* str(v) *)
}.

Module Catalog.

(** A cell written by the rating submission. *)
Inductive scalar : Type :=
| SBool (b : bool)
| SNum (q : Q)
| SStr (s : string).

(** One catalog row.  Text cells are [None] when the CSV cell is empty
    (pandas' NaN); numeric cells are held as [pd.to_numeric(...,
    errors="coerce")] leaves them, [None] being NaN. *)
Record beer : Type := mkBeer {
  Id : Z;
  Name : option string;
  Beer_Full_Name : option string;
  Style : option string;
  Brewery : option string;
  Description : option string;
  ABV : option Q;
  Min_IBU : option Q;
  Max_IBU : option Q;
  Rating : option Q;
  User_Rating : option scalar;
  User_Comment : option string
}.

Definition frame : Type := list beer.

Record BeerDataset : Type := mkDataset {
  data : frame;      (* self.data *)
  _limit : nat;      (* self._limit *)
  disk : frame       (* the table stored at self.path *)
}.

(** *** Cell and row equality (pandas joins and de-duplicates on values,
    NaN matching NaN) *)

Definition opt_eqb {A} (eqb : A -> A -> bool) (a b : option A) : bool :=
  match a, b with
  | Some x, Some y => eqb x y
  | None, None => true
  | _, _ => false
  end.

Definition scalar_eqb (a b : scalar) : bool :=
  match a, b with
  | SBool x, SBool y => Bool.eqb x y
  | SNum x, SNum y => Qeq_bool x y
  | SStr x, SStr y => x =? y
  | _, _ => false
  end.

Definition beer_eqb (a b : beer) : bool :=
  (Id a =? Id b)%Z
  && opt_eqb String.eqb (Name a) (Name b)
  && opt_eqb String.eqb (Beer_Full_Name a) (Beer_Full_Name b)
  && opt_eqb String.eqb (Style a) (Style b)
  && opt_eqb String.eqb (Brewery a) (Brewery b)
  && opt_eqb String.eqb (Description a) (Description b)
  && opt_eqb Qeq_bool (ABV a) (ABV b)
  && opt_eqb Qeq_bool (Min_IBU a) (Min_IBU b)
  && opt_eqb Qeq_bool (Max_IBU a) (Max_IBU b)
  && opt_eqb Qeq_bool (Rating a) (Rating b)
  && opt_eqb scalar_eqb (User_Rating a) (User_Rating b)
  && opt_eqb String.eqb (User_Comment a) (User_Comment b).

Definition is_some {A} (o : option A) : bool :=
  match o with Some _ => true | None => false end.

Definition is_empty {A} (l : list A) : bool :=
  match l with [] => true | _ => false end.

(** [Series.dropna()] *)
Fixpoint dropna {A} (l : list (option A)) : list A :=
  match l with
  | [] => []
  | Some x :: r => x :: dropna r
  | None :: r => dropna r
  end.

(** [Series.unique()]: first occurrences, in order. *)
Fixpoint unique (l : list string) : list string :=
  match l with
  | [] => []
  | x :: r => x :: filter (fun y => negb (y =? x)) (unique r)
  end.

(** [DataFrame.drop_duplicates()]: first occurrences, in order. *)
Fixpoint drop_duplicates (l : frame) : frame :=
  match l with
  | [] => []
  | x :: r => x :: filter (fun y => negb (beer_eqb y x)) (drop_duplicates r)
  end.

(** [pd.merge(l, r, how="inner")] on all columns: every pair of equal rows,
    in the order of the left frame. *)
Definition merge_inner (l r : frame) : frame :=
  flat_map (fun a => map (fun _ => a) (filter (beer_eqb a) r)) l.

(** [s.isin(l)] on a text cell; NaN is in no list of texts. *)
Definition isin (c : option string) (l : list string) : bool :=
  match c with
  | Some s => mem_str s l
  | None => false
  end.

(** *** rapidfuzz.process.extract *)

Definition hit : Type := (string * Q * nat)%type.   (* choice, score, key *)

Definition hit_choice (h : hit) : string := fst (fst h).
Definition hit_score (h : hit) : Q := snd (fst h).

(** Stable insertion by descending score: the hit inserted, which comes
    from an earlier choice than those of the list, goes before the hits
    that score no more than it does. *)
Fixpoint insert_hit (h : hit) (l : list hit) : list hit :=
  match l with
  | [] => [h]
  | h' :: r =>
      if Qle_bool (hit_score h') (hit_score h) then h :: h' :: r
      else h' :: insert_hit h r
  end.

Fixpoint sort_hits (l : list hit) : list hit :=
  match l with
  | [] => []
  | h :: r => insert_hit h (sort_hits r)
  end.

Fixpoint score_all (scorer : string -> string -> Q) (query : string)
         (cutoff : Q) (i : nat) (choices : list (option string)) : list hit :=
  match choices with
  | [] => []
  | None :: r => score_all scorer query cutoff (S i) r
  | Some c :: r =>
      let s := scorer query c in
      if Qle_bool cutoff s
      then (c, s, i) :: score_all scorer query cutoff (S i) r
      else score_all scorer query cutoff (S i) r
  end.

(** The choices scoring at least [cutoff], best first (earlier choice first
    among equal scores), at most [limit] of them; null choices are
    skipped. *)
Definition extract (scorer : string -> string -> Q) (query : string)
           (choices : list (option string)) (cutoff : Q) (limit : nat)
  : list hit :=
  firstn limit (sort_hits (score_all scorer query cutoff 0 choices)).

(** *** Comparisons against a Python float *)

(** [x >= f] and [x <= f] for a finite cell [x]; every comparison with NaN
    is false. *)
Definition ge_float (x : Q) (f : pyfloat) : bool :=
  match f with
  | Fin q => Qle_bool q x
  | PosInf => false
  | NegInf => true
  | NaN => false
  end.

Definition le_float (x : Q) (f : pyfloat) : bool :=
  match f with
  | Fin q => Qle_bool x q
  | PosInf => true
  | NegInf => false
  | NaN => false
  end.

(** [needle in haystack] *)
Fixpoint contains_at (needle haystack : string) : bool :=
  match needle, haystack with
  | EmptyString, _ => true
  | String a n', String b h' => Ascii.eqb a b && contains_at n' h'
  | String _ _, EmptyString => false
  end.

Fixpoint contains (needle haystack : string) : bool :=
  contains_at needle haystack
  || match haystack with
     | EmptyString => false
     | String _ h' => contains needle h'
     end.

(** The first character of an f-string's quoted text. *)
Definition dquote : string := String (ascii_of_nat 34) EmptyString.

Section Filters.

Context {RT : Runtime}.

(** [float(v)]: [None] when it raises (OverflowError for a number too
    large, ValueError for a text that is no number, TypeError for the
    rest). *)
Definition py_float (v : value) : option pyfloat :=
  match v with
  | VNum q => float_of_num q
  | VBool b => Some (Fin (if b then 1 else 0))
  | VStr s => float_of_str s
  | _ => None
  end.

(** What [float(v)] raises when it does. *)
Definition float_exn (v : value) : exn :=
  match v with
  | VStr _ => ValueError
  | VNum _ => OverflowError
  | _ => TypeError
  end.

(** Decimal literals of the source are read as exact decimals. *)
Definition _filter_by_abv (level : value) (data : frame) : outcome frame :=
  let df := filter (fun r => is_some (ABV r)) data in
  let band (low high : Q) :=
    filter (fun r => match ABV r with
                     | Some x => Qle_bool low x && Qle_bool x high
                     | None => false
                     end) df in
  match level with
  | VList _ | VDict _ => Raise TypeError          (* unhashable key *)
  | VStr "low" => Ret (band 0 (49 # 10))%Q
  | VStr "medium" => Ret (band 5 (79 # 10))%Q
  | VStr "high" => Ret (band 8 100)%Q
  | _ => Ret (band 0 100)%Q
  end.

Definition _filter_by_ibu (level : value) (data : frame) : outcome frame :=
  let df := filter (fun r => is_some (Min_IBU r) && is_some (Max_IBU r)) data in
  let band (low high : Q) :=
    filter (fun r => match Min_IBU r, Max_IBU r with
                     | Some mn, Some mx => Qle_bool low mx && Qle_bool mn high
                     | _, _ => false
                     end) df in
  match level with
  | VList _ | VDict _ => Raise TypeError
  | VStr "low" => Ret (band 0 20)%Q
  | VStr "medium" => Ret (band 21 60)%Q
  | VStr "high" => Ret (band 61 120)%Q
  | _ => Ret (band 0 120)%Q
  end.

(** The rows of [data] with a numeric rating: [df] after line 158. *)
Definition rated (data : frame) : frame :=
  filter (fun r => is_some (Rating r)) data.

Definition rating_ge (f : pyfloat) (r : beer) : bool :=
  match Rating r with
  | Some x => ge_float x f
  | None => false
  end.

Definition rating_le (f : pyfloat) (r : beer) : bool :=
  match Rating r with
  | Some x => le_float x f
  | None => false
  end.

Definition _filter_by_rating (val : value) (data : frame) : outcome frame :=
  let df := rated data in
  match val with
  | VList [v0; v1] =>
      (* outside the try: a failing float() propagates *)
      match py_float v0 with
      | None => Raise (float_exn v0)
      | Some low =>
          match py_float v1 with
          | None => Raise (float_exn v1)
          | Some high =>
              Ret (filter (fun r => rating_ge low r && rating_le high r) df)
          end
      end
  | _ =>
      match py_float val with
      | Some f => Ret (filter (rating_ge f) df)
      | None => Ret df                        (* bare except *)
      end
  end.

End Filters.

Section Queries.

Context {RT : Runtime}.

(** *** _filter_by_style *)

(** The [for threshold in [90, 85, 80, 75]] loop: the choices of the first
    threshold that matches anything ([limit] is rapidfuzz's default 5). *)
Fixpoint fuzzy_styles_from (q : string) (unique_styles : list string)
         (thresholds : list Z) : list string :=
  match thresholds with
  | [] => []
  | threshold :: rest =>
      let matches :=
        extract fuzz_token_set_ratio q (map Some unique_styles)
                (inject_Z threshold) 5 in
      if is_empty matches then fuzzy_styles_from q unique_styles rest
      else map hit_choice matches
  end.

Definition style_query (query : string) : string :=
  collapse_spaces (str_lower (str_strip query)).

(** [mask] of lines 174-176, row by row. *)
Definition style_mask (tokens : list string) (r : beer) : bool :=
  match Style r with
  | Some s => forallb (fun token => contains token (str_lower s)) tokens
  | None => false
  end.

Definition substr_styles_of (query : string) (data : frame) : list string :=
  unique (dropna (map Style (filter (style_mask (word_tokens (style_query query))) data))).

Definition fuzzy_styles_of (query : string) (data : frame) : list string :=
  fuzzy_styles_from (style_query query) (unique (dropna (map Style data)))
                    [90; 85; 80; 75]%Z.

(** [data[data["Style"].isin(styles)] if styles else pd.DataFrame()] *)
Definition rows_with_style (styles : list string) (data : frame) : frame :=
  if is_empty styles then []
  else filter (fun r => isin (Style r) styles) data.

(** Three library behaviours decide the outcomes that are not [Ret]:
    - a value that is not text has no [strip] (line 169);
    - [data["Style"][mask]] raises pandas' IndexingError when the mask,
      built on the non-null styles, misses a label of the frame, that is
      when some row has no style (line 178);
    - [bool(df)] of a DataFrame raises ValueError whatever its size, so
      [df_substr or df_fuzzy or ...] (line 194) raises as soon as it is
      reached. *)
Definition _filter_by_style (query : value) (data : frame) : outcome frame :=
  match query with
  | VStr query =>
      if existsb (fun r => negb (is_some (Style r))) data
      then Raise IndexingError
      else
        let df_substr := rows_with_style (substr_styles_of query data) data in
        let df_fuzzy := rows_with_style (fuzzy_styles_of query data) data in
        if negb (is_empty df_substr) && negb (is_empty df_fuzzy) then
          let intersect := merge_inner df_substr df_fuzzy in
          Ret (if negb (is_empty intersect) then intersect
               else drop_duplicates (df_substr ++ df_fuzzy))
        else Raise ValueError
  | _ => Raise AttributeError
  end.

(** *** _filter_by_name and _filter_by_brewery *)

(** [result] of one pass of the loop at [threshold], for the column
    [key]. *)
Definition result_at (key : beer -> option string) (query : string)
           (df : frame) (limit : nat) (threshold : Z) : frame :=
  let matches :=
    extract fuzz_ratio query (map key df) (inject_Z threshold) limit in
  let matched := map hit_choice matches in
  filter (fun r => isin (key r) matched) df.

(** The [while True] loop of lines 205-215 and of lines 222-232 (the same
    text up to the column).  One unit of fuel is one pass; the loop's
    final threshold is returned with the result. *)
Fixpoint adaptive_loop (key : beer -> option string) (query : string)
         (df : frame) (limit : nat) (fuel : nat) (threshold : Z)
  : outcome (Z * frame) :=
  match fuel with
  | O => Pending
  | S fuel' =>
      let result := result_at key query df limit threshold in
      if is_empty result && (30 <? threshold)%Z then
        adaptive_loop key query df limit fuel' (threshold - 5)
      else if (10 <? length result)%nat && (threshold <? 100)%Z then
        adaptive_loop key query df limit fuel' (threshold + 1)
      else Ret (threshold, result)
  end.

(** [Name_clean]: [astype(str)] turns a null name into the text "nan". *)
Definition Name_clean (r : beer) : option string :=
  Some (clean_name (match Name r with Some s => s | None => "nan" end)).

Definition name_query (query : string) : string :=
  str_lower (str_strip query).

Definition _filter_by_name (limit fuel : nat) (query : value) (data : frame)
  : outcome frame :=
  match query with
  | VStr query =>
      tr <- adaptive_loop Name_clean (name_query query) data limit fuel 90 ;;
      Ret (snd tr)
  | _ => Raise AttributeError
  end.

(** rapidfuzz scores text; a query that is not text is rejected. *)
Definition _filter_by_brewery (limit fuel : nat) (query : value) (data : frame)
  : outcome frame :=
  match query with
  | VStr query =>
      tr <- adaptive_loop Brewery query data limit fuel 90 ;;
      Ret (snd tr)
  | _ => Raise TypeError
  end.

End Queries.

Section Operations.

Context {RT : Runtime}.

(** *** filter_by_intent *)

(** The [if key == ... elif ...] chain of lines 35-46. *)
Definition apply_filter (limit fuel : nat) (key : string) (val : value)
           (df : frame) : outcome frame :=
  if key =? "style" then _filter_by_style val df
  else if key =? "abv" then _filter_by_abv val df
  else if key =? "ibu" then _filter_by_ibu val df
  else if key =? "rating" then _filter_by_rating val df
  else if key =? "name" then _filter_by_name limit fuel val df
  else if key =? "brewery" then _filter_by_brewery limit fuel val df
  else Ret df.

(** The [for key, value in slots.items()] loop. *)
Fixpoint apply_slots (limit fuel : nat) (slots : PyDict.t value) (df : frame)
  : outcome frame :=
  match slots with
  | [] => Ret df
  | (key, val) :: rest =>
      if is_none val || is_str val "null" then apply_slots limit fuel rest df
      else
        df' <- apply_filter limit fuel key val df ;;
        apply_slots limit fuel rest df'
  end.

(** [df.sort_values(by="Rating", ascending=False)]: best rating first,
    rows without a rating last.  The order pandas gives to equal ratings
    is its own; nothing stated below depends on the order they get
    here. *)
Definition rating_before (a b : beer) : bool :=
  match Rating a, Rating b with
  | Some x, Some y => Qle_bool y x
  | Some _, None => true
  | None, Some _ => false
  | None, None => true
  end.

Fixpoint insert_by_rating (r : beer) (l : frame) : frame :=
  match l with
  | [] => [r]
  | r' :: rest =>
      if rating_before r' r then r' :: insert_by_rating r rest
      else r :: r' :: rest
  end.

Fixpoint sort_by_rating (l : frame) : frame :=
  match l with
  | [] => []
  | r :: rest => insert_by_rating r (sort_by_rating rest)
  end.

(** The rows [_format_json] renders, or [None].  [top_k] is the default 5
    (no caller passes another).  The rendering itself is text that is
    never empty. *)
Definition filter_by_intent (fuel : nat) (ds : BeerDataset)
           (slots : PyDict.t value) (intent : string)
  : outcome (option frame) :=
  df <- apply_slots (_limit ds) fuel slots (data ds) ;;
  if is_empty df then Ret None
  else
    let df := if intent =? "get_top_rated" then sort_by_rating df else df in
    Ret (Some (firstn 5 df)).

(** *** record_user_rating *)

Record rating_payload : Type := mkPayload {
  beer_name : option string;
  beer_brewery : option string;
  new_rating : value;
  comment : value
}.

(** The cell pandas stores for a scalar rating.  A list or a dict is not
    a cell: pandas spreads or rejects it according to its length, which
    is not modelled. *)
Definition to_scalar (v : value) : option scalar :=
  match v with
  | VBool b => Some (SBool b)
  | VNum q => Some (SNum q)
  | VStr s => Some (SStr s)
  | _ => None
  end.

(** [self.data["Name"] == matched_name], row by row. *)
Definition named (matched_name : string) (r : beer) : bool :=
  opt_eqb String.eqb (Name r) (Some matched_name).

Definition set_user_rating (cell : scalar) (r : beer) : beer :=
  mkBeer (Id r) (Name r) (Beer_Full_Name r) (Style r) (Brewery r)
         (Description r) (ABV r) (Min_IBU r) (Max_IBU r) (Rating r)
         (Some cell) (User_Comment r).

Definition set_user_comment (text : string) (r : beer) : beer :=
  mkBeer (Id r) (Name r) (Beer_Full_Name r) (Style r) (Brewery r)
         (Description r) (ABV r) (Min_IBU r) (Max_IBU r) (Rating r)
         (User_Rating r) (Some text).

(** Lines 90-92 on one row. *)
Definition rate_row (matched_name : string) (cell : scalar) (comment : value)
           (r : beer) : beer :=
  if named matched_name r then
    let r := set_user_rating cell r in
    if truthy comment
    then set_user_comment (dquote ++ py_str comment ++ dquote)%string r
    else r
  else r.

(** The best match of [name] among the distinct names, if any scores at
    least 85. *)
Definition best_match (name : string) (d : frame) : option string :=
  let names := unique (dropna (map Name d)) in
  match extract fuzz_token_sort_ratio name (map Some names) 85 5 with
  | [] => None
  | m :: _ => Some (hit_choice m)
  end.

(** Returns the payload (or [None]) and the dataset after the call:
    memory and disk. *)
Definition record_user_rating (ds : BeerDataset) (slots : PyDict.t value)
  : outcome (option rating_payload * BeerDataset) :=
  let name := PyDict.get_or_none "name" slots in
  let rating := PyDict.get_or_none "rating" slots in
  let comment := PyDict.get_or_none "comment" slots in
  if is_none name || is_none rating then Ret (None, ds)
  else
    match name with
    | VStr name =>
        match best_match name (data ds) with
        | None => Ret (None, ds)
        | Some matched_name =>
            match filter (named matched_name) (data ds) with
            | [] => Ret (None, ds)
            | first :: _ =>
                match to_scalar rating with
                | None => Raise ValueError
                | Some cell =>
                    let data' :=
                      map (rate_row matched_name cell comment) (data ds) in
                    (* self.data.to_csv(self.path) *)
                    let ds' := mkDataset data' (_limit ds) data' in
                    (* self.data.loc[indices[0]], read after the update *)
                    let row := rate_row matched_name cell comment first in
                    Ret (Some (mkPayload (Name row) (Brewery row)
                                         rating comment),
                         ds')
                end
            end
        end
    | _ => Raise TypeError        (* rapidfuzz scores text only *)
    end.

End Operations.

End Catalog.

(** ** components/dm.py: DM *)

Module DecisionEngine.

Import Tracker.

(** What an emitted action carries as ["data"]. *)
Inductive payload : Type :=
| DBeers (rows : Catalog.frame)              (* filter_by_intent's JSON *)
| DRating (p : Catalog.rating_payload)       (* record_user_rating's dict *)
| DText (s : string)
| DState (doc : value).                      (* state.serialize() *)

(** [{"action": ..., "parameter": ..., "data": ...}] *)
Record decision : Type := mkDecision {
  action : value;
  parameter : value;
  data : payload
}.

Inductive out_item : Type :=
| TerminateSystem                            (* the text "terminate_system" *)
| Action (d : decision).

(** The fields of [DM] the decision cycle reads or writes. *)
Record DM : Type := mkDM {
  eval_mode : bool;
  dataset : Catalog.BeerDataset;
  state_stack : list StateTracker
}.

(** One answer of the collaborator, after [_extract_json] and
    [json.loads]: either the parse raises, or it yields a document. *)
Inductive reply : Type :=
| Garbled
| Parsed (doc : value).

(** [str(parameter).lower() in ["none", "null"]]: the text of a number, a
    boolean, a list or a dict is never one of the two words. *)
Definition null_sentinel (parameter : value) : bool :=
  match parameter with
  | VStr s => mem_str (lower s) ["none"; "null"]
  | VNone => true
  | _ => false
  end.

Definition full_slots (state : StateTracker) : bool :=
  forallb (fun v => negb (is_none v)) (PyDict.values (slots state)).

Definition _check_response_validity (nba : PyDict.t value) (state : StateTracker)
  : outcome bool :=
  let action := PyDict.get_or_none "action" nba in
  let parameter := PyDict.get_or_none "parameter" nba in
  if negb (is_str action "request_info" || is_str action "confirmation")
  then Ret false
  else if negb (truthy parameter) || null_sentinel parameter then Ret false
  else
    already_set <-
      (if is_str action "request_info"
       then v <- PyDict.get_value parameter (slots state) ;;
            Ret (negb (is_none v))
       else Ret false) ;;
    if already_set then Ret false
    else if full_slots state && negb (is_str action "confirmation")
    then Ret false
    else if negb (full_slots state) && negb (is_str action "request_info")
    then Ret false
    else if get_intent state =? "get_beer_info" then
      Ret ((is_str parameter "name" && is_str action "request_info")
           || (negb (is_none (PyDict.get_or_none "name" (slots state)))
               && is_str action "confirmation"))
    else Ret true.

(** [d[k]] *)
Definition subscript (k : string) (d : PyDict.t value) : outcome value :=
  match PyDict.get k d with
  | Some v => Ret v
  | None => Raise KeyError
  end.

Section Engine.

Context {RT : Runtime}.

(** [fuel] bounds the passes of the adaptive loops of the catalog. *)
Variable fuel : nat.

Definition query_intents : list string :=
  ["get_beer_recommendation"; "get_beer_info"; "list_beers_by_brewery";
   "get_top_rated"].

(** Returns the result (or [None]) and the dataset after the call. *)
Definition _handle_confirmation (ds : Catalog.BeerDataset)
           (stack : list StateTracker) (nba_confirm : PyDict.t value)
  : outcome (option payload * Catalog.BeerDataset) :=
  target_intent <- subscript "parameter" nba_confirm ;;
  match find (fun s => is_str target_intent (get_intent s)) stack with
  | None => Ret (None, ds)
  | Some target_state =>
      let label := get_intent target_state in
      if mem_str label query_intents then
        r <- Catalog.filter_by_intent fuel ds (slots target_state) label ;;
        Ret (option_map DBeers r, ds)
      else if label =? "rate_beer" then
        rd <- Catalog.record_user_rating ds (slots target_state) ;;
        Ret (option_map DRating (fst rd), snd rd)
      else if label =? "out_of_context" then
        Ret (Some (DText "Intent out_of_context"), ds)
      else Ret (None, ds)
  end.

(** The [while repeat] loop: the accepted proposal and the answers not
    yet consumed.  Running out of answers is [Pending]. *)
Fixpoint await_proposal (eval : bool) (state : StateTracker)
         (script : list reply) : outcome (PyDict.t value * list reply) :=
  match script with
  | [] => Pending
  | Garbled :: rest => await_proposal eval state rest
  | Parsed (VDict nba) :: rest =>
      if eval then Ret (nba, rest)
      else
        ok <- _check_response_validity nba state ;;
        if ok then Ret (nba, rest) else await_proposal eval state rest
  | Parsed _ :: rest =>
      (* not an object: [nba.get] fails, or [parsed["action"]] does *)
      if eval then Raise TypeError else Raise AttributeError
  end.

(** The variables of [__call__] that live across the iterations of its
    [for] loop.  [result] is unbound until a branch assigns it, and then
    keeps its last value. *)
Record loop_state : Type := mkLoop {
  script : list reply;
  ds : Catalog.BeerDataset;
  final_actions : list decision;
  remove_indices : list nat;
  result : option payload
}.

(** What one accepted proposal does (lines 89-104) for the tracker at
    [idx]. *)
Definition dispatch (stack : list StateTracker) (idx : nat)
           (state : StateTracker) (parsed : PyDict.t value)
           (rest : list reply) (st : loop_state) : outcome loop_state :=
  act <- subscript "action" parsed ;;
  if is_str act "confirmation" then
    rd <- _handle_confirmation (ds st) stack parsed ;;
    par <- subscript "parameter" parsed ;;
    match fst rd with
    | Some res =>
        Ret (mkLoop rest (snd rd)
                    (final_actions st ++ [mkDecision act par res])
                    (remove_indices st ++ [idx])
                    (Some res))
    | None =>
        let res := DState (serialize state) in
        Ret (mkLoop rest (snd rd)
                    (final_actions st ++ [mkDecision (VStr "check_info") par res])
                    (remove_indices st)
                    (Some res))
    end
  else if is_str act "request_info" then
    let res := DText ("intent: " ++ get_intent state)%string in
    par <- subscript "parameter" parsed ;;
    Ret (mkLoop rest (ds st)
                (final_actions st ++ [mkDecision act par res])
                (remove_indices st)
                (Some res))
  else
    par <- subscript "parameter" parsed ;;
    match result st with
    | None => Raise UnboundLocalError
    | Some res =>
        Ret (mkLoop rest (ds st)
                    (final_actions st ++ [mkDecision act par res])
                    (remove_indices st)
                    (Some res))
    end.

(** One iteration of the [for] loop. *)
Definition cycle (eval : bool) (stack : list StateTracker) (idx : nat)
           (state : StateTracker) (st : loop_state) : outcome loop_state :=
  pr <- await_proposal eval state (script st) ;;
  dispatch stack idx state (fst pr) (snd pr) st.

(** The [for idx, state in enumerate(self.state_stack)] loop, from
    [idx] on. *)
Fixpoint cycles (eval : bool) (stack : list StateTracker) (idx : nat)
         (todo : list StateTracker) (st : loop_state) : outcome loop_state :=
  match todo with
  | [] => Ret st
  | state :: todo' =>
      st' <- cycle eval stack idx state st ;;
      cycles eval stack (S idx) todo' st'
  end.

(** The inner loop of [_update_states]: update the first tracker of the
    intent, if there is one. *)
Fixpoint update_first (nlu : observation) (stack : list StateTracker)
  : option (list StateTracker) :=
  match stack with
  | [] => None
  | state :: rest =>
      if get_intent state =? obs_intent nlu
      then Some (fst (update state nlu) :: rest)
      else option_map (cons state) (update_first nlu rest)
  end.

Definition _update_states (stack : list StateTracker)
           (nlu_inputs : list observation) : list StateTracker :=
  fold_left
    (fun stack nlu =>
       match update_first nlu stack with
       | Some stack' => stack'
       | None => stack ++ [fst (update (new (obs_intent nlu)) nlu)]
       end)
    nlu_inputs stack.

(** [[s for i, s in enumerate(stack) if i not in remove_indices]] *)
Fixpoint keep_from (i : nat) (stack : list StateTracker)
         (remove_indices : list nat) : list StateTracker :=
  match stack with
  | [] => []
  | s :: rest =>
      if existsb (Nat.eqb i) remove_indices
      then keep_from (S i) rest remove_indices
      else s :: keep_from (S i) rest remove_indices
  end.

Definition is_terminate (nlu_inputs : list observation) : bool :=
  match nlu_inputs with
  | [nlu] => obs_intent nlu =? "terminate_system"
  | _ => false
  end.

(** [DM.__call__]: the actions of the turn, the engine after the turn and
    the answers of the collaborator not yet consumed. *)
Definition call (dm : DM) (answers : list reply)
           (nlu_inputs : list observation)
  : outcome (list out_item * DM * list reply) :=
  if is_terminate nlu_inputs then Ret ([TerminateSystem], dm, answers)
  else
    let stack := _update_states (state_stack dm) nlu_inputs in
    st <- cycles (eval_mode dm) stack 0 stack
                 (mkLoop answers (dataset dm) [] [] None) ;;
    Ret (map Action (final_actions st),
         mkDM (eval_mode dm) (ds st) (keep_from 0 stack (remove_indices st)),
         script st).

End Engine.

End DecisionEngine.

(** ** utils/history.py: History *)

Module Memory.

(** One stored turn: [{"role": role, "content": content}]. *)
Record turn : Type := mkTurn {
  role : string;
  content : string
}.

Record History : Type := mkHistory {
  _memory : list turn;
  max_turns : Z
}.

(** What a method that mutates the buffer leaves: the buffer, or the
    IndexError of [list.pop(0)] on an empty list. *)
Inductive result : Type :=
| Done (h : History)
| IndexError.

(** [History(limit)] *)
Definition init (limit : Z) : History := mkHistory [] limit.

Definition reset (h : History) : History := mkHistory [] (max_turns h).

Definition push (h : History) (role content : string) : result :=
  if (max_turns h <=? Z.of_nat (length (_memory h)))%Z then
    match _memory h with
    | [] => IndexError
    | _ :: rest => Done (mkHistory (rest ++ [mkTurn role content]) (max_turns h))
    end
  else Done (mkHistory (_memory h ++ [mkTurn role content]) (max_turns h)).

Definition get_history (h : History) : list turn := _memory h.

Definition newline : string := String (ascii_of_nat 10) EmptyString.

Definition get_history_str (h : History) : string :=
  String.concat newline
    (map (fun entry => (role entry ++ ": " ++ content entry)%string) (_memory h)).

Definition clean (h : History) (user_text : string) : result :=
  push (reset h) "user" user_text.

End Memory.

(** ** components/nlu.py: NLU._clean_slots *)

Module SlotFilling.

(** [_clean_slots] on the dictionary [v]: in the order of the entries, a
    null value becomes the text "null", a nested dictionary is cleaned in
    turn and its entry deleted when nothing is left of it, and every other
    value (a list included, whatever it holds) is kept as it is. *)
Fixpoint clean_dict (v : value) : list (string * value) :=
  match v with
  | VDict response =>
      (fix items (l : list (string * value)) : list (string * value) :=
         match l with
         | [] => []
         | (key, value) :: rest =>
             match value with
             | VNone => (key, VStr "null") :: items rest
             | VDict _ =>
                 match clean_dict value with
                 | [] => items rest
                 | nested => (key, VDict nested) :: items rest
                 end
             | _ => (key, value) :: items rest
             end
         end) response
  | _ => []
  end.

Definition _clean_slots (response : list (string * value)) : list (string * value) :=
  clean_dict (VDict response).

End SlotFilling.

(** ** components/nlg.py: NLG *)

Module Generation.

Import DecisionEngine.

(** [prompt_map]: the entries keyed by an action, and the entries keyed by
    the pair of an action and an intent. *)
Definition prompt_map_actions : PyDict.t string :=
  [ ("request_info", "prompt_request_info");
    ("check_info", "prompt_check_info");
    ("merge", "prompt_merge_responses") ].

Definition prompt_map_pairs : list (string * string * string) :=
  [ ("confirmation", "get_beer_recommendation",
     "prompt_confirmation_get_beer_recommendation");
    ("confirmation", "get_beer_info", "prompt_confirmation_get_beer_info");
    ("confirmation", "list_beers_by_brewery",
     "prompt_confirmation_list_beers_by_brewery");
    ("confirmation", "get_top_rated", "prompt_confirmation_get_top_rated");
    ("confirmation", "rate_beer", "prompt_confirmation_rate_beer");
    ("confirmation", "out_of_context", "prompt_confirmation_out_of_context") ].

Definition get_pair (action param : string) : option string :=
  option_map snd
    (find (fun e => (fst (fst e) =? action) && (snd (fst e) =? param))
          prompt_map_pairs).

(** A list or a dict cannot be hashed. *)
Definition hashable (v : value) : bool :=
  match v with
  | VList _ | VDict _ => false
  | _ => true
  end.

(** Lines 52-53: [key = (action, param) if (action, param) in prompt_map
    else action], then [prompt_map.get(key)].  Only text equals a key of the
    map; the membership test hashes both values. *)
Definition select_prompt (action param : value) : outcome (option string) :=
  if negb (hashable action && hashable param) then Raise TypeError
  else
    match action with
    | VStr a =>
        match param with
        | VStr p =>
            match get_pair a p with
            | Some prompt_key => Ret (Some prompt_key)
            | None => Ret (PyDict.get a prompt_map_actions)
            end
        | _ => Ret (PyDict.get a prompt_map_actions)
        end
    | _ => Ret None
    end.

(** [self.prompts["nlg"][prompt_key]] *)
Definition prompt_text (prompts : PyDict.t string) (prompt_key : string)
  : outcome string :=
  match PyDict.get prompt_key prompts with
  | Some text => Ret text
  | None => Raise KeyError
  end.

(** One answer of the model to [_query_model]; with no answer left the call
    is pending. *)
Definition _query_model (answers : list string) : outcome (string * list string) :=
  match answers with
  | [] => Pending
  | response :: rest => Ret (response, rest)
  end.

Definition _merge_responses (prompts : PyDict.t string) (answers : list string)
  : outcome (string * list string) :=
  _ <- prompt_text prompts "prompt_merge_responses" ;;
  _query_model answers.

(** The [for action_obj in decisions] loop, with the responses gathered so
    far: the text "error" of an early return, or the responses, and in both
    cases the answers of the model not yet consumed. *)
Fixpoint gather (prompts : PyDict.t string) (decisions : list out_item)
         (answers : list string) (responses : list string)
  : outcome ((string + list string) * list string) :=
  match decisions with
  | [] => Ret (inr responses, answers)
  | TerminateSystem :: _ => Ret (inl "error", answers)      (* not a dict *)
  | Action d :: rest =>
      prompt_key <- select_prompt (action d) (parameter d) ;;
      match prompt_key with
      | None => Ret (inl "error", answers)
      | Some prompt_key =>
          _ <- prompt_text prompts prompt_key ;;
          ra <- _query_model answers ;;
          gather prompts rest (snd ra) (responses ++ [fst ra])
      end
  end.

(** [NLG.__call__]: the utterance and the answers of the model not yet
    consumed. *)
Definition call (prompts : PyDict.t string) (decisions : list out_item)
           (answers : list string) : outcome (string * list string) :=
  g <- gather prompts decisions answers [] ;;
  match fst g with
  | inl text => Ret (text, snd g)
  | inr [response] => Ret (response, snd g)
  | inr _ => _merge_responses prompts (snd g)
  end.

End Generation.


(** ** A runtime for the closed examples

    On the texts the examples use (single ASCII words, no blanks, no
    punctuation) each function below is what the library function computes:
    rapidfuzz's [ratio] is the normalized indel similarity
    [100 * 2 * lcs / (len a + len b)], and on single words the two token
    scorers coincide with it.  The numbers the examples use (small integers
    and halves) are floats, which [float] returns as they are. *)

Module Demo.

Fixpoint lcs (a b : string) : nat :=
  match a with
  | EmptyString => O
  | String x a' =>
      (fix inner (b : string) : nat :=
         match b with
         | EmptyString => O
         | String y b' =>
             if Ascii.eqb x y then S (lcs a' b')
             else Nat.max (inner b') (lcs a' b)
         end) b
  end.

Definition indel_ratio (a b : string) : Q :=
  let n := (String.length a + String.length b)%nat in
  match n with
  | O => 100
  | S _ => (Z.of_nat (200 * lcs a b)) # (Pos.of_nat n)
  end.

Definition all_digits (s : string) : bool :=
  forallb (fun c => let n := nat_of_ascii c in ((48 <=? n) && (n <=? 57))%nat)
          (list_ascii_of_string s).

Definition digits_value (s : string) : Z :=
  fold_left (fun acc c => (10 * acc + Z.of_nat (nat_of_ascii c - 48))%Z)
            (list_ascii_of_string s) 0%Z.

Definition float_of_word (s : string) : option pyfloat :=
  if negb (s =? "") && all_digits s then Some (Fin (inject_Z (digits_value s)))
  else None.

Definition str_of (v : value) : string :=
  match v with
  | VStr s => s
  | _ => ""
  end.

#[export] Instance runtime : Runtime := {
  fuzz_ratio := indel_ratio;
  fuzz_token_set_ratio := indel_ratio;
  fuzz_token_sort_ratio := indel_ratio;
  str_strip := fun s => s;
  str_lower := lower;
  collapse_spaces := fun s => s;
  word_tokens := fun s => if s =? "" then [] else [s];
  clean_name := lower;
  float_of_str := float_of_word;
  float_of_num := fun q => Some (Fin q);
  py_str := str_of
}.

End Demo.

(** * Properties *)

(** ** Dictionaries *)

Module PyDictFacts.

Import PyDict.

Lemma get_set_same {V} (k : string) (v : V) (d : t V) :
  get k (set k v d) = Some v.
Proof.
  induction d as [|[k' v'] d IH]; simpl.
  - now rewrite String.eqb_refl.
  - destruct (k' =? k) eqn:E; simpl; rewrite E; auto.
Qed.

Lemma get_set_other {V} (k k0 : string) (v : V) (d : t V) :
  k0 <> k -> get k0 (set k v d) = get k0 d.
Proof.
  intros Hne. induction d as [|[k' v'] d IH]; simpl.
  - destruct (k =? k0) eqn:E; auto.
    apply String.eqb_eq in E. congruence.
  - destruct (k' =? k) eqn:E; simpl.
    + apply String.eqb_eq in E. subst k'.
      destruct (k =? k0) eqn:E'; auto.
      apply String.eqb_eq in E'. congruence.
    + now rewrite IH.
Qed.

Lemma get_set {V} (k k0 : string) (v : V) (d : t V) :
  get k0 (set k v d) = if k =? k0 then Some v else get k0 d.
Proof.
  destruct (k =? k0) eqn:E.
  - apply String.eqb_eq in E. subst. apply get_set_same.
  - apply get_set_other. intros ->. now rewrite String.eqb_refl in E.
Qed.

Lemma in_keys_set {V} (k k0 : string) (v : V) (d : t V) :
  In k0 (keys (set k v d)) <-> k0 = k \/ In k0 (keys d).
Proof.
  unfold keys. induction d as [|[k' v'] d IH]; simpl.
  - intuition.
  - destruct (k' =? k) eqn:E; simpl.
    + apply String.eqb_eq in E. subst. intuition.
    + rewrite IH. intuition.
Qed.

(** Writing a key that is present leaves the keys as they are, in order. *)
Lemma keys_set_present {V} (k : string) (v : V) (d : t V) :
  In k (keys d) -> keys (set k v d) = keys d.
Proof.
  unfold keys. induction d as [|[k' v'] d IH]; simpl; [tauto|].
  intros H. destruct (k' =? k) eqn:E; simpl; auto.
  f_equal. apply IH. destruct H as [H|H]; auto.
  subst. now rewrite String.eqb_refl in E.
Qed.

Lemma get_some_in_keys {V} (k : string) (d : t V) :
  In k (keys d) <-> exists v, get k d = Some v.
Proof.
  unfold keys. induction d as [|[k' v'] d IH]; simpl.
  - split; [tauto | intros [v H]; discriminate].
  - destruct (k' =? k) eqn:E.
    + apply String.eqb_eq in E. split; eauto.
    + rewrite IH. split; [intros [H|H]; auto | auto].
      subst. now rewrite String.eqb_refl in E.
Qed.

Lemma get_map {V W} (f : V -> W) (k : string) (d : t V) :
  get k (map (fun kv => (fst kv, f (snd kv))) d) = option_map f (get k d).
Proof.
  induction d as [|[k' v'] d IH]; simpl; auto.
  destruct (k' =? k); auto.
Qed.

End PyDictFacts.

(** ** The slot tracker *)

Module TrackerFacts.

Import PyDict Tracker PyDictFacts.

Lemma update_slots_writes (nlu_input : list (string * value)) :
  forall s, update_slots s nlu_input = fold_left write (writes nlu_input) s.
Proof.
  unfold update_slots.
  induction nlu_input as [|[k v] r IH]; intros s; simpl; auto.
  rewrite fold_left_app, IH. destruct v; reflexivity.
Qed.

Lemma merge_all_intent (obs : list observation) :
  forall t, intent (merge_all t obs) = intent t.
Proof.
  unfold merge_all.
  induction obs as [|o r IH]; intros t; simpl; auto.
  now rewrite IH.
Qed.

Lemma merge_all_slots (obs : list observation) :
  forall t, slots (merge_all t obs) = fold_left write (all_writes obs) (slots t).
Proof.
  unfold merge_all.
  induction obs as [|o r IH]; intros t; simpl; auto.
  rewrite IH. simpl. now rewrite fold_left_app, update_slots_writes.
Qed.

Lemma in_keys_writes (ws : list (string * value)) :
  forall s k, In k (keys (fold_left write ws s)) <-> In k (keys s) \/ In k (map fst ws).
Proof.
  induction ws as [|[k' v'] ws IH]; intros s k; simpl.
  - tauto.
  - rewrite IH. unfold write. simpl. rewrite in_keys_set.
    intuition; subst; auto.
Qed.

Lemma keys_writes_present (ws : list (string * value)) :
  forall s, (forall k, In k (map fst ws) -> In k (keys s)) ->
            keys (fold_left write ws s) = keys s.
Proof.
  induction ws as [|[k' v'] ws IH]; intros s H; simpl; auto.
  assert (Hk : keys (write s (k', v')) = keys s).
  { apply keys_set_present. apply H. now left. }
  rewrite IH; auto.
  intros k Hin. rewrite Hk. apply H. now right.
Qed.

Lemma keys_initialize (intent : string) :
  keys (_initialize_slots intent) = static_slots intent.
Proof.
  unfold _initialize_slots, static_slots, intent_slots. simpl.
  repeat match goal with
         | |- context [if ?b then _ else _] => destruct b
         end; reflexivity.
Qed.

Lemma values_initialize (intent : string) (k : string) (v : value) :
  get k (_initialize_slots intent) = Some v -> v = VNone.
Proof.
  unfold _initialize_slots, static_slots, intent_slots. simpl.
  repeat match goal with
         | |- context [if ?b then _ else _] => destruct b
         end; simpl;
    repeat match goal with
           | |- context [if ?b then _ else _] => destruct b
           end; congruence.
Qed.

Lemma normalize_cases (val : value) :
  (normalize val = VNone /\ (val = VStr "null" \/ val = VNone))
  \/ (normalize val = val /\ val <> VStr "null" /\ val <> VNone).
Proof.
  unfold normalize.
  destruct val; simpl; try (right; repeat split; congruence).
  - left. auto.
  - destruct (s =? "null") eqn:E.
    + apply String.eqb_eq in E. subst. left. auto.
    + right. repeat split; try congruence.
      intros [= ->]. discriminate.
Qed.

Lemma normalize_not_null (val : value) : normalize val <> VStr "null".
Proof.
  destruct (normalize_cases val) as [[-> _]|[-> [H _]]]; congruence.
Qed.

Lemma writes_never_store_null (ws : list (string * value)) :
  forall s k,
    (forall k, get k s <> Some (VStr "null")) ->
    get k (fold_left write ws s) <> Some (VStr "null").
Proof.
  induction ws as [|[k' v'] ws IH]; intros s k H; simpl; auto.
  apply IH. intros k0. unfold write. simpl. rewrite get_set.
  destruct (k' =? k0); auto.
  intros [= E]. now apply (normalize_not_null v').
Qed.

Lemma get_app {V} (k : string) (d1 d2 : PyDict.t V) :
  get k (d1 ++ d2) = match get k d1 with
                     | Some v => Some v
                     | None => get k d2
                     end.
Proof.
  induction d1 as [|[k' v'] d1 IH]; simpl; auto.
  destruct (k' =? k); auto.
Qed.

(** Within a sequence of writes the last write to a slot wins, and a slot
    that is not written keeps its value. *)
Lemma get_writes (ws : list (string * value)) :
  forall s k,
    get k (fold_left write ws s)
    = match get k (rev ws) with
      | Some v => Some (normalize v)
      | None => get k s
      end.
Proof.
  induction ws as [|[k' v'] ws IH]; intros s k; simpl; auto.
  rewrite IH, get_app. destruct (get k (rev ws)); auto.
  unfold write. simpl. rewrite get_set.
  destruct (k' =? k); reflexivity.
Qed.

Lemma get_merge_all (obs : list observation) (t : StateTracker) (k : string) :
  get k (slots (merge_all t obs))
  = match get k (rev (all_writes obs)) with
    | Some v => Some (normalize v)
    | None => get k (slots t)
    end.
Proof. rewrite merge_all_slots. apply get_writes. Qed.

End TrackerFacts.

Module TrackerSpec.

Import PyDict Tracker PyDictFacts TrackerFacts.

(** An observation of [get_beer_info] that names a slot outside the static
    table of that intent. *)
Definition obs_extra_slot : observation :=
  mkObs "get_beer_info" [("slots", VDict [("style", VStr "ipa")])].

(** An observation whose slot value is the text "none". *)
Definition obs_none_text : observation :=
  mkObs "get_top_rated" [("slots", VDict [("style", VStr "none")])].

Lemma in_keys_merge_all (intent : string) (obs : list observation) (k : string) :
  In k (keys (slots (merge_all (new intent) obs)))
  <-> In k (static_slots intent) \/ In k (map fst (all_writes obs)).
Proof.
  rewrite merge_all_slots. simpl.
  rewrite in_keys_writes, keys_initialize. tauto.
Qed.

(** C4, as stated, fails: the text "none" is not a sentinel for [update]; it
    is stored as the slot value. *)
Lemma none_text_is_stored :
  get "style" (slots (merge_all (new "get_top_rated") [obs_none_text]))
  = Some (VStr "none").
Proof. reflexivity. Qed.

(** C4 (amended).  When the tracker merges an observation, a slot value that
    is the text "null" or a real null is stored as unset, and every other
    value (the text "none" included) is stored as it is.  This holds of every
    slot value of every observation: after one observation, and after any
    sequence of observations, each slot holds the normalized value of the
    last write to it (the writes of an observation are the entries of its
    nested dictionaries, in order), and a slot that was not written holds
    what it held before.  No tracker built from observations ever holds the
    text "null" as a slot value. *)
Theorem null_is_normalized_at_merge :
  (forall val, val = VStr "null" \/ val = VNone -> normalize val = VNone)
  /\ (forall val, val <> VStr "null" -> val <> VNone -> normalize val = val)
  /\ (forall (t : StateTracker) (nlu_input : observation) k,
         get k (slots (fst (update t nlu_input)))
         = match get k (rev (writes (fields nlu_input))) with
           | Some val => Some (normalize val)
           | None => get k (slots t)
           end)
  /\ (forall (t : StateTracker) (obs : list observation) k,
         get k (slots (merge_all t obs))
         = match get k (rev (all_writes obs)) with
           | Some val => Some (normalize val)
           | None => get k (slots t)
           end)
  /\ (forall t label field k val,
         get k (slots (fst (update t (mkObs label [(field, VDict [(k, val)])]))))
         = Some (normalize val))
  /\ (forall intent obs k,
         get k (slots (merge_all (new intent) obs)) <> Some (VStr "null")).
Proof.
  split; [|split; [|split; [|split; [|split]]]].
  - intros val [-> | ->]; reflexivity.
  - intros val H1 H2.
    destruct (normalize_cases val) as [[_ [E|E]]|[E _]]; congruence.
  - intros t nlu_input k. simpl. rewrite update_slots_writes. apply get_writes.
  - intros t obs k. apply get_merge_all.
  - intros t label field k val. simpl. apply get_set_same.
  - intros intent obs k. rewrite merge_all_slots.
    apply writes_never_store_null. simpl.
    intros k0 H. apply values_initialize in H. discriminate.
Qed.

(** C5, as stated, fails: merging an observation that names a slot outside
    the static table adds that key. *)
Lemma tracker_keys_grow :
  keys (slots (merge_all (new "get_beer_info") [obs_extra_slot]))
  = ["name"; "brewery"; "style"]
  /\ static_slots "get_beer_info" = ["name"; "brewery"].
Proof. split; reflexivity. Qed.

(** C5 (amended).  After any sequence of observations has been merged into a
    new tracker, its keys are the statically defined slots of its intent
    together with the slot names the observations wrote; no key is ever
    removed, and when the observations write static slots only, the keys are
    exactly the static slots, in the table's order. *)
Theorem tracker_keys_static_and_written :
  forall (intent : string) (obs : list observation),
    (forall k,
        In k (keys (slots (merge_all (new intent) obs)))
        <-> In k (static_slots intent) \/ In k (map fst (all_writes obs)))
    /\ ((forall k, In k (map fst (all_writes obs)) -> In k (static_slots intent))
        -> keys (slots (merge_all (new intent) obs)) = static_slots intent).
Proof.
  intros intent obs. split.
  - intros k. apply in_keys_merge_all.
  - rewrite merge_all_slots. simpl.
    intros H. rewrite keys_writes_present; rewrite keys_initialize; auto.
Qed.

(** C9.  For every tracker (a new one for any intent, after any observations
    have been merged), [serialize] yields the document
    [{"intent": intent, "slots": safe}] where [safe] has the tracker's keys in
    order, so every statically defined slot of the intent is listed; an unset
    slot is rendered as the text "null", a set slot as its value, and no entry
    is left null. *)
Theorem serialize_lists_every_static_slot :
  forall (intent : string) (obs : list observation),
  exists safe,
    serialize (merge_all (new intent) obs)
    = VDict [("intent", VStr intent); ("slots", VDict safe)]
    /\ keys safe = keys (slots (merge_all (new intent) obs))
    /\ (forall k, In k (static_slots intent) -> exists v, get k safe = Some v)
    /\ (forall k, get k (slots (merge_all (new intent) obs)) = Some VNone ->
                  get k safe = Some (VStr "null"))
    /\ (forall k v, get k (slots (merge_all (new intent) obs)) = Some v ->
                    v <> VNone -> get k safe = Some v)
    /\ (forall k, get k safe <> Some VNone).
Proof.
  intros intent obs.
  set (t := merge_all (new intent) obs).
  set (render := fun v : value => if is_none v then VStr "null" else v).
  exists (map (fun kv => (fst kv, render (snd kv))) (slots t)).
  assert (Hkeys : keys (map (fun kv => (fst kv, render (snd kv))) (slots t))
                  = keys (slots t)).
  { unfold keys. rewrite map_map. reflexivity. }
  repeat split.
  - unfold serialize. subst t. rewrite merge_all_intent. reflexivity.
  - exact Hkeys.
  - intros k Hk. apply get_some_in_keys. rewrite Hkeys.
    subst t. apply in_keys_merge_all. now left.
  - intros k Hk. rewrite get_map, Hk. reflexivity.
  - intros k v Hk Hv. rewrite get_map, Hk. simpl. unfold render.
    destruct v; simpl; congruence.
  - intros k. rewrite get_map. destruct (get k (slots t)) as [v|]; simpl.
    + unfold render. destruct v; simpl; congruence.
    + congruence.
Qed.

End TrackerSpec.

(** ** Validation of proposals *)

Module ValidityFacts.

Import PyDict Tracker DecisionEngine.

Definition action_of (nba : PyDict.t value) : value := get_or_none "action" nba.
Definition parameter_of (nba : PyDict.t value) : value := get_or_none "parameter" nba.

Lemma is_str_eq (v : value) (s : string) : is_str v s = true <-> v = VStr s.
Proof.
  destruct v; simpl; split; try congruence.
  - intros H. apply String.eqb_eq in H. congruence.
  - intros [= ->]. apply String.eqb_refl.
Qed.

Lemma valid_action (nba : PyDict.t value) (state : StateTracker) :
  _check_response_validity nba state = Ret true ->
  action_of nba = VStr "request_info" \/ action_of nba = VStr "confirmation".
Proof.
  unfold _check_response_validity, action_of.
  destruct (is_str (get_or_none "action" nba) "request_info") eqn:E1.
  - intros _. left. now apply is_str_eq.
  - destruct (is_str (get_or_none "action" nba) "confirmation") eqn:E2.
    + intros _. right. now apply is_str_eq.
    + simpl. discriminate.
Qed.


(** Whatever the intent, a confirmation passes only when every slot is
    set. *)
Lemma valid_confirmation_full (nba : PyDict.t value) (state : StateTracker) :
  _check_response_validity nba state = Ret true ->
  action_of nba = VStr "confirmation" ->
  full_slots state = true.
Proof.
  unfold action_of. intros H Ha. revert H.
  unfold _check_response_validity. rewrite Ha. simpl.
  destruct (negb (truthy (get_or_none "parameter" nba))
            || null_sentinel (get_or_none "parameter" nba)); [discriminate|].
  simpl. destruct (full_slots state); simpl; [auto | discriminate].
Qed.

Lemma confirmation_rejected_when_unset (nba : PyDict.t value) (state : StateTracker) :
  action_of nba = VStr "confirmation" ->
  full_slots state = false ->
  _check_response_validity nba state = Ret false.
Proof.
  unfold action_of. intros Ha Hf.
  unfold _check_response_validity. rewrite Ha, Hf. simpl.
  destruct (negb (truthy (get_or_none "parameter" nba))
            || null_sentinel (get_or_none "parameter" nba)); reflexivity.
Qed.

(** For [get_beer_info] a request passes only for the slot "name". *)
Lemma valid_request_beer_info (nba : PyDict.t value) (state : StateTracker) :
  _check_response_validity nba state = Ret true ->
  get_intent state = "get_beer_info" ->
  action_of nba = VStr "request_info" ->
  parameter_of nba = VStr "name".
Proof.
  unfold action_of, parameter_of. intros H Hi Ha. revert H.
  unfold _check_response_validity. rewrite Ha, Hi. simpl.
  destruct (negb (truthy (get_or_none "parameter" nba))
            || null_sentinel (get_or_none "parameter" nba)); [discriminate|].
  destruct (get_value (get_or_none "parameter" nba) (slots state)) as [v| |];
    simpl; try discriminate.
  destruct (negb (is_none v)); [discriminate|].
  destruct (full_slots state); simpl; [discriminate|].
  rewrite andb_false_r, orb_false_r, andb_true_r.
  intros [= H]. now apply is_str_eq.
Qed.

(** A slot that is unset makes the tracker incomplete. *)
Lemma unset_slot_not_full (state : StateTracker) (k : string) :
  get k (slots state) = Some VNone -> full_slots state = false.
Proof.
  unfold full_slots, values. induction (slots state) as [|[k' v] d IH]; simpl.
  - discriminate.
  - destruct (k' =? k).
    + intros [= ->]. reflexivity.
    + intros H. rewrite (IH H). apply andb_false_r.
Qed.

(** The retry loop returns only a proposal that validation accepted. *)
Lemma await_needs_acceptance (state : StateTracker) (script : list reply) :
  (forall nba, _check_response_validity nba state <> Ret true) ->
  forall r, await_proposal false state script <> Ret r.
Proof.
  intros Hno. induction script as [|[|doc] script IH]; intros r; simpl.
  - discriminate.
  - apply IH.
  - destruct doc; try discriminate.
    destruct (_check_response_validity d state) as [[|]| |] eqn:E; simpl;
      try discriminate.
    + exfalso. now apply (Hno d).
    + apply IH.
Qed.

End ValidityFacts.

Module ValiditySpec.

Import PyDict Tracker DecisionEngine ValidityFacts.

(** The tracker of [get_beer_info] after the user has named the beer and not
    the brewery. *)
Definition beer_info_named : StateTracker :=
  merge_all (new "get_beer_info")
            [mkObs "get_beer_info" [("slots", VDict [("name", VStr "Guinness")])]].

Definition confirm_beer_info : PyDict.t value :=
  [("action", VStr "confirmation"); ("parameter", VStr "get_beer_info")].

(** C1: the code at the failing input, and what it does in general.  With
    "name" set and "brewery" unset, the confirmation of [get_beer_info] is
    rejected: the completeness gate of lines 154-158 returns before the
    override of lines 160-162 is reached.  In general a confirmation is
    rejected for every tracker with an unset slot, [get_beer_info] included;
    and for [get_beer_info] a request is accepted only for the slot "name". *)
Theorem get_beer_info_confirmation_rejected :
  slots beer_info_named = [("name", VStr "Guinness"); ("brewery", VNone)]
  /\ _check_response_validity confirm_beer_info beer_info_named = Ret false
  /\ (forall nba state,
         action_of nba = VStr "confirmation" ->
         full_slots state = false ->
         _check_response_validity nba state = Ret false)
  /\ (forall nba state,
         _check_response_validity nba state = Ret true ->
         get_intent state = "get_beer_info" ->
         action_of nba = VStr "request_info" ->
         parameter_of nba = VStr "name").
Proof.
  split; [reflexivity|]. split; [reflexivity|]. split.
  - apply confirmation_rejected_when_unset.
  - apply valid_request_beer_info.
Qed.

(** X2.  For every [get_beer_info] tracker with "name" set and "brewery"
    unset no proposal at all is accepted: a request for "name" asks for a
    slot that is set, a request for anything else fails the override, a
    confirmation fails the completeness gate.  So in interactive mode the
    retry loop for such a tracker never hands over a proposal, whatever the
    collaborator answers (it goes on asking, or raises), and a turn whose
    updated registry holds such a tracker does not return. *)
Theorem beer_info_named_accepts_nothing :
  forall state : StateTracker,
    get_intent state = "get_beer_info" ->
    get_or_none "name" (slots state) <> VNone ->
    get "brewery" (slots state) = Some VNone ->
    (forall nba, _check_response_validity nba state <> Ret true)
    /\ (forall script r, await_proposal false state script <> Ret r)
    /\ (forall (RT : Runtime) (fuel : nat) (dm : DM) (answers : list reply)
               (nlu_inputs : list observation) r,
           eval_mode dm = false ->
           is_terminate nlu_inputs = false ->
           In state (_update_states (state_stack dm) nlu_inputs) ->
           call fuel dm answers nlu_inputs <> Ret r).
Proof.
  intros state Hi Hname Hbrewery.
  assert (Hno : forall nba, _check_response_validity nba state <> Ret true).
  { intros nba H.
    destruct (valid_action _ _ H) as [Ha|Ha].
    - pose proof (valid_request_beer_info _ _ H Hi Ha) as Hp.
      unfold action_of, parameter_of in Ha, Hp.
      unfold _check_response_validity in H. rewrite Ha, Hp in H.
      simpl in H.
      destruct (get_or_none "name" (slots state)); simpl in H;
        try discriminate. now apply Hname.
    - pose proof (valid_confirmation_full _ _ H Ha) as Hf.
      rewrite (unset_slot_not_full _ _ Hbrewery) in Hf. discriminate. }
  split; [exact Hno|]. split.
  - intros script. now apply await_needs_acceptance.
  - intros RT fuel dm answers nlu_inputs r Hmode Hterm Hin.
    unfold call. rewrite Hmode, Hterm.
    set (stack := _update_states (state_stack dm) nlu_inputs) in *.
    assert (Hcycles : forall todo idx st st',
               In state todo -> cycles fuel false stack idx todo st <> Ret st').
    { induction todo as [|s todo IH]; intros idx st st' Hd; [destruct Hd|].
      destruct Hd as [<-|Hd]; simpl; unfold bind.
      - unfold cycle, bind.
        destruct (await_proposal false s (script st)) as [pr| |] eqn:E;
          try discriminate.
        exfalso. revert E. now apply await_needs_acceptance.
      - destruct (cycle fuel false stack idx s st); try discriminate.
        now apply IH. }
    unfold bind.
    destruct (cycles fuel false stack 0 stack _) as [st| |] eqn:E;
      try discriminate.
    exfalso. revert E. now apply Hcycles.
Qed.

(** The beer named "Guinness", no brewery: nothing is accepted. *)
Lemma beer_info_named_accepts_nothing_witness :
  (forall nba, _check_response_validity nba beer_info_named <> Ret true)
  /\ (forall script r, await_proposal false beer_info_named script <> Ret r).
Proof.
  destruct (@beer_info_named_accepts_nothing beer_info_named eq_refl)
    as (H1 & H2 & _); [discriminate|reflexivity|].
  split; assumption.
Defined.

End ValiditySpec.

(** ** The decision cycle *)

Module EngineFacts.

Import PyDict Tracker DecisionEngine ValidityFacts.

Section WithRuntime.

Context {RT : Runtime}.
Variable fuel : nat.

Lemma subscript_get (k : string) (d : PyDict.t value) (v : value) :
  subscript k d = Ret v -> get k d = Some v /\ get_or_none k d = v.
Proof.
  unfold subscript, get_or_none. destruct (get k d); intros [= ->]; auto.
Qed.

(** In interactive mode the retry loop hands over only a proposal that is
    one of the collaborator's answers and that validation accepted. *)
Lemma await_interactive (state : StateTracker) (answers : list reply) :
  forall nba rest,
    await_proposal false state answers = Ret (nba, rest) ->
    _check_response_validity nba state = Ret true
    /\ In (Parsed (VDict nba)) answers
    /\ (forall r, In r rest -> In r answers).
Proof.
  induction answers as [|r answers IH]; intros nba rest; simpl; [discriminate|].
  destruct r as [|doc].
  - intros H. destruct (IH _ _ H) as (H1 & H2 & H3). auto.
  - destruct doc; try discriminate.
    destruct (_check_response_validity d state) as [[|]| |] eqn:E; simpl;
      try discriminate.
    + intros [= -> ->]. auto.
    + intros H. destruct (IH _ _ H) as (H1 & H2 & H3). auto.
Qed.

(** In evaluation mode the first parseable object is handed over
    unchecked. *)
Lemma await_eval_first (state : StateTracker) (nba : PyDict.t value)
      (rest : list reply) :
  await_proposal true state (Parsed (VDict nba) :: rest) = Ret (nba, rest).
Proof. reflexivity. Qed.






(** The positions [keep_from] keeps. *)
Lemma in_keep_from (stack : list StateTracker) (remove : list nat) :
  forall i s,
    In s (keep_from i stack remove)
    <-> exists n, nth_error stack n = Some s /\ ~ In (i + n) remove.
Proof.
  induction stack as [|s0 stack IH]; intros i s; simpl.
  - split; [tauto|]. intros [[|n] [H _]]; discriminate.
  - assert (Hex : existsb (Nat.eqb i) remove = true <-> In i remove).
    { rewrite existsb_exists. split.
      - intros [x [Hx He]]. apply Nat.eqb_eq in He. now subst.
      - intros H. exists i. split; auto. apply Nat.eqb_refl. }
    destruct (existsb (Nat.eqb i) remove) eqn:E.
    + rewrite IH. split.
      * intros [n [Hn Hr]]. exists (S n). split; auto.
        now rewrite Nat.add_succ_r.
      * intros [[|n] [Hn Hr]].
        -- exfalso. apply Hr. rewrite Nat.add_0_r. now apply Hex.
        -- exists n. split; auto. now rewrite Nat.add_succ_r in Hr.
    + simpl. rewrite IH. split.
      * intros [<-|[n [Hn Hr]]].
        -- exists 0. split; auto. rewrite Nat.add_0_r.
           intros H. apply Hex in H. discriminate.
        -- exists (S n). split; auto. now rewrite Nat.add_succ_r.
      * intros [[|n] [Hn Hr]].
        -- left. simpl in Hn. congruence.
        -- right. exists n. split; auto. now rewrite Nat.add_succ_r in Hr.
Qed.

End WithRuntime.

End EngineFacts.

Module EngineSpec.

Import PyDict Tracker DecisionEngine ValidityFacts EngineFacts.

(** *** Concrete turns *)

Definition empty_catalog : Catalog.BeerDataset := Catalog.mkDataset [] 0 [].

Definition propose (action parameter : string) : reply :=
  Parsed (VDict [("action", VStr action); ("parameter", VStr parameter)]).


(** Interactive mode, a brewery no row of the (empty) catalog matches. *)
Definition dm_live : DM := mkDM false empty_catalog [].

(** Interactive mode, an out-of-context remark, confirmed. *)
Definition obs_chat : list observation := [mkObs "out_of_context" []].
Definition answers_confirm_chat : list reply :=
  [propose "confirmation" "out_of_context"].




(** C6, as stated, fails on the action tag: a confirmation whose query
    succeeds is emitted under the tag of the proposal, "confirmation"; no
    action tagged "confirmation-result" is ever built.  The tracker is
    removed and the result is carried as data, as the claim says. *)
Lemma confirmation_keeps_its_tag :
  exists d,
    call (RT := Demo.runtime) 0 dm_live answers_confirm_chat obs_chat
    = Ret ([Action d], mkDM false empty_catalog [], [])
    /\ action d = VStr "confirmation"
    /\ action d <> VStr "confirmation-result"
    /\ parameter d = VStr "out_of_context"
    /\ data d = DText "Intent out_of_context".
Proof.
  exists (mkDecision (VStr "confirmation") (VStr "out_of_context")
                     (DText "Intent out_of_context")).
  split; [vm_compute; reflexivity|].
  repeat split. discriminate.
Qed.

End EngineSpec.

(** ** rapidfuzz.process.extract *)

Module ExtractFacts.

Import Catalog.

(** Scores at least [u]. *)
Definition above (u : Q) (h : hit) : bool := Qle_bool u (hit_score h).

(** Every hit scores at least as much as the hits after it. *)
Fixpoint sorted (l : list hit) : Prop :=
  match l with
  | [] => True
  | h :: r => (forall x, In x r -> (hit_score x <= hit_score h)%Q) /\ sorted r
  end.

Lemma Qle_bool_false (x y : Q) : Qle_bool x y = false -> (y <= x)%Q.
Proof.
  intros H. apply Qlt_le_weak, Qnot_le_lt. intros Hle.
  apply Qle_bool_iff in Hle. congruence.
Qed.

Lemma in_insert_hit (h : hit) (l : list hit) (x : hit) :
  In x (insert_hit h l) <-> x = h \/ In x l.
Proof.
  induction l as [|h' r IH]; simpl.
  - intuition.
  - destruct (Qle_bool (hit_score h') (hit_score h)); simpl.
    + intuition.
    + rewrite IH. intuition.
Qed.

Lemma in_sort_hits (l : list hit) (x : hit) : In x (sort_hits l) <-> In x l.
Proof.
  induction l as [|h r IH]; simpl; [tauto|].
  rewrite in_insert_hit, IH. intuition.
Qed.

Lemma insert_sorted (h : hit) (l : list hit) : sorted l -> sorted (insert_hit h l).
Proof.
  induction l as [|h' r IH]; simpl.
  - intros _. split; [intros x []|exact I].
  - intros [Hall Hr].
    destruct (Qle_bool (hit_score h') (hit_score h)) eqn:E; simpl.
    + apply Qle_bool_iff in E. split; [|split; auto].
      intros x [<-|Hx]; auto.
      apply Qle_trans with (hit_score h'); auto.
    + apply Qle_bool_false in E. split; auto.
      intros x Hx. apply in_insert_hit in Hx. destruct Hx as [->|Hx]; auto.
Qed.

Lemma sort_sorted (l : list hit) : sorted (sort_hits l).
Proof.
  induction l as [|h r IH]; simpl; [exact I|].
  now apply insert_sorted.
Qed.

Lemma sort_head_max (l : list hit) (h : hit) (r : list hit) :
  sort_hits l = h :: r ->
  forall x, In x l -> (hit_score x <= hit_score h)%Q.
Proof.
  intros E x Hx. apply in_sort_hits in Hx.
  pose proof (sort_sorted l) as Hs. rewrite E in Hs, Hx.
  destruct Hs as [Hall _]. destruct Hx as [<-|Hx]; auto.
  apply Qle_refl.
Qed.

Lemma above_upward (u : Q) (h h' : hit) :
  above u h = true -> (hit_score h <= hit_score h')%Q -> above u h' = true.
Proof.
  unfold above. intros H Hle. apply Qle_bool_iff.
  apply Qle_bool_iff in H. now apply Qle_trans with (hit_score h).
Qed.

Lemma filter_insert (u : Q) (h : hit) (l : list hit) :
  sorted l ->
  filter (above u) (insert_hit h l)
  = if above u h then insert_hit h (filter (above u) l) else filter (above u) l.
Proof.
  induction l as [|h' r IH]; simpl.
  - intros _. destruct (above u h); reflexivity.
  - intros [Hall Hr].
    assert (Hnone : above u h' = false -> filter (above u) r = []).
    { intros Eh'. clear IH. induction r as [|x r IHr]; simpl; auto.
      destruct (above u x) eqn:Ex.
      - rewrite (above_upward u x h' Ex) in Eh'; [discriminate|].
        apply Hall. now left.
      - apply IHr.
        + intros y Hy. apply Hall. now right.
        + now destruct Hr. }
    destruct (Qle_bool (hit_score h') (hit_score h)) eqn:E; simpl.
    + destruct (above u h) eqn:Eh.
      * destruct (above u h') eqn:Eh'.
        -- simpl. now rewrite E.
        -- rewrite (Hnone eq_refl). reflexivity.
      * destruct (above u h') eqn:Eh'; [|reflexivity].
        rewrite (above_upward u h' h Eh') in Eh; [discriminate|].
        now apply Qle_bool_iff.
    + rewrite (IH Hr). pose proof (Qle_bool_false _ _ E) as Hle.
      destruct (above u h) eqn:Eh.
      * rewrite (above_upward u h h' Eh Hle). simpl. now rewrite E.
      * reflexivity.
Qed.

Lemma filter_sort (u : Q) (l : list hit) :
  filter (above u) (sort_hits l) = sort_hits (filter (above u) l).
Proof.
  induction l as [|h r IH]; simpl; auto.
  rewrite filter_insert by apply sort_sorted.
  destruct (above u h); simpl; now rewrite IH.
Qed.

(** In a sorted list the hits above [u] form a prefix. *)
Lemma sorted_prefix (u : Q) (l : list hit) :
  sorted l -> exists rest, l = filter (above u) l ++ rest.
Proof.
  induction l as [|h r IH]; simpl.
  - exists []. reflexivity.
  - intros [Hall Hr]. destruct (above u h) eqn:Eh.
    + destruct (IH Hr) as [rest E]. exists rest. simpl. now f_equal.
    + exists (h :: r).
      assert (Hnone : filter (above u) r = []).
      { clear IH. induction r as [|x r IHr]; simpl; auto.
        destruct (above u x) eqn:Ex.
        - rewrite (above_upward u x h Ex) in Eh; [discriminate|].
          apply Hall. now left.
        - apply IHr.
          + intros y Hy. apply Hall. now right.
          + now destruct Hr. }
      rewrite Hnone. reflexivity.
Qed.

Section Scoring.

Variable scorer : string -> string -> Q.
Variable query : string.

Lemma score_all_filter (t u : Q) (choices : list (option string)) :
  (t <= u)%Q ->
  forall i,
    score_all scorer query u i choices
    = filter (above u) (score_all scorer query t i choices).
Proof.
  intros Htu. induction choices as [|[c|] r IH]; intros i; simpl; auto.
  destruct (Qle_bool u (scorer query c)) eqn:Eu.
  - assert (Et : Qle_bool t (scorer query c) = true).
    { apply Qle_bool_iff. apply Qle_trans with u; auto.
      now apply Qle_bool_iff. }
    rewrite Et. cbn [filter].
    change (above u (c, scorer query c, i)) with (Qle_bool u (scorer query c)).
    rewrite Eu. now rewrite IH.
  - destruct (Qle_bool t (scorer query c)); cbn [filter].
    + change (above u (c, scorer query c, i)) with (Qle_bool u (scorer query c)).
      rewrite Eu. apply IH.
    + apply IH.
Qed.

(** Raising the cutoff only removes hits, whatever the limit. *)
Lemma extract_mono (choices : list (option string)) (t u : Q) (limit : nat) :
  (t <= u)%Q ->
  forall h, In h (extract scorer query choices u limit) ->
            In h (extract scorer query choices t limit).
Proof.
  intros Htu h. unfold extract.
  rewrite (score_all_filter choices Htu), <- filter_sort.
  destruct (sorted_prefix u _ (sort_sorted (score_all scorer query t 0 choices)))
    as [rest E].
  set (L := sort_hits (score_all scorer query t 0 choices)) in *.
  intros Hin. rewrite E, firstn_app. apply in_or_app. now left.
Qed.

Lemma in_score_all (cutoff : Q) (choices : list (option string)) (h : hit) :
  forall i,
    In h (score_all scorer query cutoff i choices) ->
    In (Some (hit_choice h)) choices
    /\ hit_score h = scorer query (hit_choice h)
    /\ (cutoff <= hit_score h)%Q.
Proof.
  induction choices as [|[c|] r IH]; intros i; simpl; [tauto| |].
  - destruct (Qle_bool cutoff (scorer query c)) eqn:E.
    + intros [<-|H].
      * simpl. repeat split; auto. now apply Qle_bool_iff.
      * destruct (IH _ H) as (H1 & H2 & H3). auto.
    + intros H. destruct (IH _ H) as (H1 & H2 & H3). auto.
  - intros H. destruct (IH _ H) as (H1 & H2 & H3). auto.
Qed.

Lemma score_all_complete (cutoff : Q) (choices : list (option string)) (c : string) :
  In (Some c) choices ->
  (cutoff <= scorer query c)%Q ->
  forall i, exists h,
    In h (score_all scorer query cutoff i choices)
    /\ hit_choice h = c /\ hit_score h = scorer query c.
Proof.
  intros Hin Hle.
  induction choices as [|[c'|] r IH]; intros i; simpl in *; [tauto| |].
  - destruct Hin as [[= ->]|Hin].
    + apply Qle_bool_iff in Hle. rewrite Hle.
      exists (c, scorer query c, i). simpl. auto.
    + destruct (IH Hin (S i)) as (h & H1 & H2).
      exists h. destruct (Qle_bool cutoff (scorer query c')); simpl; auto.
  - destruct Hin as [|Hin]; [discriminate|]. apply (IH Hin).
Qed.

End Scoring.

End ExtractFacts.

(** ** The adaptive loop of the name and brewery filters *)

Module AdaptiveFacts.

Import Catalog ExtractFacts.

Lemma mem_str_in (s : string) (l : list string) : mem_str s l = true <-> In s l.
Proof.
  unfold mem_str. rewrite existsb_exists. split.
  - intros [x [Hx E]]. apply String.eqb_eq in E. now subst.
  - intros H. exists s. split; auto. apply String.eqb_refl.
Qed.

Lemma in_firstn {A} (n : nat) :
  forall (l : list A) (x : A), In x (firstn n l) -> In x l.
Proof.
  induction n as [|n IH]; intros [|a l] x; simpl; try tauto.
  intros [H|H]; auto.
Qed.

Lemma filter_length_mono {A} (f g : A -> bool) (l : list A) :
  (forall x, f x = true -> g x = true) ->
  length (filter f l) <= length (filter g l).
Proof.
  intros H. induction l as [|x l IH]; simpl; auto.
  destruct (f x) eqn:E.
  - rewrite (H x E). simpl. lia.
  - destruct (g x); simpl; lia.
Qed.

(** What the loop may return: zero rows at threshold 30, one to ten rows at
    a threshold between 30 and 100, or more than ten rows at threshold 100. *)
Definition settled (threshold : Z) (rows : frame) : Prop :=
  (rows = [] /\ threshold = 30%Z)
  \/ (1 <= length rows <= 10 /\ (30 <= threshold <= 100)%Z)
  \/ (10 < length rows /\ threshold = 100%Z).

Section Loop.

Context {RT : Runtime}.
Variable key : beer -> option string.
Variable query : string.
Variable df : frame.
Variable limit : nat.

Local Abbreviation rows_at := (result_at key query df limit).
Local Abbreviation loop := (adaptive_loop key query df limit).

(** A higher threshold never matches more rows. *)
Lemma result_at_mono (t u : Z) :
  (t <= u)%Z -> length (rows_at u) <= length (rows_at t).
Proof.
  intros Htu. unfold result_at. apply filter_length_mono.
  intros r. unfold isin. destruct (key r) as [s|]; auto.
  rewrite !mem_str_in, !in_map_iff.
  intros [h [Hc Hh]]. exists h. split; auto.
  apply extract_mono with (u := inject_Z u); auto.
  now rewrite <- Zle_Qle.
Qed.

(** The thresholds the loop can be at: a multiple of 5 not below 30 on the
    way down, or any threshold once some threshold from 30 up has matched
    more than ten rows. *)
Definition reachable (t : Z) : Prop :=
  (26 <= t <= 100)%Z
  /\ ((exists k, t = (5 * k)%Z /\ (30 <= t)%Z)
      \/ (exists u, (30 <= u)%Z /\ 10 < length (rows_at u))).

Lemma reachable_start : reachable 90.
Proof. split; [lia|]. left. exists 18%Z. lia. Qed.

Lemma is_empty_nil {A} (l : list A) : is_empty l = true <-> l = [].
Proof. destruct l; simpl; split; congruence. Qed.

Lemma loop_settles (fuel : nat) :
  forall t t' rows,
    reachable t ->
    loop fuel t = Ret (t', rows) ->
    rows = rows_at t' /\ settled t' rows.
Proof.
  induction fuel as [|fuel IH]; intros t t' rows Hr; simpl; [discriminate|].
  destruct Hr as [Hrange Hwhy].
  destruct (is_empty (rows_at t) && (30 <? t)%Z) eqn:E1.
  - (* lower by 5 *)
    apply andb_prop in E1. destruct E1 as [_ E1]. apply Z.ltb_lt in E1.
    apply IH. split; [lia|].
    destruct Hwhy as [[k [Hk Hge]]|Hu]; [left|right; auto].
    exists (k - 1)%Z. lia.
  - destruct ((10 <? length (rows_at t))%nat && (t <? 100)%Z) eqn:E2.
    + (* raise by 1 *)
      apply andb_prop in E2. destruct E2 as [E2 E3].
      apply Nat.ltb_lt in E2. apply Z.ltb_lt in E3.
      apply IH. split; [lia|]. right.
      destruct (Z_lt_le_dec t 30) as [Hlt|Hge].
      * destruct Hwhy as [[k [Hk Hge]]|Hu]; [lia|auto].
      * exists t. auto.
    + (* break *)
      intros [= <- <-]. split; [reflexivity|].
      assert (H30 : (30 <= t)%Z).
      { destruct Hwhy as [[k [Hk Hge]]|[u [Hu Hbig]]]; auto.
        destruct (Z_lt_le_dec t 30) as [Hlt|Hge]; auto.
        exfalso.
        assert (Hlen : 10 < length (rows_at t)).
        { eapply Nat.lt_le_trans; [exact Hbig|]. apply result_at_mono. lia. }
        apply Nat.ltb_lt in Hlen. rewrite Hlen in E2. simpl in E2.
        apply Z.ltb_ge in E2. lia. }
      unfold settled.
      destruct (rows_at t) as [|r0 rs] eqn:Erows.
      * left. simpl in E1. apply Z.ltb_ge in E1. split; auto. lia.
      * right. simpl in E2.
        destruct (10 <? S (length rs))%nat eqn:Ebig; simpl in E2.
        -- apply Nat.ltb_lt in Ebig. apply Z.ltb_ge in E2.
           right. simpl. split; lia.
        -- apply Nat.ltb_ge in Ebig. left. simpl. split; lia.
Qed.

(** *** When the loop returns *)

(** Raising the threshold by one from more than ten rows never lands on zero
    rows. *)
Definition no_gap : Prop :=
  forall t, (30 <= t < 100)%Z -> 10 < length (rows_at t) -> rows_at (t + 1) <> [].

Lemma ascend (Hgap : no_gap) (n : nat) :
  forall t,
    (30 <= t <= 100)%Z ->
    rows_at t <> [] ->
    Z.to_nat (100 - t) < n ->
    exists out, loop n t = Ret out.
Proof.
  induction n as [|n IH]; intros t Ht Hne Hn; [lia|]. simpl.
  destruct (rows_at t) as [|r0 rs] eqn:Erows; [congruence|]. simpl.
  destruct ((10 <? S (length rs))%nat && (t <? 100)%Z) eqn:E2.
  - apply andb_prop in E2. destruct E2 as [E2 E3].
    apply Nat.ltb_lt in E2. apply Z.ltb_lt in E3.
    apply IH; [lia| |lia].
    apply Hgap; [lia|]. rewrite Erows. exact E2.
  - eexists. reflexivity.
Qed.

Lemma loop_lower (n : nat) (t : Z) :
  rows_at t = [] -> (30 < t)%Z -> loop (S n) t = loop n (t - 5).
Proof.
  intros E H. simpl. rewrite E. simpl.
  apply Z.ltb_lt in H. now rewrite H.
Qed.

Lemma loop_floor (n : nat) (t : Z) :
  rows_at t = [] -> (t <= 30)%Z -> loop (S n) t = Ret (t, []).
Proof.
  intros E H. simpl. rewrite E. simpl.
  apply Z.ltb_ge in H. now rewrite H.
Qed.

Lemma descend (Hgap : no_gap) (k : nat) :
  forall n t,
    t = (30 + 5 * Z.of_nat k)%Z ->
    k <= 12 ->
    k + 72 <= n ->
    exists out, loop n t = Ret out.
Proof.
  induction k as [|k IH]; intros n t Ht Hk Hn.
  - destruct n as [|n]; [lia|].
    destruct (rows_at t) as [|r0 rs] eqn:Erows.
    + rewrite loop_floor by (auto; lia). eexists. reflexivity.
    + apply (ascend Hgap); [lia| |lia]. rewrite Erows. discriminate.
  - destruct n as [|n]; [lia|].
    destruct (rows_at t) as [|r0 rs] eqn:Erows.
    + rewrite loop_lower by (auto; lia). apply IH; lia.
    + apply (ascend Hgap); [lia| |lia]. rewrite Erows. discriminate.
Qed.

Lemma loop_returns (Hgap : no_gap) (fuel : nat) :
  84 <= fuel -> exists out, loop fuel 90 = Ret out.
Proof.
  intros H. apply (descend Hgap (k := 12)); lia.
Qed.

End Loop.

(** *** When it does not *)

Section Oscillation.

Context {RT : Runtime}.
Variable key : beer -> option string.
Variable query : string.
Variable limit : nat.

(** The column holds one text [b] in every row. *)
Definition uniform (b : string) (df : frame) : Prop :=
  forall r, In r df -> key r = Some b.

Lemma uniform_matched (b : string) (t : Z) (df : frame) :
  uniform b df -> df <> [] -> 1 <= limit ->
  In b (map hit_choice (extract fuzz_ratio query (map key df) (inject_Z t) limit))
  <-> Qle_bool (inject_Z t) (fuzz_ratio query b) = true.
Proof.
  intros Hu Hne Hl. unfold extract. split.
  - intros H. apply in_map_iff in H. destruct H as [h [<- Hh]].
    apply in_firstn in Hh.
    apply (proj1 (in_sort_hits _ _)) in Hh. apply in_score_all in Hh.
    destruct Hh as (_ & Hs & Hc). rewrite <- Hs. now apply Qle_bool_iff.
  - intros H. destruct df as [|r0 rs]; [congruence|].
    destruct (@score_all_complete fuzz_ratio query (inject_Z t)
                                  (map key (r0 :: rs)) b) with (i := 0)
      as (h & Hin & Hc & Hs).
    + simpl. left. apply Hu. now left.
    + now apply Qle_bool_iff.
    + apply (proj2 (in_sort_hits _ _)) in Hin.
      destruct (sort_hits (score_all fuzz_ratio query (inject_Z t) 0
                                     (map key (r0 :: rs)))) as [|h0 hs] eqn:Es;
        [destruct Hin|].
      destruct limit as [|l]; [lia|]. simpl. left.
      assert (H0 : In h0 (score_all fuzz_ratio query (inject_Z t) 0
                                    (map key (r0 :: rs)))).
      { apply (proj1 (in_sort_hits _ _)). rewrite Es. now left. }
      apply in_score_all in H0. destruct H0 as (H0 & _).
      apply in_map_iff in H0. destruct H0 as [r [Hr Hin']].
      rewrite (Hu r Hin') in Hr. congruence.
Qed.

Lemma filter_none {A} (f : A -> bool) (l : list A) :
  (forall x, In x l -> f x = false) -> filter f l = [].
Proof.
  induction l as [|x l IH]; simpl; auto.
  intros H. rewrite (H x) by now left. apply IH. intros y Hy. apply H. now right.
Qed.

Lemma uniform_rows_at (b : string) (t : Z) (df : frame) :
  uniform b df -> df <> [] -> 1 <= limit ->
  result_at key query df limit t
  = if Qle_bool (inject_Z t) (fuzz_ratio query b) then df else [].
Proof.
  intros Hu Hne Hl. unfold result_at.
  pose proof (uniform_matched t Hu Hne Hl) as Hm.
  destruct (Qle_bool (inject_Z t) (fuzz_ratio query b)) eqn:E.
  - apply forallb_filter_id. apply forallb_forall. intros r Hr.
    rewrite (Hu r Hr). simpl. apply mem_str_in. now apply Hm.
  - apply filter_none. intros r Hr. rewrite (Hu r Hr). simpl.
    match goal with |- ?m = false => destruct m eqn:Em end; auto.
    apply mem_str_in, Hm in Em. discriminate.
Qed.

(** More than ten rows with one and the same text, scoring from 30 up but
    below 100: the loop raises the threshold until nothing matches, lowers it
    by 5, and starts over, for ever. *)
Lemma loop_oscillates (b : string) (df : frame) :
  uniform b df -> 10 < length df -> 1 <= limit ->
  (inject_Z 30 <= fuzz_ratio query b)%Q ->
  (fuzz_ratio query b < inject_Z 100)%Q ->
  forall fuel t, adaptive_loop key query df limit fuel t = Pending.
Proof.
  intros Hu Hlen Hl Hlo Hhi.
  assert (Hne : df <> []) by (intros E; rewrite E in Hlen; simpl in Hlen; lia).
  induction fuel as [|fuel IH]; intros t; simpl; auto.
  rewrite (uniform_rows_at t Hu Hne Hl).
  destruct (Qle_bool (inject_Z t) (fuzz_ratio query b)) eqn:E.
  - apply Qle_bool_iff in E.
    assert (Ht : (t < 100)%Z).
    { apply Z.lt_nge. intros Hge. rewrite Zle_Qle in Hge.
      apply (Qlt_not_le _ _ Hhi). now apply Qle_trans with (inject_Z t). }
    replace (is_empty df) with false by (destruct df; simpl; congruence).
    simpl.
    replace (10 <? length df)%nat with true by (symmetry; now apply Nat.ltb_lt).
    replace (t <? 100)%Z with true by (symmetry; now apply Z.ltb_lt).
    simpl. apply IH.
  - assert (Ht : (30 < t)%Z).
    { apply Z.lt_nge. intros Hge. rewrite Zle_Qle in Hge.
      assert (Hle : (inject_Z t <= fuzz_ratio query b)%Q)
        by now apply Qle_trans with (inject_Z 30).
      apply Qle_bool_iff in Hle. congruence. }
    simpl. replace (30 <? t)%Z with true by (symmetry; now apply Z.ltb_lt).
    apply IH.
Qed.

(** The same rows when the text is the query itself (score 100): the loop
    climbs to threshold 100 and returns them all. *)
Lemma loop_returns_all (b : string) (df : frame) :
  uniform b df -> 10 < length df -> 1 <= limit ->
  (inject_Z 100 <= fuzz_ratio query b)%Q ->
  forall n t, (t <= 100)%Z -> Z.to_nat (100 - t) < n ->
              adaptive_loop key query df limit n t = Ret (100%Z, df).
Proof.
  intros Hu Hlen Hl Hhi.
  assert (Hne : df <> []) by (intros E; rewrite E in Hlen; simpl in Hlen; lia).
  induction n as [|n IH]; intros t Ht Hn; [lia|]. simpl.
  rewrite (uniform_rows_at t Hu Hne Hl).
  assert (E : Qle_bool (inject_Z t) (fuzz_ratio query b) = true).
  { apply Qle_bool_iff. apply Qle_trans with (inject_Z 100); auto.
    now rewrite <- Zle_Qle. }
  rewrite E.
  replace (is_empty df) with false by (destruct df; simpl; congruence).
  simpl.
  replace (10 <? length df)%nat with true by (symmetry; now apply Nat.ltb_lt).
  simpl. destruct (t <? 100)%Z eqn:E100.
  - apply Z.ltb_lt in E100. apply IH; lia.
  - apply Z.ltb_ge in E100. replace t with 100%Z by lia. reflexivity.
Qed.

End Oscillation.

End AdaptiveFacts.

(** ** The rating submission *)

Module RatingFacts.

Import Catalog ExtractFacts AdaptiveFacts.

Lemma in_unique (l : list string) (x : string) : In x (unique l) <-> In x l.
Proof.
  induction l as [|a l IH]; simpl; [tauto|].
  rewrite filter_In, IH. split.
  - intros [H|[H _]]; auto.
  - intros [H|H]; auto.
    destruct (String.eqb_spec x a) as [->|Hne]; auto.
Qed.

Lemma in_dropna {A} (l : list (option A)) (x : A) :
  In x (dropna l) <-> In (Some x) l.
Proof.
  induction l as [|[a|] l IH]; simpl; [tauto| |].
  - rewrite IH. split; intros [H|H]; auto; left; congruence.
  - rewrite IH. split; auto. intros [H|H]; auto. discriminate.
Qed.

Lemma named_iff (m : string) (r : beer) : named m r = true <-> Name r = Some m.
Proof.
  unfold named, opt_eqb. destruct (Name r) as [s|]; split; try congruence.
  - intros H. apply String.eqb_eq in H. congruence.
  - intros [= ->]. apply String.eqb_refl.
Qed.

Lemma firstn_nil_iff {A} (n : nat) (l : list A) :
  firstn (S n) l = [] <-> l = [].
Proof. destruct l; simpl; split; congruence. Qed.

Lemma sort_hits_nil (l : list hit) : sort_hits l = [] <-> l = [].
Proof.
  split; [|intros ->; reflexivity].
  destruct l as [|h r]; auto. intros E.
  assert (H : In h (sort_hits (h :: r))) by (apply in_sort_hits; now left).
  rewrite E in H. destruct H.
Qed.

Section BestMatch.

Context {RT : Runtime}.

Local Abbreviation score := fuzz_token_sort_ratio.

Definition candidates (name : string) (d : frame) : list hit :=
  score_all score name 85 0 (map Some (unique (dropna (map Name d)))).

Lemma best_match_unfold (name : string) (d : frame) :
  best_match name d
  = match sort_hits (candidates name d) with
    | [] => None
    | m :: _ => Some (hit_choice m)
    end.
Proof.
  unfold best_match, extract, candidates.
  destruct (sort_hits _); reflexivity.
Qed.

Lemma in_names (d : frame) (m : string) :
  In (Some m) (map Some (unique (dropna (map Name d))))
  <-> In (Some m) (map Name d).
Proof.
  split.
  - intros H. apply in_map_iff in H. destruct H as [x [[= ->] H]].
    apply (proj1 (in_unique _ _)) in H. now apply (proj1 (in_dropna _ _)) in H.
  - intros H. apply in_map_iff. exists m. split; auto.
    apply (proj2 (in_unique _ _)). now apply (proj2 (in_dropna _ _)).
Qed.

(** No match: no name of the catalog scores 85 or more. *)
Lemma best_match_none (name : string) (d : frame) :
  best_match name d = None
  <-> forall m, In (Some m) (map Name d) -> ~ (85 <= score name m)%Q.
Proof.
  rewrite best_match_unfold. split.
  - destruct (sort_hits (candidates name d)) as [|h r] eqn:E; [|discriminate].
    intros _ m Hm Hle. apply (proj1 (sort_hits_nil _)) in E.
    apply (proj2 (in_names _ _)) in Hm.
    destruct (score_all_complete score name _ _ Hm Hle 0) as (h & Hh & _).
    unfold candidates in E. rewrite E in Hh. destruct Hh.
  - intros H. destruct (sort_hits (candidates name d)) as [|h r] eqn:E; auto.
    exfalso.
    assert (Hh : In h (candidates name d)).
    { apply (proj1 (in_sort_hits _ _)). rewrite E. now left. }
    apply in_score_all in Hh. destruct Hh as (H1 & H2 & H3).
    apply (proj1 (in_names _ _)) in H1. apply (H _ H1). now rewrite <- H2.
Qed.

(** A match: a name of the catalog that scores 85 or more, and no name of
    the catalog scores more. *)
Lemma best_match_some (name : string) (d : frame) (m : string) :
  best_match name d = Some m ->
  In (Some m) (map Name d)
  /\ (85 <= score name m)%Q
  /\ (forall m', In (Some m') (map Name d) -> (score name m' <= score name m)%Q).
Proof.
  rewrite best_match_unfold.
  destruct (sort_hits (candidates name d)) as [|h r] eqn:E; [discriminate|].
  intros [= <-].
  assert (Hh : In h (candidates name d)).
  { apply (proj1 (in_sort_hits _ _)). rewrite E. now left. }
  apply in_score_all in Hh. destruct Hh as (H1 & H2 & H3).
  apply (proj1 (in_names _ _)) in H1. rewrite H2 in H3. repeat split; auto.
  intros m' Hm'.
  destruct (Qlt_le_dec (score name m') 85) as [Hlt|Hge].
  - apply Qlt_le_weak. now apply Qlt_le_trans with 85%Q.
  - apply (proj2 (in_names _ _)) in Hm'.
    destruct (score_all_complete score name _ _ Hm' Hge 0) as (h' & Hh' & Hc & Hs).
    rewrite <- Hs, <- H2.
    apply (sort_head_max _ E). exact Hh'.
Qed.

Lemma best_match_named (name : string) (d : frame) (m : string) :
  best_match name d = Some m ->
  exists first rest, filter (named m) d = first :: rest /\ Name first = Some m.
Proof.
  intros H. apply best_match_some in H. destruct H as (H & _).
  apply in_map_iff in H. destruct H as [r [Hr Hin]].
  destruct (filter (named m) d) as [|first rest] eqn:E.
  - assert (Hf : In r (filter (named m) d)).
    { apply filter_In. split; auto. now apply named_iff. }
    rewrite E in Hf. destruct Hf.
  - exists first, rest. split; auto.
    apply named_iff.
    assert (Hf : In first (filter (named m) d)) by (rewrite E; now left).
    apply (proj1 (filter_In _ _ _)) in Hf. tauto.
Qed.

(** What lines 90-92 do to one row. *)
Lemma rate_row_named (m : string) (cell : scalar) (comment : value) (r : beer) :
  Name r = Some m ->
  User_Rating (rate_row m cell comment r) = Some cell
  /\ User_Comment (rate_row m cell comment r)
     = (if truthy comment
        then Some (dquote ++ py_str comment ++ dquote)%string
        else User_Comment r)
  /\ Name (rate_row m cell comment r) = Name r
  /\ Brewery (rate_row m cell comment r) = Brewery r
  /\ Id (rate_row m cell comment r) = Id r
  /\ Rating (rate_row m cell comment r) = Rating r.
Proof.
  intros H. apply (proj2 (named_iff _ _)) in H. unfold rate_row. rewrite H.
  destruct (truthy comment); simpl; auto 10.
Qed.

Lemma rate_row_other (m : string) (cell : scalar) (comment : value) (r : beer) :
  Name r <> Some m -> rate_row m cell comment r = r.
Proof.
  intros H. unfold rate_row.
  destruct (named m r) eqn:E; auto.
  apply (proj1 (named_iff _ _)) in E. congruence.
Qed.

End BestMatch.

End RatingFacts.

(** ** The catalog filters *)

Module CatalogSpec.

Import Catalog ExtractFacts AdaptiveFacts RatingFacts.

(** *** Concrete catalogs *)

Definition brew (i : nat) (brewery : string) : beer :=
  mkBeer (Z.of_nat i) (Some "ale") None None (Some brewery)
         None None None None None None None.

(** Eleven beers of one brewery. *)
Definition eleven (brewery : string) : frame :=
  map (fun i => brew i brewery) (seq 0 11).

(** *** The adaptive name and brewery filters *)

(** C3, as stated, fails on the size bound: the loop stops raising the
    threshold at 100, whatever the size of the result.  A query that is the
    exact name of a brewery with eleven beers returns the eleven rows. *)
Lemma brewery_filter_returns_eleven :
  _filter_by_brewery (RT := Demo.runtime) 11 20 (VStr "abc") (eleven "abc")
  = Ret (eleven "abc")
  /\ length (eleven "abc") = 11.
Proof. split; vm_compute; reflexivity. Qed.

(** X1.  The loop need not return either: the same eleven rows under a query that
    scores 66.7 against them ("abd" against "abc") keep it going for ever,
    whatever the fuel. *)
Lemma brewery_filter_never_returns :
  forall fuel,
    _filter_by_brewery (RT := Demo.runtime) 11 fuel (VStr "abd") (eleven "abc")
    = Pending.
Proof.
  intros fuel. unfold _filter_by_brewery.
  rewrite (@loop_oscillates Demo.runtime Brewery "abd" 11 "abc" (eleven "abc")).
  - reflexivity.
  - intros r Hr. unfold eleven in Hr. apply in_map_iff in Hr.
    destruct Hr as [i [<- _]]. reflexivity.
  - simpl. lia.
  - lia.
  - vm_compute. discriminate.
  - vm_compute. reflexivity.
Qed.

(** C3 (amended).  Whenever the adaptive name filter or the adaptive brewery
    filter returns, the result is the match set of some threshold [t], and it
    is either zero rows at threshold 30, or one to ten rows at a threshold in
    [30,100], or more than ten rows at threshold exactly 100 (the loop stops
    raising at 100 whatever the size).  Both filters return, within 84 passes
    of the loop, whenever raising the threshold by 1 from a result of more
    than ten rows never yields an empty result. *)
Theorem adaptive_filters_settle :
  forall (RT : Runtime) (limit : nat) (query : string) (data : frame),
    (forall fuel rows,
        _filter_by_name limit fuel (VStr query) data = Ret rows ->
        exists t,
          rows = result_at Name_clean (name_query query) data limit t
          /\ settled t rows)
    /\ (forall fuel rows,
           _filter_by_brewery limit fuel (VStr query) data = Ret rows ->
           exists t,
             rows = result_at Brewery query data limit t /\ settled t rows)
    /\ (no_gap Name_clean (name_query query) data limit ->
        forall fuel, 84 <= fuel ->
                     exists rows,
                       _filter_by_name limit fuel (VStr query) data = Ret rows)
    /\ (no_gap Brewery query data limit ->
        forall fuel, 84 <= fuel ->
                     exists rows,
                       _filter_by_brewery limit fuel (VStr query) data = Ret rows).
Proof.
  intros RT limit query data. unfold _filter_by_name, _filter_by_brewery, bind.
  split; [|split; [|split]].
  - intros fuel rows.
    destruct (adaptive_loop Name_clean (name_query query) data limit fuel 90)
      as [[t rs]| |] eqn:E; try discriminate.
    intros [= <-]. exists t.
    apply (loop_settles fuel (reachable_start _ _ _ _) E).
  - intros fuel rows.
    destruct (adaptive_loop Brewery query data limit fuel 90)
      as [[t rs]| |] eqn:E; try discriminate.
    intros [= <-]. exists t.
    apply (loop_settles fuel (reachable_start _ _ _ _) E).
  - intros Hgap fuel Hfuel.
    destruct (loop_returns Hgap Hfuel) as [[t rs] E]. rewrite E. eauto.
  - intros Hgap fuel Hfuel.
    destruct (loop_returns Hgap Hfuel) as [[t rs] E]. rewrite E. eauto.
Qed.

(** Two breweries, the query names one of them: nothing ever matches more
    than ten rows, the loop returns at once, with the one row. *)
Lemma adaptive_filters_settle_witness :
  no_gap (RT := Demo.runtime) Brewery "abc" [brew 0 "abc"; brew 1 "xyz"] 2
  /\ (exists rows,
         _filter_by_brewery (RT := Demo.runtime) 2 84 (VStr "abc")
                            [brew 0 "abc"; brew 1 "xyz"]
         = Ret rows)
  /\ _filter_by_brewery (RT := Demo.runtime) 2 84 (VStr "abc")
                        [brew 0 "abc"; brew 1 "xyz"]
     = Ret [brew 0 "abc"].
Proof.
  assert (Hgap : no_gap (RT := Demo.runtime) Brewery "abc"
                        [brew 0 "abc"; brew 1 "xyz"] 2).
  { intros t _ Hbig. exfalso. unfold result_at in Hbig.
    pose proof (filter_length_le
                  (fun r => isin (Brewery r)
                              (map hit_choice
                                   (extract (fuzz_ratio (Runtime := Demo.runtime))
                                            "abc"
                                            (map Brewery [brew 0 "abc"; brew 1 "xyz"])
                                            (inject_Z t) 2)))
                  [brew 0 "abc"; brew 1 "xyz"]) as Hle.
    simpl length in Hle at 2. lia. }
  split; [exact Hgap|]. split.
  - apply (proj2 (proj2 (proj2
             (adaptive_filters_settle Demo.runtime 2 "abc"
                                      [brew 0 "abc"; brew 1 "xyz"]))) Hgap 84).
    lia.
  - vm_compute. reflexivity.
Defined.

(** *** The rating filter *)

(** A two-element list, the shape the range branch takes. *)
Definition is_pair (val : value) : bool :=
  match val with
  | VList [_; _] => true
  | _ => false
  end.

(** A row whose rating cell is not a number. *)
Definition unrated : beer :=
  mkBeer 1 (Some "ale") None None None None None None None None None None.

(** C8, as stated, fails: the rows without a numeric rating are dropped
    before the value is looked at, so a non-numeric value does not leave the
    row set unchanged. *)
Lemma rating_filter_drops_unrated :
  py_float (RT := Demo.runtime) (VStr "good") = None
  /\ _filter_by_rating (RT := Demo.runtime) (VStr "good") [unrated] = Ret [].
Proof. split; reflexivity. Qed.

Lemma in_rated (data : frame) (r : beer) :
  In r (rated data) <-> In r data /\ Rating r <> None.
Proof.
  unfold rated. rewrite filter_In. unfold is_some.
  destruct (Rating r); intuition congruence.
Qed.

(** C8 (amended).  The rating filter first keeps the rows with a numeric
    rating.  Given a two-element list of numbers [low, high] it keeps, of
    those, the rows whose rating lies in the closed interval; given a single
    number, the rows whose rating is at least it; given any other value that
    is not a two-element list (a word, a null, a list of another length) it
    returns the rows with a numeric rating, none of them filtered out (the
    whole data when every row has one). *)
Theorem rating_filter_cases :
  forall (RT : Runtime) (val : value) (data : frame),
    (forall v0 v1 low high,
        val = VList [v0; v1] ->
        py_float v0 = Some low -> py_float v1 = Some high ->
        _filter_by_rating val data
        = Ret (filter (fun r => rating_ge low r && rating_le high r) (rated data)))
    /\ (forall f,
           is_pair val = false -> py_float val = Some f ->
           _filter_by_rating val data = Ret (filter (rating_ge f) (rated data)))
    /\ (is_pair val = false -> py_float val = None ->
        _filter_by_rating val data = Ret (rated data))
    /\ (forall r, In r (rated data) <-> In r data /\ Rating r <> None)
    /\ ((forall r, In r data -> Rating r <> None) -> rated data = data)
    /\ (forall (lo hi : Q) r,
           In r (filter (fun r => rating_ge (Fin lo) r && rating_le (Fin hi) r)
                        (rated data))
           <-> In r data
               /\ exists x, Rating r = Some x /\ (lo <= x)%Q /\ (x <= hi)%Q)
    /\ (forall (lo : Q) r,
           In r (filter (rating_ge (Fin lo)) (rated data))
           <-> In r data /\ exists x, Rating r = Some x /\ (lo <= x)%Q).
Proof.
  intros RT val data.
  split; [|split; [|split; [|split; [|split; [|split]]]]].
  - intros v0 v1 low high -> H0 H1. unfold _filter_by_rating.
    now rewrite H0, H1.
  - intros f Hp Hf. unfold _filter_by_rating.
    destruct val as [| | | |l|]; try (rewrite Hf; reflexivity); try discriminate.
  - intros Hp Hf. unfold _filter_by_rating.
    destruct val as [| | | |l|]; try (rewrite Hf; reflexivity); try reflexivity.
    destruct l as [|a [|b [|c l]]]; try reflexivity. discriminate.
  - apply in_rated.
  - intros H. unfold rated. apply forallb_filter_id. apply forallb_forall.
    intros r Hr. specialize (H r Hr). destruct (Rating r); simpl; congruence.
  - intros lo hi r.
    rewrite filter_In, in_rated, andb_true_iff. unfold rating_ge, rating_le.
    split.
    + intros [[Hin _] [H1 H2]]. split; auto.
      destruct (Rating r) as [x|]; [|discriminate].
      exists x. simpl in *. rewrite Qle_bool_iff in H1, H2. auto.
    + intros [Hin [x [Hx [H1 H2]]]]. rewrite Hx. simpl.
      rewrite !Qle_bool_iff. repeat split; auto. congruence.
  - intros lo r. rewrite filter_In, in_rated. unfold rating_ge. split.
    + intros [[Hin _] H1]. split; auto.
      destruct (Rating r) as [x|]; [|discriminate].
      exists x. simpl in *. rewrite Qle_bool_iff in H1. auto.
    + intros [Hin [x [Hx H1]]]. rewrite Hx. simpl.
      rewrite Qle_bool_iff. repeat split; auto. congruence.
Qed.

(** *** The style filter *)

(** One row, styled "Stout". *)
Definition stout : beer :=
  mkBeer 1 (Some "Oatmeal") None (Some "Stout") None None None None None None
         None None.

Lemma existsb_no_style (data : frame) :
  (forall r, In r data -> Style r <> None) ->
  existsb (fun r => negb (is_some (Style r))) data = false.
Proof.
  intros H. induction data as [|r rs IH]; simpl; auto.
  rewrite IH by (intros x Hx; apply H; now right).
  specialize (H r (or_introl eq_refl)).
  destruct (Style r); simpl; congruence.
Qed.

(** C2: what the code does.  When both candidate sets are non-empty (and
    every row has a style) the filter returns their intersection if that is
    non-empty, else their de-duplicated union, as the claim says.  When the
    substring set or the fuzzy set is empty, line 194 evaluates the truth
    value of a DataFrame, which pandas refuses: the filter raises instead of
    returning the non-empty set or zero rows.  So it does on the empty
    catalog for every query, and for the query "ipa" on a catalog whose only
    style is "Stout". *)
Theorem style_filter_fallback_raises :
  (forall (RT : Runtime) (query : string) (data : frame),
      (rows_with_style (substr_styles_of query data) data = []
       \/ rows_with_style (fuzzy_styles_of query data) data = [] ->
       _filter_by_style (VStr query) data = Raise ValueError
       \/ _filter_by_style (VStr query) data = Raise IndexingError)
      /\ (rows_with_style (substr_styles_of query data) data <> [] ->
          rows_with_style (fuzzy_styles_of query data) data <> [] ->
          (forall r, In r data -> Style r <> None) ->
          _filter_by_style (VStr query) data
          = Ret (if is_empty
                      (merge_inner
                         (rows_with_style (substr_styles_of query data) data)
                         (rows_with_style (fuzzy_styles_of query data) data))
                 then drop_duplicates
                        (rows_with_style (substr_styles_of query data) data
                         ++ rows_with_style (fuzzy_styles_of query data) data)
                 else merge_inner
                        (rows_with_style (substr_styles_of query data) data)
                        (rows_with_style (fuzzy_styles_of query data) data))))
  /\ (forall (RT : Runtime) (query : string),
         _filter_by_style (VStr query) [] = Raise ValueError)
  /\ _filter_by_style (RT := Demo.runtime) (VStr "ipa") [stout]
     = Raise ValueError.
Proof.
  split; [|split].
  - intros RT query data. unfold _filter_by_style.
    set (df_substr := rows_with_style (substr_styles_of query data) data).
    set (df_fuzzy := rows_with_style (fuzzy_styles_of query data) data).
    split.
    + intros H.
      destruct (existsb (fun r => negb (is_some (Style r))) data); auto.
      left. destruct H as [-> | ->]; simpl; auto.
      now rewrite andb_false_r.
    + intros H1 H2 Hstyle. rewrite (existsb_no_style _ Hstyle).
      destruct df_substr; [congruence|]. destruct df_fuzzy; [congruence|].
      simpl negb at 1 2. cbn [andb].
      destruct (merge_inner _ _); reflexivity.
  - intros RT query. reflexivity.
  - reflexivity.
Qed.

(** *** The rating submission *)

(** A catalog of one beer that already carries a user rating and a user
    comment, and a submission for it that has a rating and no comment. *)
Definition porter : beer :=
  mkBeer 1 (Some "Porter") None (Some "Porter") (Some "Founders")
         None None None None None (Some (SNum 3)) (Some "old").

Definition porter_catalog : BeerDataset := mkDataset [porter] 1 [porter].

Definition porter_slots : PyDict.t value :=
  [("name", VStr "Porter"); ("rating", VNum (9 # 2)); ("comment", VNone)].

(** C7, as stated, fails on the comment: a submission without a comment
    updates the user rating of the matched row and leaves its user comment
    as it was. *)
Lemma rating_without_comment_keeps_comment :
  exists p ds',
    record_user_rating (RT := Demo.runtime) porter_catalog porter_slots
    = Ret (Some p, ds')
    /\ comment p = VNone
    /\ map User_Rating (data ds') = [Some (SNum (9 # 2))]
    /\ map User_Comment (data ds') = [Some "old"].
Proof.
  eexists. eexists. split; [vm_compute; reflexivity|].
  repeat split.
Qed.

(** C7 (amended).  The submission fails with an empty result, the catalog
    untouched, when the name or the rating slot is missing, or when no name
    of the catalog scores at least 85 against the submitted name.  Otherwise
    the target is a name of the catalog scoring at least 85 that no other
    name outscores; every row with that name gets the submitted rating as
    its user rating, and, only when the submitted comment is non-empty, that
    comment (in double quotes) as its user comment, a row's stored comment
    being kept otherwise; the other rows are unchanged; the whole catalog is
    written to disk before the call returns; and the payload is
    [{beer: {name, brewery, new_rating, comment}}] for the first such row. *)
Theorem rating_submission :
  forall (RT : Runtime) (ds : BeerDataset) (slots : PyDict.t value),
    (PyDict.get_or_none "name" slots = VNone
     \/ PyDict.get_or_none "rating" slots = VNone ->
     record_user_rating ds slots = Ret (None, ds))
    /\ (forall n,
           PyDict.get_or_none "name" slots = VStr n ->
           best_match n (data ds) = None ->
           record_user_rating ds slots = Ret (None, ds))
    /\ (forall n,
           best_match n (data ds) = None
           <-> forall m, In (Some m) (map Name (data ds)) ->
                         ~ (85 <= fuzz_token_sort_ratio n m)%Q)
    /\ (forall n m,
           best_match n (data ds) = Some m ->
           In (Some m) (map Name (data ds))
           /\ (85 <= fuzz_token_sort_ratio n m)%Q
           /\ forall m', In (Some m') (map Name (data ds)) ->
                         (fuzz_token_sort_ratio n m' <= fuzz_token_sort_ratio n m)%Q)
    /\ (forall n m cell,
           PyDict.get_or_none "name" slots = VStr n ->
           to_scalar (PyDict.get_or_none "rating" slots) = Some cell ->
           best_match n (data ds) = Some m ->
           exists first rest,
             filter (named m) (data ds) = first :: rest
             /\ record_user_rating ds slots
                = Ret (Some (mkPayload (Some m) (Brewery first)
                                       (PyDict.get_or_none "rating" slots)
                                       (PyDict.get_or_none "comment" slots)),
                       mkDataset
                         (map (rate_row m cell (PyDict.get_or_none "comment" slots))
                              (data ds))
                         (_limit ds)
                         (map (rate_row m cell (PyDict.get_or_none "comment" slots))
                              (data ds))))
    /\ (forall m cell comment r,
           (Name r = Some m ->
            User_Rating (rate_row m cell comment r) = Some cell
            /\ User_Comment (rate_row m cell comment r)
               = (if truthy comment
                  then Some (dquote ++ py_str comment ++ dquote)%string
                  else User_Comment r))
           /\ (Name r <> Some m -> rate_row m cell comment r = r)).
Proof.
  intros RT ds slots.
  split; [|split; [|split; [|split; [|split]]]].
  - unfold record_user_rating. intros [-> | ->]; simpl; auto.
    now rewrite orb_true_r.
  - intros n Hn Hb. unfold record_user_rating. rewrite Hn, Hb. simpl.
    destruct (is_none (PyDict.get_or_none "rating" slots)); reflexivity.
  - intros n. apply best_match_none.
  - intros n m. apply best_match_some.
  - intros n m cell Hn Hr Hb.
    destruct (best_match_named _ _ Hb) as (first & rest & Hf & Hname).
    exists first, rest. split; auto.
    unfold record_user_rating. rewrite Hn, Hb, Hf, Hr. simpl.
    destruct (PyDict.get_or_none "rating" slots) eqn:Er; try discriminate;
      simpl;
      destruct (@rate_row_named RT m cell (PyDict.get_or_none "comment" slots)
                                first Hname)
        as (_ & _ & H3 & H4 & _);
      rewrite H3, H4, Hname; reflexivity.
  - intros m cell comment r. split.
    + intros H.
      destruct (@rate_row_named RT m cell comment r H) as (H1 & H2 & _). auto.
    + apply rate_row_other.
Qed.

(** The submission of [porter_slots] on [porter_catalog]: "Porter" matches
    itself with score 100; the rating is stored and the catalog written. *)
Lemma rating_submission_example :
  best_match (RT := Demo.runtime) "Porter" (data porter_catalog) = Some "Porter"
  /\ exists first rest,
      filter (named "Porter") (data porter_catalog) = first :: rest
      /\ record_user_rating (RT := Demo.runtime) porter_catalog porter_slots
         = Ret (Some (mkPayload (Some "Porter") (Brewery first)
                                (VNum (9 # 2)) VNone),
                mkDataset
                  (map (rate_row (RT := Demo.runtime) "Porter" (SNum (9 # 2)) VNone)
                       (data porter_catalog))
                  1
                  (map (rate_row (RT := Demo.runtime) "Porter" (SNum (9 # 2)) VNone)
                       (data porter_catalog))).
Proof.
  split; [vm_compute; reflexivity|].
  apply (proj1 (proj2 (proj2 (proj2 (proj2
           (rating_submission Demo.runtime porter_catalog porter_slots)))))
           "Porter" "Porter" (SNum (9 # 2)) eq_refl eq_refl).
  vm_compute. reflexivity.
Defined.

End CatalogSpec.

(** ** The registry of trackers *)

Module RegistryFacts.

Import PyDict Tracker DecisionEngine TrackerFacts.

(** The first tracker of the registry with intent [i]: the tracker
    [_update_states] updates and [_handle_confirmation] queries. *)
Definition lookup (i : string) (stack : list StateTracker) : option StateTracker :=
  find (fun s => get_intent s =? i) stack.

(** The observations of a batch that bear the intent [i], in order. *)
Definition bearing (i : string) (nlu_inputs : list observation) : list observation :=
  filter (fun o => obs_intent o =? i) nlu_inputs.

(** One iteration of the outer loop of [_update_states]. *)
Definition step (stack : list StateTracker) (nlu : observation) : list StateTracker :=
  match update_first nlu stack with
  | Some stack' => stack'
  | None => stack ++ [fst (update (new (obs_intent nlu)) nlu)]
  end.

Lemma update_states_cons (stack : list StateTracker) (nlu : observation)
      (rest : list observation) :
  _update_states stack (nlu :: rest) = _update_states (step stack nlu) rest.
Proof. reflexivity. Qed.

Lemma step_cons_other (s : StateTracker) (stack : list StateTracker)
      (nlu : observation) :
  (get_intent s =? obs_intent nlu) = false ->
  step (s :: stack) nlu = s :: step stack nlu.
Proof.
  intros E. unfold step. simpl. rewrite E.
  destruct (update_first nlu stack); reflexivity.
Qed.

Lemma step_cons_same (s : StateTracker) (stack : list StateTracker)
      (nlu : observation) :
  (get_intent s =? obs_intent nlu) = true ->
  step (s :: stack) nlu = fst (update s nlu) :: stack.
Proof. intros E. unfold step. simpl. now rewrite E. Qed.

Lemma eqb_trans_false (a b c : string) :
  (a =? b) = true -> (a =? c) = false -> (b =? c) = false.
Proof.
  intros H1 H2. apply String.eqb_eq in H1. now subst.
Qed.

Lemma lookup_step (i : string) (nlu : observation) (stack : list StateTracker) :
  lookup i (step stack nlu)
  = if obs_intent nlu =? i
    then Some (fst (update (match lookup i stack with
                            | Some t => t
                            | None => new i
                            end) nlu))
    else lookup i stack.
Proof.
  induction stack as [|s stack IH].
  - unfold step, lookup. simpl. unfold get_intent. simpl.
    destruct (obs_intent nlu =? i) eqn:E; auto.
    apply String.eqb_eq in E. now subst.
  - destruct (get_intent s =? obs_intent nlu) eqn:Es.
    + rewrite (@step_cons_same _ _ _ Es). unfold lookup. simpl.
      unfold get_intent in *. simpl.
      destruct (intent s =? i) eqn:Ei.
      * apply String.eqb_eq in Es, Ei.
        rewrite <- Es, Ei, String.eqb_refl. reflexivity.
      * now rewrite (@eqb_trans_false _ _ _ Es Ei).
    + rewrite (@step_cons_other _ _ _ Es). unfold lookup in *. simpl.
      destruct (get_intent s =? i) eqn:Ei.
      * destruct (obs_intent nlu =? i) eqn:Eo; auto.
        apply String.eqb_eq in Ei, Eo. rewrite Ei, Eo, String.eqb_refl in Es.
        discriminate.
      * exact IH.
Qed.

Lemma intents_step (nlu : observation) (stack : list StateTracker) :
  map intent (step stack nlu)
  = if mem_str (obs_intent nlu) (map intent stack)
    then map intent stack
    else map intent stack ++ [obs_intent nlu].
Proof.
  induction stack as [|s stack IH].
  - reflexivity.
  - destruct (get_intent s =? obs_intent nlu) eqn:Es.
    + rewrite (@step_cons_same _ _ _ Es). unfold mem_str. simpl.
      unfold get_intent in Es. rewrite String.eqb_sym in Es. now rewrite Es.
    + rewrite (@step_cons_other _ _ _ Es). unfold mem_str in *. simpl.
      unfold get_intent in Es. rewrite String.eqb_sym in Es. rewrite Es. simpl.
      rewrite IH. destruct (existsb _ _); reflexivity.
Qed.

Lemma nodup_step (nlu : observation) (stack : list StateTracker) :
  NoDup (map intent stack) -> NoDup (map intent (step stack nlu)).
Proof.
  intros H. rewrite intents_step.
  destruct (mem_str (obs_intent nlu) (map intent stack)) eqn:E; auto.
  apply NoDup_app; auto.
  - constructor; [tauto | constructor].
  - intros a Ha [<-|[]]. apply AdaptiveFacts.mem_str_in in Ha. congruence.
Qed.

Lemma intents_update_states (nlu_inputs : list observation) :
  forall stack,
    (NoDup (map intent stack) ->
     NoDup (map intent (_update_states stack nlu_inputs)))
    /\ (forall o, In o nlu_inputs ->
                  In (obs_intent o) (map intent (_update_states stack nlu_inputs)))
    /\ (exists added,
           map intent (_update_states stack nlu_inputs)
           = map intent stack ++ added).
Proof.
  induction nlu_inputs as [|nlu rest IH]; intros stack.
  - simpl. split; [auto|split; [tauto|]]. exists []. now rewrite app_nil_r.
  - rewrite update_states_cons.
    destruct (IH (step stack nlu)) as (H1 & H2 & [added H3]).
    split; [|split].
    + intros Hn. apply H1. now apply nodup_step.
    + intros o [<-|Ho]; [|now apply H2].
      rewrite H3. apply in_or_app. left. rewrite intents_step.
      destruct (mem_str (obs_intent nlu) (map intent stack)) eqn:E.
      * now apply AdaptiveFacts.mem_str_in.
      * apply in_or_app. right. now left.
    + rewrite H3, intents_step.
      destruct (mem_str (obs_intent nlu) (map intent stack)).
      * eauto.
      * exists ([obs_intent nlu] ++ added). now rewrite app_assoc.
Qed.

Lemma lookup_update_states (i : string) (nlu_inputs : list observation) :
  forall stack,
    lookup i (_update_states stack nlu_inputs)
    = match lookup i stack with
      | Some t => Some (merge_all t (bearing i nlu_inputs))
      | None =>
          match bearing i nlu_inputs with
          | [] => None
          | _ :: _ => Some (merge_all (new i) (bearing i nlu_inputs))
          end
      end.
Proof.
  induction nlu_inputs as [|nlu rest IH]; intros stack.
  - simpl. destruct (lookup i stack); reflexivity.
  - rewrite update_states_cons, IH, lookup_step. simpl.
    destruct (obs_intent nlu =? i).
    + destruct (lookup i stack); reflexivity.
    + reflexivity.
Qed.


End RegistryFacts.

(** ** The row filters of the catalog *)

Module FilterFacts.

Import Catalog ExtractFacts AdaptiveFacts.

(** [bounds] of [_filter_by_abv] and [ranges] of [_filter_by_ibu], with the
    default of their [get]. *)
Definition abv_bounds (level : string) : Q * Q :=
  match level with
  | "low" => (0, 49 # 10)
  | "medium" => (5, 79 # 10)
  | "high" => (8, 100)
  | _ => (0, 100)
  end%Q.

Definition ibu_ranges (level : string) : Q * Q :=
  match level with
  | "low" => (0, 20)
  | "medium" => (21, 60)
  | "high" => (61, 120)
  | _ => (0, 120)
  end%Q.

(** The ABV of the row lies in the closed interval. *)
Definition abv_within (lo hi : Q) (r : beer) : Prop :=
  exists x, ABV r = Some x /\ (lo <= x)%Q /\ (x <= hi)%Q.

(** The IBU range of the row meets the closed interval. *)
Definition ibu_meets (lo hi : Q) (r : beer) : Prop :=
  exists mn mx, Min_IBU r = Some mn /\ Max_IBU r = Some mx
                /\ (lo <= mx)%Q /\ (mn <= hi)%Q.

Ltac split_matches :=
  repeat match goal with
         | |- context [match ?x with _ => _ end] => is_var x; destruct x
         end.

Lemma abv_bounds_cases (level : string) :
  abv_bounds level = (0, 100)%Q
  \/ level = "low" \/ level = "medium" \/ level = "high".
Proof.
  unfold abv_bounds. split_matches; auto.
Qed.

Lemma ibu_ranges_cases (level : string) :
  ibu_ranges level = (0, 120)%Q
  \/ level = "low" \/ level = "medium" \/ level = "high".
Proof.
  unfold ibu_ranges. split_matches; auto.
Qed.

Section Rows.

Context {RT : Runtime}.

Lemma abv_text (level : string) (data : frame) :
  _filter_by_abv (VStr level) data
  = Ret (filter (fun r => match ABV r with
                          | Some x => Qle_bool (fst (abv_bounds level)) x
                                      && Qle_bool x (snd (abv_bounds level))
                          | None => false
                          end)
                (filter (fun r => is_some (ABV r)) data)).
Proof.
  unfold _filter_by_abv, abv_bounds. split_matches; reflexivity.
Qed.

Lemma ibu_text (level : string) (data : frame) :
  _filter_by_ibu (VStr level) data
  = Ret (filter (fun r => match Min_IBU r, Max_IBU r with
                          | Some mn, Some mx =>
                              Qle_bool (fst (ibu_ranges level)) mx
                              && Qle_bool mn (snd (ibu_ranges level))
                          | _, _ => false
                          end)
                (filter (fun r => is_some (Min_IBU r) && is_some (Max_IBU r)) data)).
Proof.
  unfold _filter_by_ibu, ibu_ranges. split_matches; reflexivity.
Qed.

Lemma in_abv_text (level : string) (data rows : frame) (r : beer) :
  _filter_by_abv (VStr level) data = Ret rows ->
  In r rows
  <-> In r data /\ abv_within (fst (abv_bounds level)) (snd (abv_bounds level)) r.
Proof.
  rewrite abv_text. intros [= <-]. rewrite !filter_In. unfold abv_within.
  destruct (ABV r) as [x|]; simpl.
  - rewrite andb_true_iff, !Qle_bool_iff. split.
    + intros [[H _] [H1 H2]]. eauto.
    + intros [H [y [[= <-] [H1 H2]]]]. auto.
  - split; [intros [_ H]; discriminate|].
    intros [_ [y [H _]]]. discriminate.
Qed.

Lemma in_ibu_text (level : string) (data rows : frame) (r : beer) :
  _filter_by_ibu (VStr level) data = Ret rows ->
  In r rows
  <-> In r data /\ ibu_meets (fst (ibu_ranges level)) (snd (ibu_ranges level)) r.
Proof.
  rewrite ibu_text. intros [= <-]. rewrite !filter_In. unfold ibu_meets.
  destruct (Min_IBU r) as [mn|]; destruct (Max_IBU r) as [mx|]; simpl.
  - rewrite andb_true_iff, !Qle_bool_iff. split.
    + intros [[H _] [H1 H2]]. split; auto. exists mn, mx. auto.
    + intros [H [a [b [[= <-] [[= <-] [H1 H2]]]]]]. auto.
  - split; [intros [_ H]; discriminate|].
    intros [_ [a [b [_ [H _]]]]]. discriminate.
  - split; [intros [[_ H] _]; discriminate|].
    intros [_ [a [b [H _]]]]. discriminate.
  - split; [intros [[_ H] _]; discriminate|].
    intros [_ [a [b [H _]]]]. discriminate.
Qed.

End Rows.

End FilterFacts.

(** ** filter_by_intent *)

Module QueryFacts.

Import Catalog ExtractFacts AdaptiveFacts FilterFacts.

Lemma in_merge_inner (l r : frame) (a : beer) :
  In a (merge_inner l r)
  <-> In a l /\ exists b, In b r /\ beer_eqb a b = true.
Proof.
  unfold merge_inner. rewrite in_flat_map. split.
  - intros [x [Hx Ha]]. apply in_map_iff in Ha.
    destruct Ha as [b [<- Hb]]. apply filter_In in Hb.
    split; auto. exists b. exact Hb.
  - intros [Ha [b [Hb E]]]. exists a. split; auto.
    apply in_map_iff. exists b. split; auto. apply filter_In. auto.
Qed.

Lemma in_drop_duplicates (l : frame) (x : beer) :
  In x (drop_duplicates l) -> In x l.
Proof.
  induction l as [|a l IH]; simpl; auto.
  intros [H|H]; auto. apply filter_In in H. right. apply IH. tauto.
Qed.

Lemma drop_duplicates_nil (l : frame) : drop_duplicates l = [] -> l = [].
Proof. destruct l; simpl; congruence. Qed.

Lemma is_empty_false {A} (l : list A) : is_empty l = false <-> l <> [].
Proof. destruct l; simpl; split; congruence. Qed.

Lemma beer_eqb_style (a b : beer) : beer_eqb a b = true -> Style a = Style b.
Proof.
  unfold beer_eqb. rewrite !andb_true_iff.
  intros [[[[[[[[[[[_ _] _] H] _] _] _] _] _] _] _] _].
  unfold opt_eqb in H.
  destruct (Style a), (Style b); try discriminate; auto.
  apply String.eqb_eq in H. now subst.
Qed.

(** *** sort_values(by="Rating", ascending=False) *)

(** Every row is rated at least as high as the rows after it, the rows
    without a rating last. *)
Fixpoint descending (l : frame) : Prop :=
  match l with
  | [] => True
  | a :: r => (forall b, In b r -> rating_before a b = true) /\ descending r
  end.

Lemma rating_before_total (a b : beer) :
  rating_before a b = false -> rating_before b a = true.
Proof.
  unfold rating_before.
  destruct (Rating a) as [x|], (Rating b) as [y|]; try discriminate; auto.
  intros H. apply Qle_bool_false in H. now apply Qle_bool_iff.
Qed.

Lemma rating_before_trans (a b c : beer) :
  rating_before a b = true -> rating_before b c = true ->
  rating_before a c = true.
Proof.
  unfold rating_before.
  destruct (Rating a) as [x|], (Rating b) as [y|], (Rating c) as [z|];
    try discriminate; auto.
  rewrite !Qle_bool_iff. intros H1 H2. now apply Qle_trans with y.
Qed.

Lemma insert_by_rating_perm (r : beer) (l : frame) :
  Permutation (insert_by_rating r l) (r :: l).
Proof.
  induction l as [|a l IH]; simpl; auto.
  destruct (rating_before a r); auto.
  apply perm_trans with (a :: r :: l); [now constructor | constructor].
Qed.

Lemma sort_by_rating_perm (l : frame) : Permutation (sort_by_rating l) l.
Proof.
  induction l as [|a l IH]; simpl; auto.
  apply perm_trans with (a :: sort_by_rating l).
  - apply insert_by_rating_perm.
  - now constructor.
Qed.

Lemma insert_by_rating_descending (r : beer) (l : frame) :
  descending l -> descending (insert_by_rating r l).
Proof.
  induction l as [|a l IH]; simpl.
  - intros _. split; [intros b []|exact I].
  - intros [Ha Hl]. destruct (rating_before a r) eqn:E; simpl.
    + split; auto. intros b Hb.
      apply (Permutation_in _ (insert_by_rating_perm r l)) in Hb.
      destruct Hb as [<-|Hb]; auto.
    + apply rating_before_total in E. split; [|split; auto].
      intros b [<-|Hb]; auto.
      apply rating_before_trans with a; auto.
Qed.

Lemma sort_by_rating_descending (l : frame) : descending (sort_by_rating l).
Proof.
  induction l as [|a l IH]; simpl; [exact I|].
  now apply insert_by_rating_descending.
Qed.



Section Queries.

Context {RT : Runtime}.

Lemma in_rows_with_style (styles : list string) (data : frame) (r : beer) :
  In r (rows_with_style styles data)
  <-> In r data /\ isin (Style r) styles = true.
Proof.
  unfold rows_with_style. destruct styles as [|s styles]; simpl.
  - split; [tauto|]. intros [_ H]. destruct (Style r); discriminate.
  - apply filter_In.
Qed.

(** Each pass of the adaptive loop selects rows of the frame it was given. *)
Lemma loop_rows (key : beer -> option string) (query : string) (df : frame)
      (limit : nat) (fuel : nat) :
  forall threshold t rows,
    adaptive_loop key query df limit fuel threshold = Ret (t, rows) ->
    forall r, In r rows -> In r df.
Proof.
  induction fuel as [|fuel IH]; intros threshold t rows; simpl; [discriminate|].
  destruct (is_empty _ && (30 <? threshold)%Z); [apply IH|].
  destruct ((10 <? length _)%nat && (threshold <? 100)%Z); [apply IH|].
  intros [= _ <-] r Hr. unfold result_at in Hr. apply filter_In in Hr. tauto.
Qed.

(** When the style filter returns, it returns at least one row; every row
    comes from the frame, and its style is one the substring pass or the
    fuzzy pass selected. *)
Lemma style_rows (query : string) (data rows : frame) :
  _filter_by_style (VStr query) data = Ret rows ->
  rows <> []
  /\ forall r, In r rows ->
               In r data
               /\ (isin (Style r) (substr_styles_of query data) = true
                   \/ isin (Style r) (fuzzy_styles_of query data) = true).
Proof.
  unfold _filter_by_style.
  destruct (existsb _ data); [discriminate|].
  set (S1 := rows_with_style (substr_styles_of query data) data).
  set (S2 := rows_with_style (fuzzy_styles_of query data) data).
  destruct (is_empty S1) eqn:E1; [discriminate|].
  destruct (is_empty S2) eqn:E2; [discriminate|]. simpl.
  destruct (is_empty (merge_inner S1 S2)) eqn:E3; simpl; intros [= <-].
  - split.
    + intros H. apply drop_duplicates_nil in H.
      apply app_eq_nil in H. destruct H as [H _].
      apply is_empty_false in E1. contradiction.
    + intros r Hr. apply in_drop_duplicates in Hr.
      apply in_app_or in Hr. destruct Hr as [Hr|Hr];
        apply in_rows_with_style in Hr; tauto.
  - split.
    + now apply is_empty_false.
    + intros r Hr. apply in_merge_inner in Hr. destruct Hr as [Hr _].
      apply in_rows_with_style in Hr. tauto.
Qed.

Lemma apply_filter_rows (limit fuel : nat) (key : string) (val : value)
      (df df' : frame) :
  apply_filter limit fuel key val df = Ret df' ->
  forall r, In r df' -> In r df.
Proof.
  unfold apply_filter.
  destruct (key =? "style").
  { destruct val; try discriminate. intros H r Hr.
    apply style_rows in H. destruct H as [_ H]. now apply H. }
  destruct (key =? "abv").
  { unfold _filter_by_abv. intros H r Hr.
    assert (Hf : forall lo hi,
               In r (filter (fun r => match ABV r with
                                      | Some x => Qle_bool lo x && Qle_bool x hi
                                      | None => false
                                      end)
                            (filter (fun r => is_some (ABV r)) df)) -> In r df).
    { intros lo hi Hin. apply filter_In in Hin. destruct Hin as [Hin _].
      apply filter_In in Hin. tauto. }
    revert H. split_matches; try discriminate; intros [= <-]; eapply Hf; eauto. }
  destruct (key =? "ibu").
  { unfold _filter_by_ibu. intros H r Hr.
    assert (Hf : forall lo hi,
               In r (filter (fun r => match Min_IBU r, Max_IBU r with
                                      | Some mn, Some mx =>
                                          Qle_bool lo mx && Qle_bool mn hi
                                      | _, _ => false
                                      end)
                            (filter (fun r => is_some (Min_IBU r)
                                              && is_some (Max_IBU r)) df))
               -> In r df).
    { intros lo hi Hin. apply filter_In in Hin. destruct Hin as [Hin _].
      apply filter_In in Hin. tauto. }
    revert H. split_matches; try discriminate; intros [= <-]; eapply Hf; eauto. }
  destruct (key =? "rating").
  { unfold _filter_by_rating, rated. intros H r Hr. revert H.
    destruct val as [| | | |l|];
      try (destruct (py_float _); intros [= <-];
           repeat (apply filter_In in Hr; destruct Hr as [Hr _]); exact Hr).
    destruct l as [|v0 [|v1 [|v2 l]]];
      try (destruct (py_float _); intros [= <-];
           repeat (apply filter_In in Hr; destruct Hr as [Hr _]); exact Hr).
    destruct (py_float v0); [|discriminate].
    destruct (py_float v1); [|discriminate].
    intros [= <-]. repeat (apply filter_In in Hr; destruct Hr as [Hr _]).
    exact Hr. }
  destruct (key =? "name").
  { unfold _filter_by_name, bind. destruct val; try discriminate.
    destruct (adaptive_loop _ _ _ _ _ _) as [[t rows]| |] eqn:E; try discriminate.
    intros [= <-]. simpl. eapply loop_rows; eauto. }
  destruct (key =? "brewery").
  { unfold _filter_by_brewery, bind. destruct val; try discriminate.
    destruct (adaptive_loop _ _ _ _ _ _) as [[t rows]| |] eqn:E; try discriminate.
    intros [= <-]. simpl. eapply loop_rows; eauto. }
  intros [= <-]. auto.
Qed.

Lemma apply_slots_rows (limit fuel : nat) (slots : PyDict.t value) :
  forall df df',
    apply_slots limit fuel slots df = Ret df' ->
    forall r, In r df' -> In r df.
Proof.
  induction slots as [|[key val] slots IH]; intros df df'; simpl.
  - intros [= <-]. auto.
  - destruct (is_none val || is_str val "null"); [apply IH|].
    unfold bind.
    destruct (apply_filter limit fuel key val df) as [df1| |] eqn:E;
      try discriminate.
    intros H r Hr. eapply apply_filter_rows; eauto.
Qed.


End Queries.

End QueryFacts.

Module QuerySpec.

Import Catalog ExtractFacts AdaptiveFacts FilterFacts QueryFacts.

(** *** A small catalog *)

Definition rated_beer (i : Z) (name : string) (abv rating : option Q) : beer :=
  mkBeer i (Some name) None (Some "Ale") (Some "Brewery") None abv
         (Some 15%Q) (Some 25%Q) rating None None.

Definition shelf : frame :=
  [ rated_beer 1 "amber" (Some (45 # 10)%Q) (Some 3%Q);
    rated_beer 2 "bitter" (Some (495 # 100)%Q) None;
    rated_beer 3 "cream" (Some (62 # 10)%Q) (Some 4%Q) ].

Definition shelf_dataset : BeerDataset := mkDataset shelf 3 shelf.



Lemma firstn_split {A} (n : nat) (l : list A) :
  exists rest, l = firstn n l ++ rest /\ length (firstn n l) = Nat.min n (length l).
Proof.
  exists (skipn n l). split.
  - symmetry. apply firstn_skipn.
  - apply length_firstn.
Qed.

Lemma filter_by_intent_returns (RT : Runtime) (fuel : nat) (ds : BeerDataset)
      (slots : PyDict.t value) (intent : string) (res : option frame) :
  filter_by_intent fuel ds slots intent = Ret res ->
  exists df,
    apply_slots (_limit ds) fuel slots (data ds) = Ret df
    /\ res = if is_empty df then None
             else Some (firstn 5 (if intent =? "get_top_rated"
                                  then sort_by_rating df else df)).
Proof.
  unfold filter_by_intent, bind.
  destruct (apply_slots (_limit ds) fuel slots (data ds)) as [df| |];
    try discriminate.
  intros H. exists df. split; auto. cbv zeta in H.
  destruct (is_empty df); injection H as <-; reflexivity.
Qed.

(** X3.  [filter_by_intent] returns only rows the slot filters kept.  When
    it returns, the filters have returned a frame of catalog rows; it returns
    nothing exactly when that frame is empty, and otherwise it returns
    between one and five rows, min(5, size of the frame) of them, every one
    a row of the frame (its first five when the intent is not
    [get_top_rated]). *)
Theorem query_result_is_bounded_selection :
  forall (RT : Runtime) (fuel : nat) (ds : BeerDataset)
         (slots : PyDict.t value) (intent : string),
    (forall res,
        filter_by_intent fuel ds slots intent = Ret res ->
        exists df,
          apply_slots (_limit ds) fuel slots (data ds) = Ret df
          /\ (forall r, In r df -> In r (data ds))
          /\ match res with
             | None => df = []
             | Some rows =>
                 df <> [] /\ rows <> [] /\ length rows <= 5
                 /\ length rows = Nat.min 5 (length df)
                 /\ (forall r, In r rows -> In r df)
                 /\ (intent <> "get_top_rated" -> rows = firstn 5 df)
             end)
    /\ (apply_slots (_limit ds) fuel slots (data ds) = Ret [] ->
        filter_by_intent fuel ds slots intent = Ret None)
    /\ (forall df,
           apply_slots (_limit ds) fuel slots (data ds) = Ret df ->
           df <> [] ->
           exists rows, filter_by_intent fuel ds slots intent = Ret (Some rows)).
Proof.
  intros RT fuel ds slots intent. split; [|split].
  - intros res H.
    apply filter_by_intent_returns in H. destruct H as [df [E ->]].
    exists df. split; auto. split.
    { intros r. now apply (apply_slots_rows _ _ _ _ E). }
    destruct (is_empty df) eqn:Ee.
    + now apply is_empty_nil in Ee.
    + apply is_empty_false in Ee.
      match goal with |- context [firstn 5 ?x] => set (df' := x) in * end.
      assert (Htop : intent <> "get_top_rated" -> df' = df).
      { intros Hne. subst df'. destruct (intent =? "get_top_rated") eqn:Et; auto.
        apply String.eqb_eq in Et. contradiction. }
      assert (Hperm : Permutation df' df).
      { subst df'. destruct (intent =? "get_top_rated"); auto.
        apply sort_by_rating_perm. }
      assert (Hlen : length (firstn 5 df') = Nat.min 5 (length df)).
      { rewrite length_firstn. f_equal. now apply Permutation_length. }
      clearbody df'. split; auto. split; [|split; [|split; [|split]]].
      * intros H. destruct df' as [|a l]; [|discriminate].
        apply Permutation_nil in Hperm. contradiction.
      * rewrite Hlen. apply Nat.le_min_l.
      * exact Hlen.
      * intros r Hr. apply in_firstn in Hr.
        now apply (Permutation_in _ Hperm).
      * intros Hne. now rewrite (Htop Hne).
  - intros E. unfold filter_by_intent, bind. now rewrite E.
  - intros df E Hne. unfold filter_by_intent, bind. rewrite E.
    destruct df; [contradiction|]. simpl. eauto.
Qed.

(** The weak beers of the shelf: the filter keeps one row, and that row is
    returned. *)
Lemma query_result_is_bounded_selection_witness :
  exists df,
    apply_slots (RT := Demo.runtime) 3 0 [("abv", VStr "low")] (data shelf_dataset)
    = Ret df
    /\ (forall r, In r df -> In r (data shelf_dataset))
    /\ df <> []
    /\ [rated_beer 1 "amber" (Some (45 # 10)%Q) (Some 3%Q)] <> []
    /\ length [rated_beer 1 "amber" (Some (45 # 10)%Q) (Some 3%Q)] <= 5
    /\ length [rated_beer 1 "amber" (Some (45 # 10)%Q) (Some 3%Q)]
       = Nat.min 5 (length df)
    /\ (forall r, In r [rated_beer 1 "amber" (Some (45 # 10)%Q) (Some 3%Q)] ->
                  In r df)
    /\ ("get_beer_recommendation" <> "get_top_rated" ->
        [rated_beer 1 "amber" (Some (45 # 10)%Q) (Some 3%Q)] = firstn 5 df).
Proof.
  apply (proj1 (@query_result_is_bounded_selection
                  Demo.runtime 0 shelf_dataset [("abv", VStr "low")]
                  "get_beer_recommendation")
               (Some [rated_beer 1 "amber" (Some (45 # 10)%Q) (Some 3%Q)])).
  vm_compute. reflexivity.
Defined.



(** X5.  For [get_top_rated] the rows returned are the head of the filtered
    rows put in descending order of rating: each returned row is rated at
    least as high as every row returned after it and as every filtered row
    left out, the rows without a rating coming last; the filtered rows are
    only reordered, and five are returned when there are five. *)
Theorem top_rated_is_descending :
  forall (RT : Runtime) (fuel : nat) (ds : BeerDataset)
         (slots : PyDict.t value) (rows : frame),
    filter_by_intent fuel ds slots "get_top_rated" = Ret (Some rows) ->
    exists df rest,
      apply_slots (_limit ds) fuel slots (data ds) = Ret df
      /\ Permutation (rows ++ rest) df
      /\ descending (rows ++ rest)
      /\ length rows = Nat.min 5 (length df).
Proof.
  intros RT fuel ds slots rows H.
  apply filter_by_intent_returns in H. destruct H as [df [E H]].
  destruct (is_empty df); [discriminate|].
  rewrite String.eqb_refl in H. apply (f_equal (fun o => match o with Some x => x | None => [] end)) in H.
  cbv beta iota in H. subst rows.
  destruct (firstn_split 5 (sort_by_rating df)) as [rest [Hs Hl]].
  exists df, rest. split; auto. rewrite <- Hs. split; [|split].
  - apply sort_by_rating_perm.
  - apply sort_by_rating_descending.
  - rewrite Hl. f_equal. apply Permutation_length, sort_by_rating_perm.
Qed.

(** The shelf by rating: "cream" (4), "amber" (3), then the unrated
    "bitter". *)
Lemma top_rated_is_descending_witness :
  exists df rest,
    apply_slots (RT := Demo.runtime) 3 0 [] (data shelf_dataset) = Ret df
    /\ Permutation
         ([rated_beer 3 "cream" (Some (62 # 10)%Q) (Some 4%Q);
           rated_beer 1 "amber" (Some (45 # 10)%Q) (Some 3%Q);
           rated_beer 2 "bitter" (Some (495 # 100)%Q) None] ++ rest) df
    /\ descending
         ([rated_beer 3 "cream" (Some (62 # 10)%Q) (Some 4%Q);
           rated_beer 1 "amber" (Some (45 # 10)%Q) (Some 3%Q);
           rated_beer 2 "bitter" (Some (495 # 100)%Q) None] ++ rest)
    /\ length [rated_beer 3 "cream" (Some (62 # 10)%Q) (Some 4%Q);
               rated_beer 1 "amber" (Some (45 # 10)%Q) (Some 3%Q);
               rated_beer 2 "bitter" (Some (495 # 100)%Q) None]
       = Nat.min 5 (length df).
Proof.
  apply (@top_rated_is_descending Demo.runtime 0 shelf_dataset [] _).
  vm_compute. reflexivity.
Defined.


Ltac q_order :=
  unfold Qlt, Qle in *; simpl in *; lia.

(** X6.  The strength filter keeps the rows whose ABV is a number in the
    closed interval of the level: [0, 4.9] for "low", [5, 7.9] for "medium",
    [8, 100] for "high", and [0, 100] for any other text.  The three named
    bands leave gaps: a beer whose ABV lies strictly between 4.9 and 5, or
    between 7.9 and 8, is returned for none of them.  A level that is a list
    or a dict raises. *)
Theorem abv_bands_leave_gaps :
  forall (RT : Runtime) (data : frame),
    (forall level, exists rows,
        _filter_by_abv (VStr level) data = Ret rows
        /\ forall r, In r rows
                     <-> In r data
                         /\ abv_within (fst (abv_bounds level))
                                       (snd (abv_bounds level)) r)
    /\ (abv_bounds "low" = (0, 49 # 10)
        /\ abv_bounds "medium" = (5, 79 # 10)
        /\ abv_bounds "high" = (8, 100)
        /\ forall level, In level ["low"; "medium"; "high"]
                         \/ abv_bounds level = (0, 100))%Q
    /\ (forall level rows r x,
           In level ["low"; "medium"; "high"] ->
           _filter_by_abv (VStr level) data = Ret rows ->
           ABV r = Some x ->
           ((49 # 10 < x)%Q /\ (x < 5)%Q) \/ ((79 # 10 < x)%Q /\ (x < 8)%Q) ->
           ~ In r rows)
    /\ (forall l, _filter_by_abv (VList l) data = Raise TypeError)
    /\ (forall d, _filter_by_abv (VDict d) data = Raise TypeError).
Proof.
  intros RT data. split; [|split; [|split; [|split]]].
  - intros level. eexists. split; [apply abv_text|].
    intros r. apply in_abv_text. apply abv_text.
  - repeat split.
    intros level. destruct (abv_bounds_cases level) as [H|[H|[H|H]]];
      subst; simpl; auto.
  - intros level rows r x Hl Hrows Hx Hgap Hin.
    apply (in_abv_text _ _ r Hrows) in Hin.
    destruct Hin as [_ [y [Hy [H1 H2]]]].
    rewrite Hx in Hy. injection Hy as <-.
    destruct Hl as [<-|[<-|[<-|[]]]]; simpl in H1, H2;
      destruct Hgap as [[G1 G2]|[G1 G2]]; q_order.
  - reflexivity.
  - reflexivity.
Qed.

(** X7.  The bitterness filter keeps the rows whose IBU range, both ends
    numeric, meets the closed interval of the level: [0, 20] for "low",
    [21, 60] for "medium", [61, 120] for "high", [0, 120] for any other
    text.  It is an overlap test: a beer whose range runs from at most 20 to
    at least 21 is returned for "low" and for "medium" alike, and a beer
    whose range lies strictly between 20 and 21 for neither. *)
Theorem ibu_filter_is_overlap :
  forall (RT : Runtime) (data : frame),
    (forall level, exists rows,
        _filter_by_ibu (VStr level) data = Ret rows
        /\ forall r, In r rows
                     <-> In r data
                         /\ ibu_meets (fst (ibu_ranges level))
                                      (snd (ibu_ranges level)) r)
    /\ (ibu_ranges "low" = (0, 20)
        /\ ibu_ranges "medium" = (21, 60)
        /\ ibu_ranges "high" = (61, 120)
        /\ forall level, In level ["low"; "medium"; "high"]
                         \/ ibu_ranges level = (0, 120))%Q
    /\ (forall low medium r mn mx,
           _filter_by_ibu (VStr "low") data = Ret low ->
           _filter_by_ibu (VStr "medium") data = Ret medium ->
           In r data -> Min_IBU r = Some mn -> Max_IBU r = Some mx ->
           ((mn <= 20)%Q /\ (21 <= mx)%Q -> In r low /\ In r medium)
           /\ ((20 < mn)%Q /\ (mx < 21)%Q -> ~ In r low /\ ~ In r medium)).
Proof.
  intros RT data. split; [|split].
  - intros level. eexists. split; [apply ibu_text|].
    intros r. apply in_ibu_text. apply ibu_text.
  - repeat split.
    intros level. destruct (ibu_ranges_cases level) as [H|[H|[H|H]]];
      subst; simpl; auto.
  - intros low medium r mn mx Hlow Hmed Hin Hmn Hmx. split.
    + intros (H1 & H2). split.
      * apply (in_ibu_text _ _ r Hlow). split; auto.
        exists mn, mx. simpl. repeat split; auto. q_order.
      * apply (in_ibu_text _ _ r Hmed). split; auto.
        exists mn, mx. simpl. repeat split; auto. q_order.
    + intros (H1 & H2). split; intros H.
      * apply (in_ibu_text _ _ r Hlow) in H.
        destruct H as [_ (a & b & Ha & Hb & G1 & G2)].
        rewrite Hmn in Ha. rewrite Hmx in Hb.
        injection Ha as <-. injection Hb as <-. simpl in G1, G2. q_order.
      * apply (in_ibu_text _ _ r Hmed) in H.
        destruct H as [_ (a & b & Ha & Hb & G1 & G2)].
        rewrite Hmn in Ha. rewrite Hmx in Hb.
        injection Ha as <-. injection Hb as <-. simpl in G1, G2. q_order.
Qed.


Lemma filter_filter {A} (f g : A -> bool) (l : list A) :
  filter f (filter g l) = filter (fun x => g x && f x) l.
Proof.
  induction l as [|a l IH]; simpl; auto.
  destruct (g a); simpl; [destruct (f a)|]; now rewrite IH.
Qed.

(** X8.  The strength and the bitterness filters test each row on its own,
    so they commute and each is idempotent: with text levels, filtering by
    ABV then IBU gives the same rows, in the same order, as IBU then ABV,
    and filtering twice by the same level is filtering once. *)
Theorem abv_ibu_filters_commute :
  forall (RT : Runtime) (a b : string) (data : frame),
    (x <- _filter_by_abv (VStr a) data ;; _filter_by_ibu (VStr b) x)
    = (y <- _filter_by_ibu (VStr b) data ;; _filter_by_abv (VStr a) y)
    /\ (x <- _filter_by_abv (VStr a) data ;; _filter_by_abv (VStr a) x)
       = _filter_by_abv (VStr a) data
    /\ (y <- _filter_by_ibu (VStr b) data ;; _filter_by_ibu (VStr b) y)
       = _filter_by_ibu (VStr b) data.
Proof.
  intros RT a b data.
  rewrite (abv_text a data), (ibu_text b data). unfold bind.
  rewrite !abv_text, !ibu_text. rewrite !filter_filter.
  split; [|split]; f_equal; apply filter_ext; intros r;
    destruct (ABV r), (Min_IBU r), (Max_IBU r); simpl;
    repeat match goal with
           | |- context [Qle_bool ?x ?y] => destruct (Qle_bool x y); simpl
           end; reflexivity.
Qed.

(** A catalog of one stout. *)
Definition keg : beer :=
  mkBeer 7 (Some "imperial") None (Some "stout") (Some "Brewery") None None
         None None None None None.

(** X9.  The style filter never returns an empty frame: whenever it returns,
    it returns at least one row; every row it returns is a row of the frame
    it was given, and its style is one that the substring pass or the fuzzy
    pass selected. *)
Theorem style_filter_returns_rows :
  forall (RT : Runtime) (query : string) (data rows : frame),
    _filter_by_style (VStr query) data = Ret rows ->
    rows <> []
    /\ forall r, In r rows ->
                 In r data
                 /\ (isin (Style r) (substr_styles_of query data) = true
                     \/ isin (Style r) (fuzzy_styles_of query data) = true).
Proof.
  intros RT query data rows. apply style_rows.
Qed.

Lemma style_filter_returns_rows_witness :
  _filter_by_style (RT := Demo.runtime) (VStr "stout") [keg] = Ret [keg]
  /\ [keg] <> []
  /\ forall r, In r [keg] ->
               In r [keg]
               /\ (isin (Style r)
                        (substr_styles_of (RT := Demo.runtime) "stout" [keg]) = true
                   \/ isin (Style r)
                           (fuzzy_styles_of (RT := Demo.runtime) "stout" [keg]) = true).
Proof.
  split; [vm_compute; reflexivity|].
  apply (@style_filter_returns_rows Demo.runtime "stout" [keg] [keg]).
  vm_compute. reflexivity.
Defined.


End QuerySpec.

(** ** The rating submission, again *)

Module SubmissionFacts.

Import Catalog RatingFacts.

(** The cells of a row that come from the catalog file, that is all but the
    user's rating and comment. *)
Definition columns (r : beer) :=
  (Id r, Name r, Beer_Full_Name r, Style r, Brewery r, Description r,
   ABV r, Min_IBU r, Max_IBU r, Rating r).

Section Submission.

Context {RT : Runtime}.

Lemma rate_row_columns (m : string) (cell : scalar) (comment : value) (r : beer) :
  columns (rate_row m cell comment r) = columns r.
Proof.
  unfold rate_row. destruct (named m r); auto.
  destruct (truthy comment); reflexivity.
Qed.

Lemma rate_row_name (m : string) (cell : scalar) (comment : value) (r : beer) :
  Name (rate_row m cell comment r) = Name r.
Proof.
  pose proof (rate_row_columns m cell comment r) as H.
  unfold columns in H. congruence.
Qed.

Lemma rate_row_twice (m : string) (cell : scalar) (comment : value) (r : beer) :
  rate_row m cell comment (rate_row m cell comment r) = rate_row m cell comment r.
Proof.
  unfold rate_row. destruct (named m r) eqn:E; [|now rewrite E].
  destruct (truthy comment); unfold named in *; simpl; rewrite E; reflexivity.
Qed.

Lemma names_rated (m : string) (cell : scalar) (comment : value) (d : frame) :
  map Name (map (rate_row m cell comment) d) = map Name d.
Proof.
  rewrite map_map. apply map_ext. intros r. apply rate_row_name.
Qed.

Lemma best_match_names (name : string) (d d' : frame) :
  map Name d = map Name d' -> best_match name d = best_match name d'.
Proof. unfold best_match. now intros ->. Qed.

Lemma filter_named_rated (m m' : string) (cell : scalar) (comment : value)
      (d : frame) :
  filter (named m') (map (rate_row m cell comment) d)
  = map (rate_row m cell comment) (filter (named m') d).
Proof.
  induction d as [|r d IH]; simpl; auto.
  assert (E : named m' (rate_row m cell comment r) = named m' r).
  { unfold named. now rewrite rate_row_name. }
  rewrite E. destruct (named m' r); simpl; now rewrite IH.
Qed.

(** The shape of every return of [record_user_rating]. *)
Lemma record_cases (ds : BeerDataset) (slots : PyDict.t value)
      (p : option rating_payload) (ds' : BeerDataset) :
  record_user_rating ds slots = Ret (p, ds') ->
  (p = None /\ ds' = ds)
  \/ exists name m cell first rest,
      PyDict.get_or_none "name" slots = VStr name
      /\ best_match name (data ds) = Some m
      /\ filter (named m) (data ds) = first :: rest
      /\ to_scalar (PyDict.get_or_none "rating" slots) = Some cell
      /\ p = Some (mkPayload
                     (Name (rate_row m cell (PyDict.get_or_none "comment" slots) first))
                     (Brewery (rate_row m cell (PyDict.get_or_none "comment" slots) first))
                     (PyDict.get_or_none "rating" slots)
                     (PyDict.get_or_none "comment" slots))
      /\ ds' = mkDataset
                 (map (rate_row m cell (PyDict.get_or_none "comment" slots)) (data ds))
                 (_limit ds)
                 (map (rate_row m cell (PyDict.get_or_none "comment" slots)) (data ds)).
Proof.
  unfold record_user_rating.
  destruct (is_none (PyDict.get_or_none "name" slots)
            || is_none (PyDict.get_or_none "rating" slots)) eqn:Enull.
  { intros [= <- <-]. auto. }
  destruct (PyDict.get_or_none "name" slots) as [| | |name| |] eqn:En;
    try discriminate.
  destruct (best_match name (data ds)) as [m|] eqn:Eb;
    [|intros [= <- <-]; auto].
  destruct (filter (named m) (data ds)) as [|first rest] eqn:Ef;
    [intros [= <- <-]; auto|].
  destruct (to_scalar (PyDict.get_or_none "rating" slots)) as [cell|] eqn:Ec;
    [|discriminate].
  intros [= <- <-]. right. exists name, m, cell, first, rest.
  repeat split; auto.
Qed.

End Submission.

End SubmissionFacts.

Module SubmissionSpec.

Import Catalog RatingFacts SubmissionFacts.

(** A catalog of two rows with the same name and one other. *)
Definition bottle (i : Z) (name brewery : string) : beer :=
  mkBeer i (Some name) None None (Some brewery) None None None None None
         None None.

Definition cellar : BeerDataset :=
  mkDataset [bottle 1 "saison" "north"; bottle 2 "porter" "south";
             bottle 3 "saison" "west"] 3 [].

Definition saison_slots : PyDict.t value :=
  [("name", VStr "saison"); ("rating", VNum 4); ("comment", VStr "dry")].

(** X10.  A rating submission never adds, drops or reorders rows and never
    changes a cell that comes from the catalog file (only user ratings and
    user comments are written), and it leaves the fuzzy-match limit as it
    was.  When it returns no payload the dataset is untouched, disk
    included; when it returns one, the table on disk is the table in
    memory. *)
Theorem submission_keeps_the_catalog :
  forall (RT : Runtime) (ds ds' : BeerDataset) (slots : PyDict.t value)
         (p : option rating_payload),
    record_user_rating ds slots = Ret (p, ds') ->
    map columns (data ds') = map columns (data ds)
    /\ length (data ds') = length (data ds)
    /\ _limit ds' = _limit ds
    /\ (p = None -> ds' = ds)
    /\ (p <> None -> disk ds' = data ds').
Proof.
  intros RT ds ds' slots p H. apply record_cases in H.
  destruct H as [[-> ->]|(name & m & cell & first & rest & _ & _ & _ & _ & -> & ->)].
  - repeat split; auto. congruence.
  - simpl. repeat split.
    + rewrite map_map. apply map_ext. intros r. apply rate_row_columns.
    + apply length_map.
    + discriminate.
Qed.

Lemma submission_keeps_the_catalog_witness :
  exists p ds',
    record_user_rating (RT := Demo.runtime) cellar saison_slots = Ret (p, ds')
    /\ map columns (data ds') = map columns (data cellar)
    /\ length (data ds') = length (data cellar)
    /\ _limit ds' = _limit cellar
    /\ (p = None -> ds' = cellar)
    /\ (p <> None -> disk ds' = data ds').
Proof.
  eexists. eexists. split; [vm_compute; reflexivity|].
  apply (@submission_keeps_the_catalog Demo.runtime cellar _ saison_slots _).
  vm_compute. reflexivity.
Defined.

(** X11.  A rating submission is idempotent: submitting the same slots again
    on the dataset the first submission left returns the same payload and
    leaves that dataset as it is (a repeated rating overwrites, it does not
    accumulate). *)
Theorem submission_is_idempotent :
  forall (RT : Runtime) (ds ds' : BeerDataset) (slots : PyDict.t value)
         (p : option rating_payload),
    record_user_rating ds slots = Ret (p, ds') ->
    record_user_rating ds' slots = Ret (p, ds').
Proof.
  intros RT ds ds' slots p H. pose proof H as H0. apply record_cases in H.
  destruct H as [[-> ->]|(name & m & cell & first & rest & Hn & Hb & Hf & Hc & -> & ->)];
    [exact H0|].
  unfold record_user_rating. rewrite Hn, Hc. simpl data. simpl _limit.
  rewrite (@best_match_names RT name _ _
             (names_rated m cell (PyDict.get_or_none "comment" slots) (data ds))),
    Hb.
  rewrite filter_named_rated, Hf. cbn [map].
  rewrite map_map.
  rewrite (map_ext _ _ (fun r => rate_row_twice m cell
                                   (PyDict.get_or_none "comment" slots) r)).
  rewrite rate_row_twice.
  destruct (PyDict.get_or_none "rating" slots); try discriminate; reflexivity.
Qed.

Lemma submission_is_idempotent_witness :
  exists p ds',
    record_user_rating (RT := Demo.runtime) cellar saison_slots = Ret (p, ds')
    /\ record_user_rating (RT := Demo.runtime) ds' saison_slots = Ret (p, ds').
Proof.
  eexists. eexists. split; [vm_compute; reflexivity|].
  apply (@submission_is_idempotent Demo.runtime cellar _ saison_slots _).
  vm_compute. reflexivity.
Defined.

End SubmissionSpec.

(** ** The slot tracker, again *)

Module SlotFacts.

Import PyDict Tracker PyDictFacts TrackerFacts AdaptiveFacts.

Lemma get_in {V} (k : string) (v : V) (d : PyDict.t V) :
  get k d = Some v -> In (k, v) d.
Proof.
  induction d as [|[k' v'] d IH]; simpl; [discriminate|].
  destruct (k' =? k) eqn:E; auto.
  apply String.eqb_eq in E. intros [= ->]. left. now subst.
Qed.

Lemma get_none {V} (k : string) (d : PyDict.t V) :
  get k d = None <-> ~ In k (keys d).
Proof.
  rewrite get_some_in_keys. destruct (get k d) as [v|]; split.
  - discriminate.
  - intros H. exfalso. apply H. eauto.
  - intros _ [w H]. discriminate.
  - reflexivity.
Qed.

Lemma in_get {V} (k : string) (v : V) (d : PyDict.t V) :
  NoDup (keys d) -> In (k, v) d -> get k d = Some v.
Proof.
  unfold keys. induction d as [|[k' v'] d IH]; simpl; [tauto|].
  intros Hn [H|H].
  - injection H as -> ->. now rewrite String.eqb_refl.
  - inversion Hn as [|? ? Hk Hd]; subst.
    destruct (k' =? k) eqn:E; auto.
    apply String.eqb_eq in E. subst. exfalso. apply Hk.
    apply in_map_iff. exists (k, v). auto.
Qed.

Lemma keys_set {V} (k : string) (v : V) (d : PyDict.t V) :
  keys (set k v d) = if mem_str k (keys d) then keys d else keys d ++ [k].
Proof.
  unfold keys, mem_str. induction d as [|[k' v'] d IH]; simpl; auto.
  rewrite (String.eqb_sym k k'). destruct (k' =? k); simpl; auto.
  rewrite IH. destruct (existsb _ _); reflexivity.
Qed.

Lemma nodup_keys_set {V} (k : string) (v : V) (d : PyDict.t V) :
  NoDup (keys d) -> NoDup (keys (set k v d)).
Proof.
  intros H. rewrite keys_set. destruct (mem_str k (keys d)) eqn:E; auto.
  apply NoDup_app; auto.
  - constructor; [tauto|constructor].
  - intros a Ha [<-|[]]. apply mem_str_in in Ha. congruence.
Qed.

Lemma nodup_keys_writes (ws : list (string * value)) :
  forall s, NoDup (keys s) -> NoDup (keys (fold_left write ws s)).
Proof.
  induction ws as [|w ws IH]; intros s H; simpl; auto.
  apply IH. now apply nodup_keys_set.
Qed.

(** Two dictionaries with the same keys in the same order, no key twice,
    and the same value under every key are the same dictionary. *)
Lemma dict_ext {V} (d1 : PyDict.t V) :
  forall d2,
    keys d1 = keys d2 -> NoDup (keys d1) ->
    (forall k, get k d1 = get k d2) -> d1 = d2.
Proof.
  unfold keys. induction d1 as [|[k1 v1] d1 IH]; intros [|[k2 v2] d2]; simpl;
    try discriminate; auto.
  intros [= <- Hk] Hn Hg. inversion Hn as [|? ? Hfresh Hn']; subst.
  pose proof (Hg k1) as H1. simpl in H1. rewrite String.eqb_refl in H1.
  injection H1 as <-. f_equal. apply IH; auto.
  intros k. specialize (Hg k). simpl in Hg.
  destruct (k1 =? k) eqn:E; auto.
  apply String.eqb_eq in E. subst k.
  assert (G1 : get k1 d1 = None) by now apply get_none.
  assert (G2 : get k1 d2 = None).
  { apply get_none. unfold keys. now rewrite <- Hk. }
  congruence.
Qed.

Lemma nodup_static (intent : string) : NoDup (static_slots intent).
Proof.
  unfold static_slots, intent_slots. simpl.
  repeat match goal with
         | |- context [if ?b then _ else _] => destruct b
         end;
    repeat (constructor; [simpl; intuition discriminate|]); constructor.
Qed.

(** Writes to keys that are all new, each once, append them in order. *)
Lemma keys_writes_fresh (ws : list (string * value)) :
  forall s,
    NoDup (keys s ++ map fst ws) ->
    keys (fold_left write ws s) = keys s ++ map fst ws.
Proof.
  induction ws as [|[k v] ws IH]; intros s H; simpl.
  - now rewrite app_nil_r.
  - assert (Hk : keys (write s (k, v)) = keys s ++ [k]).
    { unfold write. simpl. rewrite keys_set.
      destruct (mem_str k (keys s)) eqn:E; auto.
      apply mem_str_in in E. exfalso.
      apply NoDup_remove_2 in H. apply H. apply in_or_app. now left. }
    rewrite IH; rewrite Hk, <- app_assoc; auto.
Qed.

Lemma get_rev {V} (k : string) (d : PyDict.t V) :
  NoDup (keys d) -> get k (rev d) = get k d.
Proof.
  intros Hn.
  assert (Hr : NoDup (keys (rev d))).
  { unfold keys. rewrite map_rev. now apply NoDup_rev. }
  destruct (get k d) as [v|] eqn:E.
  - apply in_get; auto. apply in_rev. rewrite rev_involutive.
    now apply get_in.
  - apply get_none. apply get_none in E. intros H. apply E.
    unfold keys in *. rewrite map_rev in H. now apply in_rev in H.
Qed.

(** What [serialize] writes for a slot value. *)
Definition render (v : value) : value := if is_none v then VStr "null" else v.

Lemma normalize_render (v : value) : v <> VStr "null" -> normalize (render v) = v.
Proof.
  intros H. unfold render. destruct v; simpl; auto.
  destruct (normalize_cases (VStr s)) as [[_ [E|E]]|[E _]]; congruence.
Qed.

Lemma keys_writes_extend (ws : list (string * value)) :
  forall s, exists added, keys (fold_left write ws s) = keys s ++ added.
Proof.
  induction ws as [|[k v] ws IH]; intros s; simpl.
  - exists []. now rewrite app_nil_r.
  - destruct (IH (write s (k, v))) as [added E]. rewrite E.
    unfold write. simpl. rewrite keys_set.
    destruct (mem_str k (keys s)); [eauto|].
    exists ([k] ++ added). now rewrite app_assoc.
Qed.

(** Writing the rendered slots of [d] over a dictionary whose keys are a
    prefix of the keys of [d] gives [d] back. *)
Lemma restore (s d : PyDict.t value) (added : list string) :
  NoDup (keys d) ->
  keys d = keys s ++ added ->
  (forall k, get k d <> Some (VStr "null")) ->
  (forall k, get k d = None -> get k s = None) ->
  fold_left write (map (fun kv => (fst kv, render (snd kv))) d) s = d.
Proof.
  intros Hn Hk Hnull Hs.
  set (safe := map (fun kv => (fst kv, render (snd kv))) d).
  assert (Hsafe : map fst safe = keys d).
  { subst safe. unfold keys. rewrite map_map. reflexivity. }
  assert (Hkeys : keys (fold_left write safe s) = keys d).
  { pose proof Hsafe as Hsplit. rewrite Hk in Hsplit.
    apply map_eq_app in Hsplit. destruct Hsplit as (s1 & s2 & E & H1 & H2).
    rewrite E, fold_left_app.
    assert (K1 : keys (fold_left write s1 s) = keys s).
    { apply keys_writes_present. intros k Hin. now rewrite H1 in Hin. }
    rewrite keys_writes_fresh; rewrite K1, H2; auto.
    now rewrite <- Hk. }
  apply dict_ext; auto.
  - now rewrite Hkeys.
  - intros k. rewrite get_writes, get_rev by (unfold keys in *; now rewrite Hsafe).
    subst safe. rewrite get_map.
    destruct (get k d) as [v|] eqn:E; simpl.
    + f_equal. apply normalize_render. intros ->. now apply (Hnull k).
    + now apply Hs.
Qed.


End SlotFacts.

Module SlotSpec.

Import PyDict Tracker PyDictFacts TrackerFacts SlotFacts.

(** X12.  Within one observation the last write to a slot wins and a slot the
    observation does not write keeps its value: after [update], a slot holds
    the normalized value of the last entry for it among the observation's
    nested dictionaries, or what it held before when there is none.  The
    intent is never changed, and the text returned is the serialization of
    the updated tracker. *)
Theorem last_write_wins :
  forall (t : StateTracker) (nlu_input : observation) (k : string),
    get k (slots (fst (update t nlu_input)))
    = match get k (rev (writes (fields nlu_input))) with
      | Some v => Some (normalize v)
      | None => get k (slots t)
      end
    /\ intent (fst (update t nlu_input)) = intent t
    /\ snd (update t nlu_input) = serialize (fst (update t nlu_input)).
Proof.
  intros t nlu_input k. simpl. split; [|split]; auto.
  rewrite update_slots_writes. apply get_writes.
Qed.

(** X13.  Serialization and update round-trip.  For every tracker the code
    can build (a new tracker for any intent, after any observations), the
    document [serialize] dumps, read back as an observation, restores the
    tracker: merged into a new tracker of the same intent it gives the same
    tracker, keys in the same order, and merged into the tracker itself it
    changes nothing. *)
Theorem serialized_state_restores :
  forall (intent : string) (obs : list observation),
  exists safe,
    serialize (merge_all (new intent) obs)
    = VDict [("intent", VStr intent); ("slots", VDict safe)]
    /\ fst (update (new intent) (mkObs intent [("slots", VDict safe)]))
       = merge_all (new intent) obs
    /\ fst (update (merge_all (new intent) obs)
                   (mkObs intent [("slots", VDict safe)]))
       = merge_all (new intent) obs.
Proof.
  intros intent obs.
  set (t := merge_all (new intent) obs).
  assert (Hi : Tracker.intent t = intent) by apply merge_all_intent.
  assert (Hs : slots t = fold_left write (all_writes obs) (_initialize_slots intent))
    by apply merge_all_slots.
  assert (Hn : NoDup (keys (slots t))).
  { rewrite Hs. apply nodup_keys_writes. rewrite keys_initialize.
    apply nodup_static. }
  assert (Hnull : forall k, get k (slots t) <> Some (VStr "null")).
  { intros k. rewrite Hs. apply writes_never_store_null.
    intros k0 H. apply values_initialize in H. discriminate. }
  destruct (keys_writes_extend (all_writes obs) (_initialize_slots intent))
    as [added Hk].
  rewrite <- Hs in Hk.
  exists (map (fun kv => (fst kv, render (snd kv))) (slots t)).
  split; [|split].
  - unfold serialize. rewrite Hi. reflexivity.
  - unfold update. cbv zeta. cbn [fst fields]. rewrite update_slots_writes.
    unfold writes. cbn [flat_map snd]. rewrite app_nil_r.
    change (slots (new intent)) with (_initialize_slots intent).
    change (Tracker.intent (new intent)) with intent.
    rewrite (@restore (_initialize_slots intent) (slots t) added Hn Hk Hnull).
    + destruct t. simpl in *. now subst.
    + intros k H. apply get_none. apply get_none in H. intros Hin. apply H.
      rewrite Hk. apply in_or_app. now left.
  - unfold update. cbv zeta. cbn [fst fields]. rewrite update_slots_writes.
    unfold writes. cbn [flat_map snd]. rewrite app_nil_r.
    rewrite (@restore (slots t) (slots t) [] Hn (eq_sym (app_nil_r _)) Hnull).
    + destruct t. simpl in *. now subst.
    + auto.
Qed.

End SlotSpec.

(** ** A whole turn of the decision engine *)

Module TurnFacts.

Import PyDict Tracker DecisionEngine ValidityFacts EngineFacts RegistryFacts.
Import SubmissionFacts.

(** The action was emitted under the tag "confirmation". *)
Definition confirmed (d : decision) : bool := is_str (action d) "confirmation".

(** The positions, counted from [i], of the confirmed actions. *)
Fixpoint marks (i : nat) (acts : list decision) : list nat :=
  match acts with
  | [] => []
  | d :: r => if confirmed d then i :: marks (S i) r else marks (S i) r
  end.

(** The same rows in the same order with the same catalog cells, and the
    same limit. *)
Definition same_catalog (a b : Catalog.BeerDataset) : Prop :=
  map columns (Catalog.data b) = map columns (Catalog.data a)
  /\ Catalog._limit b = Catalog._limit a.

Lemma same_catalog_refl (a : Catalog.BeerDataset) : same_catalog a a.
Proof. split; reflexivity. Qed.

Lemma same_catalog_trans (a b c : Catalog.BeerDataset) :
  same_catalog a b -> same_catalog b c -> same_catalog a c.
Proof. intros [H1 H2] [H3 H4]. split; congruence. Qed.

Lemma marks_ge (acts : list decision) :
  forall i n, In n (marks i acts) -> i <= n.
Proof.
  induction acts as [|d r IH]; intros i n; simpl; [tauto|].
  destruct (confirmed d).
  - intros [<-|H]; auto. apply IH in H. lia.
  - intros H. apply IH in H. lia.
Qed.

Lemma marks_app (a b : list decision) :
  forall i, marks i (a ++ b) = marks i a ++ marks (i + length a) b.
Proof.
  induction a as [|d a IH]; intros i; simpl.
  - now rewrite Nat.add_0_r.
  - rewrite IH, Nat.add_succ_r. destruct (confirmed d); reflexivity.
Qed.

Lemma keep_from_skip (stack : list StateTracker) :
  forall j x remove,
    x < j -> keep_from j stack (x :: remove) = keep_from j stack remove.
Proof.
  induction stack as [|s stack IH]; intros j x remove Hlt; simpl; auto.
  assert (E : Nat.eqb j x = false) by (apply Nat.eqb_neq; lia).
  rewrite E. simpl. rewrite !IH by lia. reflexivity.
Qed.

Lemma existsb_marks (acts : list decision) (i : nat) :
  existsb (Nat.eqb i) (marks (S i) acts) = false.
Proof.
  destruct (existsb (Nat.eqb i) (marks (S i) acts)) eqn:E; auto.
  apply existsb_exists in E. destruct E as [n [Hn E]].
  apply Nat.eqb_eq in E. subst. apply marks_ge in Hn. lia.
Qed.

(** Removing the marked positions keeps the trackers whose action was not
    confirmed. *)
Lemma keep_marks (stack : list StateTracker) :
  forall acts i,
    length acts = length stack ->
    keep_from i stack (marks i acts)
    = map fst (filter (fun sa => negb (confirmed (snd sa))) (combine stack acts)).
Proof.
  induction stack as [|s stack IH]; intros [|d acts] i; simpl; try discriminate;
    auto.
  intros [= Hl]. destruct (confirmed d) eqn:E; simpl.
  - rewrite Nat.eqb_refl. simpl. rewrite keep_from_skip by lia. now apply IH.
  - rewrite existsb_marks. simpl. f_equal. now apply IH.
Qed.

Lemma keep_from_intents (stack : list StateTracker) (remove : list nat) :
  forall i,
    NoDup (map intent stack) ->
    NoDup (map intent (keep_from i stack remove)).
Proof.
  induction stack as [|s stack IH]; intros i; simpl; auto.
  intros Hn. inversion Hn as [|? ? Hs Hn']; subst.
  destruct (existsb (Nat.eqb i) remove); simpl; auto.
  constructor; auto.
  intros Hin. apply Hs. apply in_map_iff in Hin.
  destruct Hin as (s' & E & Hin). apply in_keep_from in Hin.
  destruct Hin as (n & Hn0 & _). apply nth_error_In in Hn0.
  apply in_map_iff. eauto.
Qed.

(** The proposals the retry loops of a turn accept, tracker by tracker: the
    answers are consumed in order, whatever is done with each proposal. *)
Fixpoint proposals (eval : bool) (todo : list StateTracker)
         (script : list reply) : outcome (list (PyDict.t value)) :=
  match todo with
  | [] => Ret []
  | state :: todo' =>
      pr <- await_proposal eval state script ;;
      rest <- proposals eval todo' (snd pr) ;;
      Ret (fst pr :: rest)
  end.

(** A relation that holds position by position of three lists of one
    length. *)
Fixpoint all3 {A B C} (R : A -> B -> C -> Prop)
         (l1 : list A) (l2 : list B) (l3 : list C) : Prop :=
  match l1, l2, l3 with
  | [], [], [] => True
  | a :: l1', b :: l2', c :: l3' => R a b c /\ all3 R l1' l2' l3'
  | _, _, _ => False
  end.

Lemma all3_nth {A B C} (R : A -> B -> C -> Prop) (l1 : list A) :
  forall (l2 : list B) (l3 : list C) n a b,
    all3 R l1 l2 l3 ->
    nth_error l1 n = Some a -> nth_error l2 n = Some b ->
    exists c, nth_error l3 n = Some c /\ R a b c.
Proof.
  induction l1 as [|x l1 IH]; intros [|y l2] [|z l3] n a b; simpl; try tauto.
  - intros _ H. destruct n; discriminate.
  - intros [H Hall]. destruct n as [|n]; simpl.
    + intros [= <-] [= <-]. eauto.
    + now apply IH.
Qed.

Lemma all3_length {A B C} (R : A -> B -> C -> Prop) (l1 : list A) :
  forall (l2 : list B) (l3 : list C),
    all3 R l1 l2 l3 -> length l2 = length l1 /\ length l3 = length l1.
Proof.
  induction l1 as [|x l1 IH]; intros [|y l2] [|z l3]; simpl; try tauto.
  intros [_ H]. destruct (IH _ _ H). split; congruence.
Qed.

Lemma in_combine_nth {A B} (l1 : list A) :
  forall (l2 : list B) a b,
    In (a, b) (combine l1 l2)
    <-> exists n, nth_error l1 n = Some a /\ nth_error l2 n = Some b.
Proof.
  induction l1 as [|x l1 IH]; intros [|y l2] a b; simpl.
  - split; [tauto|]. intros [[|n] [H _]]; discriminate.
  - split; [tauto|]. intros [[|n] [H _]]; discriminate.
  - split; [tauto|]. intros [[|n] [_ H]]; discriminate.
  - rewrite IH. split.
    + intros [[= <- <-]|[n Hn]]; [exists 0|exists (S n)]; auto.
    + intros [[|n] [H1 H2]]; simpl in *.
      * left. congruence.
      * right. eauto.
Qed.

(** With one tracker per intent, the tracker at a position is kept by the
    final filter exactly when the action at that position is not
    confirmed. *)
Lemma kept_iff (stack : list StateTracker) (acts : list decision) (n : nat)
      (state : StateTracker) (d : decision) :
  NoDup (map intent stack) ->
  nth_error stack n = Some state ->
  nth_error acts n = Some d ->
  In state (map fst (filter (fun sa => negb (confirmed (snd sa)))
                            (combine stack acts)))
  <-> confirmed d = false.
Proof.
  intros Hn Hs Ha. rewrite in_map_iff. split.
  - intros [[s a] [E Hin]]. simpl in E. subst s.
    apply filter_In in Hin. destruct Hin as [Hin Hc]. simpl in Hc.
    apply in_combine_nth in Hin. destruct Hin as (m & H1 & H2).
    assert (m = n).
    { apply NoDup_map_inv in Hn.
      apply (proj1 (NoDup_nth_error stack) Hn).
      - apply nth_error_Some. congruence.
      - congruence. }
    subst m. rewrite Ha in H2. injection H2 as <-.
    now destruct (confirmed d).
  - intros Hc. exists (state, d). split; auto.
    apply filter_In. split.
    + apply in_combine_nth. eauto.
    + simpl. now rewrite Hc.
Qed.


Section Effects.

Context {RT : Runtime}.
Variable fuel : nat.

(** What one confirmation may do to the dataset. *)
Lemma handle_effect (ds ds' : Catalog.BeerDataset) (stack : list StateTracker)
      (nba : PyDict.t value) (r : option payload) :
  _handle_confirmation fuel ds stack nba = Ret (r, ds') ->
  same_catalog ds ds'
  /\ ((forall s, In s stack -> intent s <> "rate_beer") -> ds' = ds).
Proof.
  unfold _handle_confirmation, bind.
  destruct (subscript "parameter" nba) as [target| |]; try discriminate.
  destruct (find _ stack) as [target_state|] eqn:Ef.
  - apply find_some in Ef. destruct Ef as [Hin _].
    destruct (mem_str (get_intent target_state) query_intents).
    + destruct (Catalog.filter_by_intent _ _ _ _) as [res| |]; try discriminate.
      intros [= _ <-]. split; [apply same_catalog_refl|auto].
    + destruct (get_intent target_state =? "rate_beer") eqn:Er.
      * destruct (Catalog.record_user_rating ds (slots target_state))
          as [[p ds1]| |] eqn:Erec; try discriminate.
        simpl. intros [= _ <-]. split.
        -- apply record_cases in Erec.
           destruct Erec as [[_ ->]|(name & m & cell & first & rest & _ & _ & _ & _ & _ & ->)].
           ++ apply same_catalog_refl.
           ++ split; simpl; auto.
              rewrite map_map. apply map_ext. intros x. apply rate_row_columns.
        -- intros H. exfalso. apply (H _ Hin).
           now apply String.eqb_eq in Er.
      * destruct (get_intent target_state =? "out_of_context");
          intros [= _ <-]; (split; [apply same_catalog_refl|auto]).
  - intros [= _ <-]. split; [apply same_catalog_refl|auto].
Qed.

(** What one accepted proposal adds to the variables of the loop. *)
Lemma dispatch_effect (stack : list StateTracker) (idx : nat)
      (state : StateTracker) (parsed : PyDict.t value) (rest : list reply)
      (st st' : loop_state) :
  dispatch fuel stack idx state parsed rest st = Ret st' ->
  exists d,
    final_actions st' = final_actions st ++ [d]
    /\ remove_indices st' = remove_indices st ++ marks idx [d]
    /\ same_catalog (ds st) (ds st')
    /\ ((forall s, In s stack -> intent s <> "rate_beer") -> ds st' = ds st).
Proof.
  unfold dispatch, bind.
  destruct (subscript "action" parsed) as [act| |]; try discriminate.
  destruct (is_str act "confirmation") eqn:Ec.
  - destruct (_handle_confirmation fuel (ds st) stack parsed) as [[r ds']| |] eqn:Eh;
      try discriminate.
    apply handle_effect in Eh. destruct Eh as [Hsame Hkeep].
    destruct (subscript "parameter" parsed) as [par| |]; try discriminate.
    simpl. destruct r as [res|]; intros [= <-]; simpl.
    + exists (mkDecision act par res). unfold confirmed. simpl. rewrite Ec. auto.
    + exists (mkDecision (VStr "check_info") par (DState (serialize state))).
      unfold confirmed. simpl. rewrite app_nil_r. auto.
  - destruct (is_str act "request_info").
    + destruct (subscript "parameter" parsed) as [par| |]; try discriminate.
      intros [= <-]. simpl.
      exists (mkDecision act par (DText ("intent: " ++ get_intent state))).
      unfold confirmed. simpl. rewrite Ec, app_nil_r.
      repeat split; auto.
    + destruct (subscript "parameter" parsed) as [par| |]; try discriminate.
      destruct (result st) as [res|]; try discriminate.
      intros [= <-]. simpl.
      exists (mkDecision act par res).
      unfold confirmed. simpl. rewrite Ec, app_nil_r.
      repeat split; auto.
Qed.

Lemma cycles_effect (eval : bool) (stack : list StateTracker)
      (todo : list StateTracker) :
  forall idx st st',
    cycles fuel eval stack idx todo st = Ret st' ->
    exists acts,
      final_actions st' = final_actions st ++ acts
      /\ length acts = length todo
      /\ remove_indices st' = remove_indices st ++ marks idx acts
      /\ same_catalog (ds st) (ds st')
      /\ ((forall s, In s stack -> intent s <> "rate_beer") -> ds st' = ds st).
Proof.
  induction todo as [|state todo IH]; intros idx st st'; simpl.
  - intros [= <-]. exists []. rewrite !app_nil_r.
    repeat split; auto.
  - unfold bind, cycle, bind.
    destruct (await_proposal eval state (script st)) as [[nba rest]| |];
      try discriminate.
    simpl.
    destruct (dispatch fuel stack idx state nba rest st) as [st1| |] eqn:Ed;
      try discriminate.
    apply dispatch_effect in Ed.
    destruct Ed as (d & Hd1 & Hd2 & Hd3 & Hd4).
    intros H. apply IH in H.
    destruct H as (acts & H1 & H2 & H3 & H4 & H5).
    exists (d :: acts). split; [|split; [|split; [|split]]].
    + rewrite H1, Hd1, <- app_assoc. reflexivity.
    + simpl. now rewrite H2.
    + rewrite H3, Hd2, <- app_assoc. simpl.
      destruct (confirmed d); reflexivity.
    + now apply same_catalog_trans with (ds st1).
    + intros Hno. rewrite H5, Hd4; auto.
Qed.

(** What the cycle of [state] did with the proposal [nba] accepted for it,
    when that proposal is a confirmation: [d] is the action emitted, [ds0]
    the dataset when the confirmation was handled, a dataset that the turn
    reached from [base]. *)
Definition step_ok (base : Catalog.BeerDataset) (stack : list StateTracker)
           (state : StateTracker) (nba : PyDict.t value) (d : decision) : Prop :=
  exists ds0,
    same_catalog base ds0
    /\ ((forall s, In s stack -> intent s <> "rate_beer") -> ds0 = base)
    /\ forall par,
        get "action" nba = Some (VStr "confirmation") ->
        get "parameter" nba = Some par ->
        exists r ds1,
          _handle_confirmation fuel ds0 stack nba = Ret (r, ds1)
          /\ d = match r with
                 | Some res => mkDecision (VStr "confirmation") par res
                 | None =>
                     mkDecision (VStr "check_info") par (DState (serialize state))
                 end.

Lemma dispatch_trace (base : Catalog.BeerDataset) (stack : list StateTracker)
      (idx : nat) (state : StateTracker) (parsed : PyDict.t value)
      (rest : list reply) (st st' : loop_state) :
  same_catalog base (ds st) ->
  ((forall s, In s stack -> intent s <> "rate_beer") -> ds st = base) ->
  dispatch fuel stack idx state parsed rest st = Ret st' ->
  script st' = rest
  /\ exists d,
      final_actions st' = final_actions st ++ [d]
      /\ remove_indices st' = remove_indices st ++ marks idx [d]
      /\ same_catalog base (ds st')
      /\ ((forall s, In s stack -> intent s <> "rate_beer") -> ds st' = base)
      /\ step_ok base stack state parsed d.
Proof.
  intros Hbase Hsame H. pose proof H as H0.
  apply dispatch_effect in H0.
  destruct H0 as (d & Hd1 & Hd2 & Hd3 & Hd4).
  assert (Hscript : script st' = rest).
  { revert H. unfold dispatch, bind.
    destruct (subscript "action" parsed) as [act| |]; try discriminate.
    destruct (is_str act "confirmation").
    - destruct (_handle_confirmation fuel (ds st) stack parsed) as [[r ds']| |];
        try discriminate.
      destruct (subscript "parameter" parsed); try discriminate.
      simpl. destruct r; intros [= <-]; reflexivity.
    - destruct (is_str act "request_info").
      + destruct (subscript "parameter" parsed); try discriminate.
        intros [= <-]. reflexivity.
      + destruct (subscript "parameter" parsed); try discriminate.
        destruct (result st); try discriminate.
        intros [= <-]. reflexivity. }
  split; [exact Hscript|]. exists d.
  split; [exact Hd1|]. split; [exact Hd2|].
  split; [now apply same_catalog_trans with (ds st)|].
  split; [intros Hno; rewrite Hd4, Hsame; auto|].
  exists (ds st). split; [exact Hbase|]. split; [exact Hsame|].
  intros par Ha Hp. revert H. unfold dispatch, bind, subscript.
  rewrite Ha, Hp. simpl.
  destruct (_handle_confirmation fuel (ds st) stack parsed) as [[r ds']| |];
    try discriminate.
  simpl. intros H. exists r, ds'. split; auto.
  destruct r; injection H as <-; simpl in Hd1;
    apply app_inv_head in Hd1; now injection Hd1 as <-.
Qed.

Lemma cycles_trace (eval : bool) (base : Catalog.BeerDataset)
      (stack : list StateTracker) (todo : list StateTracker) :
  forall idx st st',
    same_catalog base (ds st) ->
    ((forall s, In s stack -> intent s <> "rate_beer") -> ds st = base) ->
    cycles fuel eval stack idx todo st = Ret st' ->
    exists props acts,
      proposals eval todo (script st) = Ret props
      /\ final_actions st' = final_actions st ++ acts
      /\ remove_indices st' = remove_indices st ++ marks idx acts
      /\ all3 (step_ok base stack) todo props acts.
Proof.
  induction todo as [|state todo IH]; intros idx st st' Hbase Hsame; simpl.
  - intros [= <-]. exists [], []. rewrite !app_nil_r. simpl. auto.
  - unfold bind, cycle, bind.
    destruct (await_proposal eval state (script st)) as [[nba rest]| |];
      try discriminate.
    simpl.
    destruct (dispatch fuel stack idx state nba rest st) as [st1| |] eqn:Ed;
      try discriminate.
    eapply dispatch_trace in Ed; [ | exact Hbase | exact Hsame ].
    destruct Ed as (Hscript & d & Hd1 & Hd2 & Hd3 & Hd4 & Hd5).
    intros H. apply (IH _ _ _ Hd3 Hd4) in H.
    destruct H as (props & acts & H1 & H2 & H3 & H4).
    rewrite Hscript in H1. rewrite H1. simpl.
    exists (nba :: props), (d :: acts). split; [reflexivity|].
    split; [rewrite H2, Hd1, <- app_assoc; reflexivity|].
    split.
    + rewrite H3, Hd2, <- app_assoc. simpl.
      destruct (confirmed d); reflexivity.
    + simpl. auto.
Qed.


(** With one tracker per intent, a confirmation that names the intent of a
    tracker of the registry is handled with that tracker alone. *)
Lemma handle_own (ds0 : Catalog.BeerDataset) (stack : list StateTracker)
      (target : StateTracker) (nba : PyDict.t value) :
  NoDup (map intent stack) ->
  In target stack ->
  get "parameter" nba = Some (VStr (intent target)) ->
  _handle_confirmation fuel ds0 stack nba
  = _handle_confirmation fuel ds0 [target] nba.
Proof.
  intros Hn Hin Hp. unfold _handle_confirmation, bind, subscript. rewrite Hp.
  assert (Hf : find (fun s => is_str (VStr (intent target)) (get_intent s)) stack
               = Some target).
  { induction stack as [|s stack IH]; [destruct Hin|]. simpl in *.
    inversion Hn as [|? ? Hfresh Hn']; subst.
    destruct Hin as [->|Hin].
    - unfold get_intent. now rewrite String.eqb_refl.
    - unfold get_intent in *. destruct (intent target =? intent s) eqn:E.
      + apply String.eqb_eq in E. exfalso. apply Hfresh. rewrite <- E.
        now apply in_map.
      + now apply IH. }
  rewrite Hf. simpl. unfold get_intent. now rewrite String.eqb_refl.
Qed.

(** The trace of a turn that returns: the proposals accepted, the actions
    emitted, and the registry left. *)
Lemma call_trace (dm dm' : DM) (answers rest : list reply)
      (nlu_inputs : list observation) (out : list out_item) :
  is_terminate nlu_inputs = false ->
  call fuel dm answers nlu_inputs = Ret (out, dm', rest) ->
  exists props acts,
    proposals (eval_mode dm) (_update_states (state_stack dm) nlu_inputs) answers
    = Ret props
    /\ out = map Action acts
    /\ state_stack dm'
       = map fst (filter (fun sa => negb (confirmed (snd sa)))
                         (combine (_update_states (state_stack dm) nlu_inputs)
                                  acts))
    /\ all3 (step_ok (dataset dm) (_update_states (state_stack dm) nlu_inputs))
            (_update_states (state_stack dm) nlu_inputs) props acts.
Proof.
  intros Hterm. unfold call. rewrite Hterm. unfold bind.
  destruct (cycles fuel (eval_mode dm) _ 0 _ _) as [st| |] eqn:E;
    try discriminate.
  intros [= <- <- <-].
  apply (@cycles_trace (eval_mode dm) (dataset dm)) in E;
    [|apply same_catalog_refl|reflexivity].
  destruct E as (props & acts & H1 & H2 & H3 & H4).
  simpl in H1, H2, H3. exists props, acts. rewrite H2. simpl.
  repeat split; auto.
  rewrite H3. apply keep_marks.
  destruct (all3_length _ _ _ _ H4) as [_ Hl]. exact Hl.
Qed.


End Effects.


End TurnFacts.

Module TurnSpec.

Import PyDict Tracker DecisionEngine ValidityFacts EngineFacts RegistryFacts.
Import SubmissionFacts TurnFacts.

(** *** Concrete turns *)

Definition no_catalog : Catalog.BeerDataset := Catalog.mkDataset [] 0 [].

Definition proposal (action parameter : string) : reply :=
  Parsed (VDict [("action", VStr action); ("parameter", VStr parameter)]).

(** An interactive turn with two intents: a remark out of context, which the
    collaborator confirms, and a brewery listing with no brewery yet, for
    which it asks. *)
Definition dm_two : DM := mkDM false no_catalog [].

Definition obs_remark_and_listing : list observation :=
  [mkObs "out_of_context" []; mkObs "list_beers_by_brewery" []].

Definition answers_two : list reply :=
  [proposal "confirmation" "out_of_context"; proposal "request_info" "brewery"].

(** X14.  The registry gives each intent one tracker, and that tracker
    accumulates exactly the observations that bear its intent, in order:
    after [_update_states], the first tracker registered for an intent is
    the one that was there before, merged with the observations of the batch
    bearing that intent, or, if there was none, a new tracker merged with
    them, or no tracker at all when the batch has no such observation.
    Observations of other intents do not touch it. *)
Theorem registry_accumulates_per_intent :
  forall (stack : list StateTracker) (nlu_inputs : list observation) (i : string),
    lookup i (_update_states stack nlu_inputs)
    = match lookup i stack with
      | Some t => Some (merge_all t (bearing i nlu_inputs))
      | None =>
          match bearing i nlu_inputs with
          | [] => None
          | _ :: _ => Some (merge_all (new i) (bearing i nlu_inputs))
          end
      end.
Proof.
  intros stack nlu_inputs i. apply lookup_update_states.
Qed.

(** X15.  The registry never holds two trackers of one intent.  If it holds
    none twice before a turn, then after [_update_states] it still holds none
    twice, it holds a tracker for every intent of the batch, the trackers
    that were there keep their places with the new ones appended after them,
    and the registry the turn leaves holds none twice either. *)
Theorem registry_one_tracker_per_intent :
  forall (RT : Runtime) (fuel : nat) (dm : DM) (nlu_inputs : list observation),
    NoDup (map intent (state_stack dm)) ->
    NoDup (map intent (_update_states (state_stack dm) nlu_inputs))
    /\ (forall o, In o nlu_inputs ->
                  In (obs_intent o)
                     (map intent (_update_states (state_stack dm) nlu_inputs)))
    /\ (exists added,
           map intent (_update_states (state_stack dm) nlu_inputs)
           = map intent (state_stack dm) ++ added)
    /\ (forall answers out dm' rest,
           call fuel dm answers nlu_inputs = Ret (out, dm', rest) ->
           NoDup (map intent (state_stack dm'))).
Proof.
  intros RT fuel dm nlu_inputs Hn.
  destruct (intents_update_states nlu_inputs (state_stack dm)) as (H1 & H2 & H3).
  split; [|split; [|split]]; auto.
  intros answers out dm' rest. unfold call.
  destruct (is_terminate nlu_inputs).
  - intros [= _ <- _]. exact Hn.
  - unfold bind.
    destruct (cycles fuel (eval_mode dm) _ 0 _ _) as [st| |]; try discriminate.
    intros [= _ <- _]. simpl. apply keep_from_intents. auto.
Qed.

Lemma registry_one_tracker_per_intent_witness :
  NoDup (map intent (_update_states (state_stack dm_two) obs_remark_and_listing))
  /\ (forall o, In o obs_remark_and_listing ->
                In (obs_intent o)
                   (map intent (_update_states (state_stack dm_two)
                                               obs_remark_and_listing)))
  /\ (exists added,
         map intent (_update_states (state_stack dm_two) obs_remark_and_listing)
         = map intent (state_stack dm_two) ++ added)
  /\ (forall answers out dm' rest,
         call (RT := Demo.runtime) 0 dm_two answers obs_remark_and_listing
         = Ret (out, dm', rest) ->
         NoDup (map intent (state_stack dm'))).
Proof.
  apply (@registry_one_tracker_per_intent Demo.runtime 0 dm_two
           obs_remark_and_listing).
  simpl. constructor.
Defined.

(** X16.  A turn that is not a lone [terminate_system] emits exactly one
    action per tracker of the updated registry, in the registry's order, and
    a tracker leaves the registry exactly when the action emitted for it is
    tagged "confirmation": the registry after the turn is the updated
    registry without those trackers, the others in their order.  The mode of
    the engine does not change.  A lone [terminate_system] returns the
    single item "terminate_system" and touches nothing. *)
Theorem trackers_leave_on_confirmation :
  forall (RT : Runtime) (fuel : nat) (dm dm' : DM) (answers rest : list reply)
         (nlu_inputs : list observation) (out : list out_item),
    call fuel dm answers nlu_inputs = Ret (out, dm', rest) ->
    (is_terminate nlu_inputs = true ->
     out = [TerminateSystem] /\ dm' = dm /\ rest = answers)
    /\ (is_terminate nlu_inputs = false ->
        exists acts,
          out = map Action acts
          /\ length acts = length (_update_states (state_stack dm) nlu_inputs)
          /\ state_stack dm'
             = map fst
                   (filter (fun sa => negb (is_str (action (snd sa)) "confirmation"))
                           (combine (_update_states (state_stack dm) nlu_inputs)
                                    acts))
          /\ eval_mode dm' = eval_mode dm).
Proof.
  intros RT fuel dm dm' answers rest nlu_inputs out. unfold call.
  destruct (is_terminate nlu_inputs).
  - intros [= <- <- <-]. split; [auto|discriminate].
  - unfold bind.
    destruct (cycles fuel (eval_mode dm) _ 0 _ _) as [st| |] eqn:E;
      try discriminate.
    intros [= <- <- <-]. split; [discriminate|]. intros _.
    apply cycles_effect in E. destruct E as (acts & H1 & H2 & H3 & _).
    simpl in H1, H3. exists acts. rewrite H1. simpl.
    repeat split; auto.
    rewrite H3. now apply keep_marks.
Qed.

(** The turn of two intents: two actions; the confirmed remark leaves, the
    listing stays. *)
Lemma trackers_leave_on_confirmation_witness :
  exists out dm' acts,
    call (RT := Demo.runtime) 0 dm_two answers_two obs_remark_and_listing
    = Ret (out, dm', [])
    /\ out = map Action acts
    /\ length acts = 2
    /\ state_stack dm' = [new "list_beers_by_brewery"]
    /\ eval_mode dm' = false.
Proof.
  destruct (@trackers_leave_on_confirmation Demo.runtime 0 dm_two
              (mkDM false no_catalog [new "list_beers_by_brewery"])
              answers_two [] obs_remark_and_listing
              [Action (mkDecision (VStr "confirmation") (VStr "out_of_context")
                                  (DText "Intent out_of_context"));
               Action (mkDecision (VStr "request_info") (VStr "brewery")
                                  (DText "intent: list_beers_by_brewery"))]
              eq_refl) as [_ H].
  destruct (H eq_refl) as (acts & H1 & H2 & H3 & H4).
  eexists. eexists. exists acts.
  split; [vm_compute; reflexivity|].
  repeat split; auto.
Defined.

(** X17.  A turn of the engine never adds, drops or reorders rows of the
    catalog in memory, never changes a cell that comes from the catalog
    file, and keeps the fuzzy-match limit; and when no tracker of the
    updated registry has the intent [rate_beer], the dataset after the turn
    is the dataset before it, disk included: the queries only read. *)
Theorem queries_never_write :
  forall (RT : Runtime) (fuel : nat) (dm dm' : DM) (answers rest : list reply)
         (nlu_inputs : list observation) (out : list out_item),
    call fuel dm answers nlu_inputs = Ret (out, dm', rest) ->
    map columns (Catalog.data (dataset dm'))
    = map columns (Catalog.data (dataset dm))
    /\ Catalog._limit (dataset dm') = Catalog._limit (dataset dm)
    /\ ((forall s, In s (_update_states (state_stack dm) nlu_inputs) ->
                   intent s <> "rate_beer") ->
        dataset dm' = dataset dm).
Proof.
  intros RT fuel dm dm' answers rest nlu_inputs out. unfold call.
  destruct (is_terminate nlu_inputs).
  - intros [= _ <- _]. auto.
  - unfold bind.
    destruct (cycles fuel (eval_mode dm) _ 0 _ _) as [st| |] eqn:E;
      try discriminate.
    intros [= _ <- _]. simpl.
    apply cycles_effect in E. destruct E as (acts & _ & _ & _ & [H1 H2] & H3).
    simpl in *. auto.
Qed.

Lemma queries_never_write_witness :
  exists out dm',
    call (RT := Demo.runtime) 0 dm_two answers_two obs_remark_and_listing
    = Ret (out, dm', [])
    /\ dataset dm' = dataset dm_two.
Proof.
  eexists. eexists. split; [vm_compute; reflexivity|].
  apply (@queries_never_write Demo.runtime 0 dm_two _ answers_two []
           obs_remark_and_listing _ eq_refl).
  intros s [<-|[<-|[]]]; discriminate.
Defined.

(** X27.  In evaluation mode an action that is neither a confirmation nor a
    request reuses the data of the previous action, and has none to reuse
    when it comes first.  When the updated registry is not empty and the
    first answer of the collaborator is an object whose action is any other
    value (check_info, say), the turn raises UnboundLocalError: no branch has
    assigned [result].  When such an answer comes for a later tracker, the
    action is emitted with the data left by the action before it. *)
Theorem unchecked_action_reuses_result :
  forall (RT : Runtime) (fuel : nat) (dm : DM) (nlu_inputs : list observation)
         (nba : PyDict.t value) (act par : value) (rest : list reply),
    eval_mode dm = true ->
    is_terminate nlu_inputs = false ->
    _update_states (state_stack dm) nlu_inputs <> [] ->
    get "action" nba = Some act ->
    get "parameter" nba = Some par ->
    is_str act "confirmation" = false ->
    is_str act "request_info" = false ->
    call fuel dm (Parsed (VDict nba) :: rest) nlu_inputs = Raise UnboundLocalError
    /\ (forall stack idx state st res,
           result st = Some res ->
           cycle fuel true stack idx state
                 (mkLoop (Parsed (VDict nba) :: rest) (ds st) (final_actions st)
                         (remove_indices st) (result st))
           = Ret (mkLoop rest (ds st)
                         (final_actions st ++ [mkDecision act par res])
                         (remove_indices st) (Some res))).
Proof.
  intros RT fuel dm nlu_inputs nba act par rest Hmode Hterm Hstack Ha Hp Hc Hr.
  split.
  - unfold call. rewrite Hmode, Hterm.
    destruct (_update_states (state_stack dm) nlu_inputs) as [|s stack];
      [contradiction|].
    simpl. unfold bind, cycle, bind. simpl.
    unfold dispatch, bind, subscript. simpl. rewrite Ha, Hc, Hr, Hp.
    reflexivity.
  - intros stack idx state st res Hres.
    unfold cycle, bind. simpl.
    unfold dispatch, bind, subscript. simpl. rewrite Ha, Hc, Hr, Hp, Hres.
    reflexivity.
Qed.

(** Evaluation mode, one remark, answered by a check_info. *)
Lemma unchecked_action_reuses_result_witness :
  call (RT := Demo.runtime) 0 (mkDM true no_catalog [])
       [proposal "check_info" "out_of_context"] [mkObs "out_of_context" []]
  = Raise UnboundLocalError.
Proof.
  apply (@unchecked_action_reuses_result Demo.runtime 0 (mkDM true no_catalog [])
           [mkObs "out_of_context" []]
           [("action", VStr "check_info"); ("parameter", VStr "out_of_context")]
           (VStr "check_info") (VStr "out_of_context") []);
    try reflexivity.
  discriminate.
Defined.


(** *** Confirmations *)

(** An interactive turn on a cellar of three bottles: a listing of the
    brewery "north", which one bottle matches, and a query for the beer
    "zzz", which none does; the collaborator confirms each intent. *)
Definition dm_cellar : DM := mkDM false SubmissionSpec.cellar [].

Definition obs_listing_and_info : list observation :=
  [mkObs "list_beers_by_brewery" [("slots", VDict [("brewery", VStr "north")])];
   mkObs "get_beer_info"
         [("slots", VDict [("name", VStr "zzz"); ("brewery", VStr "north")])]].

Definition answers_own : list reply :=
  [proposal "confirmation" "list_beers_by_brewery";
   proposal "confirmation" "get_beer_info"].

Definition listing_tracker : StateTracker :=
  mkTracker "list_beers_by_brewery" [("brewery", VStr "north")].

Definition info_tracker : StateTracker :=
  mkTracker "get_beer_info" [("name", VStr "zzz"); ("brewery", VStr "north")].

(** C6 (amended).  Take a turn of [DM.__call__] that returns, on a registry
    with one tracker per intent, and a tracker of the updated registry for
    which the retry loop accepted a confirmation that names the tracker's own
    intent.  The confirmation is handled with that tracker alone.  If the
    query returns a result, the action emitted for the tracker is
    [{action: "confirmation", parameter: intent, data: result}] (the tag is
    the proposal's own; there is no "confirmation-result") and the tracker is
    not in the registry the turn leaves.  If the query returns nothing, the
    tracker is still in the registry the turn leaves and the action emitted
    for it is [{action: "check_info", parameter: intent, data: the
    serialized state of the tracker}]. *)
Theorem confirmation_outcome :
  forall (RT : Runtime) (fuel : nat) (dm dm' : DM) (answers rest : list reply)
         (nlu_inputs : list observation) (out : list out_item),
    NoDup (map intent (state_stack dm)) ->
    is_terminate nlu_inputs = false ->
    call fuel dm answers nlu_inputs = Ret (out, dm', rest) ->
    exists props acts,
      proposals (eval_mode dm) (_update_states (state_stack dm) nlu_inputs) answers
      = Ret props
      /\ length props = length (_update_states (state_stack dm) nlu_inputs)
      /\ out = map Action acts
      /\ length acts = length (_update_states (state_stack dm) nlu_inputs)
      /\ forall n state nba,
          nth_error (_update_states (state_stack dm) nlu_inputs) n = Some state ->
          nth_error props n = Some nba ->
          get "action" nba = Some (VStr "confirmation") ->
          get "parameter" nba = Some (VStr (intent state)) ->
          exists ds0 r ds1,
            same_catalog (dataset dm) ds0
            /\ ((forall s, In s (_update_states (state_stack dm) nlu_inputs) ->
                           intent s <> "rate_beer") ->
                ds0 = dataset dm)
            /\ _handle_confirmation fuel ds0
                 (_update_states (state_stack dm) nlu_inputs) nba
               = Ret (r, ds1)
            /\ _handle_confirmation fuel ds0
                 (_update_states (state_stack dm) nlu_inputs) nba
               = _handle_confirmation fuel ds0 [state] nba
            /\ match r with
               | Some res =>
                   nth_error acts n
                   = Some (mkDecision (VStr "confirmation")
                                      (VStr (intent state)) res)
                   /\ ~ In state (state_stack dm')
               | None =>
                   nth_error acts n
                   = Some (mkDecision (VStr "check_info")
                                      (VStr (intent state))
                                      (DState (serialize state)))
                   /\ In state (state_stack dm')
               end.
Proof.
  intros RT fuel dm dm' answers rest nlu_inputs out Hn Hterm Hcall.
  destruct (call_trace fuel _ _ _ Hterm Hcall) as (props & acts & Hp & Ho & Hs & Hall).
  set (stack := _update_states (state_stack dm) nlu_inputs) in *.
  assert (Hstack : NoDup (map intent stack)).
  { subst stack.
    now apply (proj1 (intents_update_states nlu_inputs (state_stack dm))). }
  destruct (all3_length _ _ _ _ Hall) as [Hlp Hla].
  exists props, acts. repeat split; auto.
  intros n state nba Hstate Hnba Ha Hpar.
  destruct (all3_nth _ _ _ _ _ Hall Hstate Hnba) as (d & Hd & ds0 & Hsame & Hfree & Hstep).
  destruct (Hstep _ Ha Hpar) as (r & ds1 & Hh & Hdr).
  exists ds0, r, ds1. split; auto. split; auto. split; auto. split.
  { apply handle_own; auto. now apply nth_error_In in Hstate. }
  pose proof (kept_iff stack acts n Hstack Hstate Hd) as Hkept.
  rewrite <- Hs in Hkept.
  destruct r as [res|]; subst d; split; auto.
  - intros Hin. apply Hkept in Hin. discriminate.
  - apply Hkept. reflexivity.
Qed.

(** The turn on the cellar: the listing is confirmed with its one bottle and
    leaves the registry; the query for "zzz" finds nothing, is downgraded
    and stays. *)
Lemma confirmation_outcome_witness :
  call (RT := Demo.runtime) 20 dm_cellar answers_own obs_listing_and_info
  = Ret ([Action (mkDecision (VStr "confirmation") (VStr "list_beers_by_brewery")
                             (DBeers [SubmissionSpec.bottle 1 "saison" "north"]));
          Action (mkDecision (VStr "check_info") (VStr "get_beer_info")
                             (DState (serialize info_tracker)))],
         mkDM false SubmissionSpec.cellar [info_tracker], [])
  /\ ~ In listing_tracker [info_tracker]
  /\ In info_tracker [info_tracker].
Proof.
  assert (Hcall :
            call (RT := Demo.runtime) 20 dm_cellar answers_own obs_listing_and_info
            = Ret ([Action (mkDecision (VStr "confirmation")
                                       (VStr "list_beers_by_brewery")
                                       (DBeers [SubmissionSpec.bottle 1 "saison" "north"]));
                    Action (mkDecision (VStr "check_info") (VStr "get_beer_info")
                                       (DState (serialize info_tracker)))],
                   mkDM false SubmissionSpec.cellar [info_tracker], []))
    by (vm_compute; reflexivity).
  split; [exact Hcall|].
  destruct (@confirmation_outcome Demo.runtime 20 dm_cellar _ answers_own _
              obs_listing_and_info _ (NoDup_nil _) eq_refl Hcall)
    as (props & acts & Hp & _ & _ & _ & Hall).
  vm_compute in Hp. injection Hp as <-.
  assert (Hfree : forall s,
             In s (_update_states (state_stack dm_cellar) obs_listing_and_info) ->
             intent s <> "rate_beer").
  { intros s [<-|[<-|[]]]; discriminate. }
  split.
  - destruct (Hall 0 listing_tracker _ eq_refl eq_refl eq_refl eq_refl)
      as (ds0 & r & ds1 & _ & H0 & Hh & _ & Hr).
    rewrite (H0 Hfree) in Hh. vm_compute in Hh. injection Hh as <- _.
    exact (proj2 Hr).
  - destruct (Hall 1 info_tracker _ eq_refl eq_refl eq_refl eq_refl)
      as (ds0 & r & ds1 & _ & H0 & Hh & _ & Hr).
    rewrite (H0 Hfree) in Hh. vm_compute in Hh. injection Hh as <- _.
    exact (proj2 Hr).
Defined.


(** A turn in which the confirmation accepted for one tracker names the
    intent of another: a remark out of context, for which the collaborator
    confirms the listing, and the listing of the brewery "north", for which
    it confirms an intent nobody asked about. *)
Definition obs_remark_and_north : list observation :=
  [mkObs "out_of_context" [];
   mkObs "list_beers_by_brewery" [("slots", VDict [("brewery", VStr "north")])]].

Definition answers_crossed : list reply :=
  [proposal "confirmation" "list_beers_by_brewery";
   proposal "confirmation" "nothing"].

(** X28.  The tracker that leaves is the one being processed, whatever
    intent the confirmation names.  In a turn that returns, on a registry
    with one tracker per intent, when the confirmation accepted for the
    tracker at some position names the intent of a tracker [target] of the
    updated registry (validation never compares the two, so [target] may be
    another tracker) and the query returns a result: the confirmation is
    handled with [target] alone, the action emitted at the position carries
    that result under the intent of [target], the tracker at the position
    leaves the registry, and [target] itself stays or leaves according to
    the action emitted at its own position only. *)
Theorem removal_is_by_position :
  forall (RT : Runtime) (fuel : nat) (dm dm' : DM) (answers rest : list reply)
         (nlu_inputs : list observation) (out : list out_item),
    NoDup (map intent (state_stack dm)) ->
    is_terminate nlu_inputs = false ->
    call fuel dm answers nlu_inputs = Ret (out, dm', rest) ->
    exists props acts,
      proposals (eval_mode dm) (_update_states (state_stack dm) nlu_inputs) answers
      = Ret props
      /\ out = map Action acts
      /\ forall n state nba target,
          nth_error (_update_states (state_stack dm) nlu_inputs) n = Some state ->
          nth_error props n = Some nba ->
          get "action" nba = Some (VStr "confirmation") ->
          get "parameter" nba = Some (VStr (intent target)) ->
          In target (_update_states (state_stack dm) nlu_inputs) ->
          exists ds0 r ds1,
            same_catalog (dataset dm) ds0
            /\ ((forall s, In s (_update_states (state_stack dm) nlu_inputs) ->
                           intent s <> "rate_beer") ->
                ds0 = dataset dm)
            /\ _handle_confirmation fuel ds0
                 (_update_states (state_stack dm) nlu_inputs) nba
               = Ret (r, ds1)
            /\ _handle_confirmation fuel ds0
                 (_update_states (state_stack dm) nlu_inputs) nba
               = _handle_confirmation fuel ds0 [target] nba
            /\ forall res,
                r = Some res ->
                nth_error acts n
                = Some (mkDecision (VStr "confirmation")
                                   (VStr (intent target)) res)
                /\ ~ In state (state_stack dm')
                /\ forall m d,
                    nth_error (_update_states (state_stack dm) nlu_inputs) m
                    = Some target ->
                    nth_error acts m = Some d ->
                    (In target (state_stack dm')
                     <-> is_str (action d) "confirmation" = false).
Proof.
  intros RT fuel dm dm' answers rest nlu_inputs out Hn Hterm Hcall.
  destruct (call_trace fuel _ _ _ Hterm Hcall) as (props & acts & Hp & Ho & Hs & Hall).
  set (stack := _update_states (state_stack dm) nlu_inputs) in *.
  assert (Hstack : NoDup (map intent stack)).
  { subst stack.
    now apply (proj1 (intents_update_states nlu_inputs (state_stack dm))). }
  exists props, acts. repeat split; auto.
  intros n state nba target Hstate Hnba Ha Hpar Htarget.
  destruct (all3_nth _ _ _ _ _ Hall Hstate Hnba) as (d & Hd & ds0 & Hsame & Hfree & Hstep).
  destruct (Hstep _ Ha Hpar) as (r & ds1 & Hh & Hdr).
  exists ds0, r, ds1. split; auto. split; auto. split; auto. split.
  { now apply handle_own. }
  intros res ->. subst d. split; auto. split.
  - intros Hin. rewrite Hs in Hin.
    apply (kept_iff stack acts n Hstack Hstate Hd) in Hin. discriminate.
  - intros m d' Hm Hd'. rewrite Hs.
    apply (kept_iff stack acts m Hstack Hm Hd').
Qed.

(** The crossed turn: the action emitted for the remark carries the bottle
    of the listing, the remark leaves the registry and the listing, whose own
    confirmation found nothing, stays. *)
Lemma removal_is_by_position_witness :
  call (RT := Demo.runtime) 20 dm_cellar answers_crossed obs_remark_and_north
  = Ret ([Action (mkDecision (VStr "confirmation") (VStr "list_beers_by_brewery")
                             (DBeers [SubmissionSpec.bottle 1 "saison" "north"]));
          Action (mkDecision (VStr "check_info") (VStr "nothing")
                             (DState (serialize listing_tracker)))],
         mkDM false SubmissionSpec.cellar [listing_tracker], [])
  /\ ~ In (new "out_of_context") [listing_tracker].
Proof.
  assert (Hcall :
            call (RT := Demo.runtime) 20 dm_cellar answers_crossed
                 obs_remark_and_north
            = Ret ([Action (mkDecision (VStr "confirmation")
                                       (VStr "list_beers_by_brewery")
                                       (DBeers [SubmissionSpec.bottle 1 "saison" "north"]));
                    Action (mkDecision (VStr "check_info") (VStr "nothing")
                                       (DState (serialize listing_tracker)))],
                   mkDM false SubmissionSpec.cellar [listing_tracker], []))
    by (vm_compute; reflexivity).
  split; [exact Hcall|].
  destruct (@removal_is_by_position Demo.runtime 20 dm_cellar _ answers_crossed _
              obs_remark_and_north _ (NoDup_nil _) eq_refl Hcall)
    as (props & acts & Hp & _ & Hall).
  vm_compute in Hp. injection Hp as <-.
  assert (Hfree : forall s,
             In s (_update_states (state_stack dm_cellar) obs_remark_and_north) ->
             intent s <> "rate_beer").
  { intros s [<-|[<-|[]]]; discriminate. }
  destruct (Hall 0 (new "out_of_context") _ listing_tracker
                 eq_refl eq_refl eq_refl eq_refl)
    as (ds0 & r & ds1 & _ & H0 & Hh & _ & Hr).
  { right. left. reflexivity. }
  rewrite (H0 Hfree) in Hh. vm_compute in Hh. injection Hh as <- _.
  exact (proj1 (proj2 (Hr _ eq_refl))).
Defined.


End TurnSpec.

(** ** Validation, again *)

Module AcceptanceFacts.

Import PyDict Tracker DecisionEngine ValidityFacts.

(** Every accepted proposal is a request against a tracker with an unset
    slot, for a name under which the tracker holds nothing, or a
    confirmation against a tracker with every slot set. *)
Lemma validation_one_kind_cases (nba : PyDict.t value) (state : StateTracker) :
  _check_response_validity nba state = Ret true ->
  truthy (parameter_of nba) = true
  /\ null_sentinel (parameter_of nba) = false
  /\ ((action_of nba = VStr "request_info"
       /\ full_slots state = false
       /\ get_value (parameter_of nba) (slots state) = Ret VNone)
      \/ (action_of nba = VStr "confirmation" /\ full_slots state = true)).
Proof.
  intros H. pose proof (valid_action _ _ H) as Ha.
  revert H. unfold _check_response_validity, action_of, parameter_of in *.
  destruct Ha as [Ha|Ha]; rewrite Ha; simpl.
  - destruct (truthy (get_or_none "parameter" nba)); simpl; [|discriminate].
    destruct (null_sentinel (get_or_none "parameter" nba)); [discriminate|].
    destruct (get_value (get_or_none "parameter" nba) (slots state)) as [v| |];
      simpl; try discriminate.
    destruct v; simpl; try discriminate.
    destruct (full_slots state); simpl; [discriminate|].
    intros _. repeat split. left. repeat split.
  - destruct (truthy (get_or_none "parameter" nba)); simpl; [|discriminate].
    destruct (null_sentinel (get_or_none "parameter" nba)); [discriminate|].
    simpl. destruct (full_slots state); simpl; [|discriminate].
    intros _. repeat split. right. repeat split.
Qed.

End AcceptanceFacts.

Module AcceptanceSpec.

Import PyDict Tracker DecisionEngine ValidityFacts AcceptanceFacts.

Definition ask (parameter : value) : PyDict.t value :=
  [("action", VStr "request_info"); ("parameter", parameter)].

(** X18.  Validation accepts one kind of proposal per state.  An accepted
    proposal has a parameter that is neither empty nor the word "none" or
    "null", and it is either a request, and then some slot of the tracker is
    unset and the tracker holds no value under the requested name, or a
    confirmation, and then every slot of the tracker is set.  So a request is
    never accepted for a slot that has a value, nor once all slots are set,
    and a confirmation never before. *)
Theorem validation_accepts_one_kind :
  forall (nba : PyDict.t value) (state : StateTracker),
    _check_response_validity nba state = Ret true ->
    truthy (parameter_of nba) = true
    /\ null_sentinel (parameter_of nba) = false
    /\ ((action_of nba = VStr "request_info"
         /\ full_slots state = false
         /\ get_value (parameter_of nba) (slots state) = Ret VNone)
        \/ (action_of nba = VStr "confirmation" /\ full_slots state = true)).
Proof.
  intros nba state. apply validation_one_kind_cases.
Qed.

(** A new brewery listing: the request for "brewery" is accepted. *)
Lemma validation_accepts_one_kind_witness :
  _check_response_validity (ask (VStr "brewery")) (new "list_beers_by_brewery")
  = Ret true
  /\ full_slots (new "list_beers_by_brewery") = false
  /\ get_value (parameter_of (ask (VStr "brewery")))
               (slots (new "list_beers_by_brewery")) = Ret VNone.
Proof.
  split; [reflexivity|].
  destruct (@validation_accepts_one_kind (ask (VStr "brewery"))
              (new "list_beers_by_brewery") eq_refl)
    as (_ & _ & [(_ & H1 & H2)|(H & _)]); [auto|discriminate].
Defined.

(** X19.  A tracker without slots can only be confirmed.  For an intent with
    no statically defined slot (out_of_context, and every intent outside the
    table), validation of a proposal against a new tracker returns true
    exactly when the proposal is a confirmation whose parameter is neither
    empty nor "none" or "null"; the parameter is not compared with the
    intent of the tracker. *)
Theorem slotless_tracker_is_only_confirmed :
  forall (i : string) (nba : PyDict.t value),
    static_slots i = [] ->
    (_check_response_validity nba (new i) = Ret true
     <-> action_of nba = VStr "confirmation"
         /\ truthy (parameter_of nba) = true
         /\ null_sentinel (parameter_of nba) = false).
Proof.
  intros i nba Hs.
  assert (Hslots : slots (new i) = []).
  { simpl. unfold _initialize_slots. now rewrite Hs. }
  assert (Hi : (get_intent (new i) =? "get_beer_info") = false).
  { simpl. destruct (i =? "get_beer_info") eqn:E; auto.
    apply String.eqb_eq in E. subst. discriminate. }
  assert (Hfull : full_slots (new i) = true).
  { unfold full_slots. now rewrite Hslots. }
  split.
  - intros H. destruct (validation_one_kind_cases nba (new i) H)
      as (H1 & H2 & [(_ & H3 & _)|(H3 & _)]); [congruence|auto].
  - intros (Ha & Ht & Hn). unfold action_of, parameter_of in *.
    unfold _check_response_validity. rewrite Ha, Ht, Hn, Hfull, Hi.
    reflexivity.
Qed.

Lemma slotless_tracker_is_only_confirmed_witness :
  _check_response_validity
    [("action", VStr "confirmation"); ("parameter", VStr "anything")]
    (new "give_evaluation") = Ret true.
Proof.
  apply (proj2 (@slotless_tracker_is_only_confirmed "give_evaluation"
                  [("action", VStr "confirmation"); ("parameter", VStr "anything")]
                  eq_refl)).
  repeat split.
Defined.

(** X20.  Validation can raise, and the turn with it.  A request whose
    parameter is a non-empty list passes the emptiness and sentinel checks
    and then fails as a dictionary key: validation raises TypeError instead
    of returning false, whatever the tracker.  In interactive mode, when the
    updated registry is not empty and the first answer of the collaborator
    is such a request, the whole turn raises TypeError: the retry loop does
    not catch it. *)
Theorem unhashable_request_crashes_the_turn :
  forall (RT : Runtime) (fuel : nat) (dm : DM) (nlu_inputs : list observation)
         (x : value) (l : list value) (rest : list reply),
    eval_mode dm = false ->
    is_terminate nlu_inputs = false ->
    _update_states (state_stack dm) nlu_inputs <> [] ->
    (forall state,
        _check_response_validity (ask (VList (x :: l))) state = Raise TypeError)
    /\ call fuel dm (Parsed (VDict (ask (VList (x :: l)))) :: rest) nlu_inputs
       = Raise TypeError.
Proof.
  intros RT fuel dm nlu_inputs x l rest Hmode Hterm Hstack.
  split; [reflexivity|].
  unfold call. rewrite Hmode, Hterm.
  destruct (_update_states (state_stack dm) nlu_inputs) as [|s stack];
    [contradiction|].
  reflexivity.
Qed.

Lemma unhashable_request_crashes_the_turn_witness :
  call (RT := Demo.runtime) 0 (mkDM false (Catalog.mkDataset [] 0 []) [])
       [Parsed (VDict (ask (VList [VStr "brewery"])))]
       [mkObs "list_beers_by_brewery" []]
  = Raise TypeError.
Proof.
  apply (@unhashable_request_crashes_the_turn Demo.runtime 0
           (mkDM false (Catalog.mkDataset [] 0 []) [])
           [mkObs "list_beers_by_brewery" []] (VStr "brewery") [] []);
    [reflexivity|reflexivity|discriminate].
Defined.

End AcceptanceSpec.

(** ** The rolling memory *)

Module MemoryFacts.

Import Memory.

(** Pushing a sequence of turns, one after the other. *)
Fixpoint push_all (h : History) (turns : list turn) : result :=
  match turns with
  | [] => Done h
  | t :: rest =>
      match push h (role t) (content t) with
      | Done h' => push_all h' rest
      | IndexError => IndexError
      end
  end.

(** The last [n] elements of a list (all of them when it has fewer). *)
Definition last_n {A} (n : nat) (l : list A) : list A :=
  skipn (length l - n) l.

Lemma last_n_short {A} (n : nat) (l : list A) : length l <= n -> last_n n l = l.
Proof.
  intros H. unfold last_n. replace (length l - n) with 0 by lia. reflexivity.
Qed.

Lemma last_n_cons {A} (n : nat) (a : A) (l : list A) :
  n <= length l -> last_n n (a :: l) = last_n n l.
Proof.
  intros H. unfold last_n. simpl length.
  replace (S (length l) - n) with (S (length l - n)) by lia. reflexivity.
Qed.

Lemma push_all_window (turns : list turn) :
  forall h,
    (1 <= max_turns h)%Z ->
    (Z.of_nat (length (_memory h)) <= max_turns h)%Z ->
    push_all h turns
    = Done (mkHistory (last_n (Z.to_nat (max_turns h)) (_memory h ++ turns))
                      (max_turns h)).
Proof.
  induction turns as [|[r c] turns IH]; intros [mem limit] H1 H2;
    cbn [push_all role content _memory max_turns] in *.
  - rewrite app_nil_r, last_n_short by lia. reflexivity.
  - unfold push. cbn [_memory max_turns].
    destruct (limit <=? Z.of_nat (length mem))%Z eqn:E.
    + apply Z.leb_le in E. destruct mem as [|a mem]; [simpl in E; lia|].
      assert (Hlen : length (mem ++ [mkTurn r c]) = length (a :: mem)).
      { rewrite length_app. simpl. lia. }
      rewrite IH; cbn [_memory max_turns]; [|lia|rewrite Hlen; lia].
      rewrite <- app_assoc. cbn [app]. f_equal. f_equal.
      symmetry. apply last_n_cons. rewrite length_app. simpl in *. lia.
    + apply Z.leb_gt in E.
      assert (Hlen : length (mem ++ [mkTurn r c]) = S (length mem)).
      { rewrite length_app. simpl. lia. }
      rewrite IH; cbn [_memory max_turns]; [|lia|rewrite Hlen; lia].
      now rewrite <- app_assoc.
Qed.

End MemoryFacts.

Module MemorySpec.

Import Memory MemoryFacts.

(** X21.  The history is a rolling window.  With a limit of at least 1,
    pushing any sequence of turns into a history that holds no more than its
    limit never raises, and leaves in memory exactly the last [limit] turns
    of what it held followed by what was pushed, oldest first (all of them
    while they are fewer); the limit does not change. *)
Theorem history_keeps_the_last_turns :
  forall (h : History) (turns : list turn),
    (1 <= max_turns h)%Z ->
    (Z.of_nat (length (_memory h)) <= max_turns h)%Z ->
    exists h',
      push_all h turns = Done h'
      /\ get_history h' = last_n (Z.to_nat (max_turns h)) (_memory h ++ turns)
      /\ length (get_history h')
         = Nat.min (Z.to_nat (max_turns h)) (length (_memory h ++ turns))
      /\ max_turns h' = max_turns h.
Proof.
  intros h turns H1 H2. eexists. split; [now apply push_all_window|].
  simpl. repeat split. unfold last_n. rewrite length_skipn. lia.
Qed.

(** Three turns into a window of two: the last two remain. *)
Lemma history_keeps_the_last_turns_witness :
  exists h',
    push_all (init 2) [mkTurn "system" "a"; mkTurn "user" "b"; mkTurn "system" "c"]
    = Done h'
    /\ get_history h' = [mkTurn "user" "b"; mkTurn "system" "c"]
    /\ length (get_history h') = 2
    /\ max_turns h' = 2%Z.
Proof.
  apply (@history_keeps_the_last_turns (init 2)
           [mkTurn "system" "a"; mkTurn "user" "b"; mkTurn "system" "c"]);
    simpl; lia.
Defined.

(** X22.  [clean] leaves the single turn of the user when the limit is at
    least 1.  With a limit of zero or less nothing can be stored: [push] on
    an empty history raises IndexError (it pops from the empty list before
    appending), and so does [clean] on any history. *)
Theorem history_without_room_raises :
  forall (h : History) (role text : string),
    ((1 <= max_turns h)%Z ->
     clean h text = Done (mkHistory [mkTurn "user" text] (max_turns h)))
    /\ ((max_turns h <= 0)%Z ->
        clean h text = IndexError
        /\ (get_history h = [] -> push h role text = IndexError)).
Proof.
  intros [mem limit] role text. unfold clean, reset, push, get_history. simpl.
  split.
  - intros H. destruct (limit <=? 0)%Z eqn:E; auto. apply Z.leb_le in E. lia.
  - intros H. apply Z.leb_le in H. rewrite H. split; auto.
    intros ->. simpl. now rewrite H.
Qed.

End MemorySpec.

(** ** Cleaning the slots the model returns *)

Module CleaningFacts.

Import PyDict Tracker TrackerFacts SlotFilling.

(** Induction on documents: a property of every dictionary follows from the
    property of the nested dictionaries of its entries. *)
Section DocInduction.

Variable P : list (string * value) -> Prop.

Definition nested_holds (v : value) : Prop :=
  match v with
  | VDict d => P d
  | _ => True
  end.

Hypothesis Hnil : P [].
Hypothesis Hcons :
  forall k v rest, nested_holds v -> P rest -> P ((k, v) :: rest).

Fixpoint doc_rect (v : value) : nested_holds v :=
  match v as v0 return nested_holds v0 with
  | VDict d =>
      (fix go (l : list (string * value)) : P l :=
         match l as l0 return P l0 with
         | [] => Hnil
         | p :: r =>
             match p as p0 return P (p0 :: r) with
             | (k, x) => @Hcons k x r (doc_rect x) (go r)
             end
         end) d
  | _ => I
  end.

Lemma doc_ind (d : list (string * value)) : P d.
Proof. exact (doc_rect (VDict d)). Qed.

End DocInduction.

(** A value an entry may hold after cleaning: not null, not an empty
    dictionary, and, if a dictionary, one whose entries hold such values. *)
Fixpoint well (v : value) : bool :=
  match v with
  | VNone => false
  | VDict d =>
      match d with [] => false | _ => true end
      && (fix all (l : list (string * value)) : bool :=
            match l with
            | [] => true
            | (_, x) :: r => well x && all r
            end) d
  | _ => true
  end.

Definition clean_doc (d : list (string * value)) : bool :=
  forallb (fun kv => well (snd kv)) d.

Lemma well_dict (d : list (string * value)) :
  well (VDict d) = match d with [] => false | _ => true end && clean_doc d.
Proof.
  unfold clean_doc. simpl. f_equal.
  induction d as [|[k x] r IH]; simpl; auto. now rewrite IH.
Qed.

Lemma clean_cons (k : string) (v : value) (rest : list (string * value)) :
  _clean_slots ((k, v) :: rest)
  = match v with
    | VNone => (k, VStr "null") :: _clean_slots rest
    | VDict d =>
        match _clean_slots d with
        | [] => _clean_slots rest
        | nested => (k, VDict nested) :: _clean_slots rest
        end
    | _ => (k, v) :: _clean_slots rest
    end.
Proof. destruct v; reflexivity. Qed.

Lemma clean_is_clean (d : list (string * value)) : clean_doc (_clean_slots d) = true.
Proof.
  induction d as [|k v rest Hv Hrest] using doc_ind; [reflexivity|].
  rewrite clean_cons. destruct v; simpl; auto.
  simpl in Hv. destruct (_clean_slots d) as [|e nested] eqn:E; auto.
  unfold clean_doc in *. cbn [forallb snd]. rewrite Hrest, andb_true_r.
  change (well (VDict (e :: nested)) = true). rewrite well_dict. exact Hv.
Qed.

Lemma clean_fixes_clean (d : list (string * value)) :
  clean_doc d = true -> _clean_slots d = d.
Proof.
  induction d as [|k v rest Hv Hrest] using doc_ind; [reflexivity|].
  unfold clean_doc in *. cbn [forallb snd]. rewrite andb_true_iff.
  intros [Hw Hr]. rewrite clean_cons, (Hrest Hr).
  destruct v; try reflexivity; try discriminate.
  rewrite well_dict in Hw. apply andb_true_iff in Hw. destruct Hw as [Hne Hc].
  simpl in Hv. rewrite (Hv Hc). destruct d; [discriminate|reflexivity].
Qed.

(** A dictionary none of whose values is a dictionary. *)
Definition flat (d : list (string * value)) : Prop :=
  forall slot val, In (slot, val) d -> forall d', val <> VDict d'.

Definition null_text (sv : string * value) : string * value :=
  (fst sv, if is_none (snd sv) then VStr "null" else snd sv).

Lemma clean_flat (d : list (string * value)) :
  flat d -> _clean_slots d = map null_text d.
Proof.
  unfold flat. induction d as [|[k v] d IH]; intros H; [reflexivity|].
  rewrite clean_cons. simpl map.
  rewrite IH by (intros slot val Hin; apply (H slot); now right).
  destruct v; try reflexivity.
  exfalso. apply (H k (VDict d0) (or_introl eq_refl) d0). reflexivity.
Qed.

Lemma write_null_text (s : PyDict.t value) (sv : string * value) :
  write s (null_text sv) = write s sv.
Proof.
  unfold write, null_text. simpl. destruct (snd sv); reflexivity.
Qed.

Lemma writes_null_text (d : list (string * value)) :
  forall s, fold_left write (map null_text d) s = fold_left write d s.
Proof.
  induction d as [|sv d IH]; intros s; simpl; auto.
  now rewrite write_null_text, IH.
Qed.

Lemma update_slots_clean (fields : list (string * value)) :
  (forall k d, In (k, VDict d) fields -> flat d) ->
  forall s, update_slots s (_clean_slots fields) = update_slots s fields.
Proof.
  induction fields as [|[k v] fields IH]; intros H s; [reflexivity|].
  assert (IH' : forall s, update_slots s (_clean_slots fields)
                          = update_slots s fields).
  { apply IH. intros k0 d0 Hin. apply (H k0). now right. }
  rewrite clean_cons.
  destruct v; try (unfold update_slots in *; simpl; apply IH').
  assert (Hf : flat d) by (apply (H k); now left).
  rewrite (clean_flat Hf).
  destruct d as [|sv d]; [simpl; apply IH'|].
  simpl map. unfold update_slots in *. cbn [fold_left snd].
  rewrite IH'. f_equal.
  change (fold_left write (null_text sv :: map null_text d) s
          = fold_left write (sv :: d) s).
  apply (writes_null_text (sv :: d)).
Qed.

End CleaningFacts.

Module CleaningSpec.

Import PyDict Tracker TrackerFacts SlotFilling CleaningFacts.

(** X23.  After [_clean_slots] no entry of the document, at any depth of
    nested dictionaries, holds a null or an empty dictionary; a document
    that is already so is returned as it is; hence cleaning twice is
    cleaning once.  (A list is kept as it is, nulls inside it included.) *)
Theorem cleaning_leaves_no_null :
  forall response : list (string * value),
    clean_doc (_clean_slots response) = true
    /\ (clean_doc response = true -> _clean_slots response = response)
    /\ _clean_slots (_clean_slots response) = _clean_slots response
    /\ (forall k l rest,
           _clean_slots ((k, VList l) :: rest) = (k, VList l) :: _clean_slots rest).
Proof.
  intros response. split; [|split; [|split]].
  - apply clean_is_clean.
  - apply clean_fixes_clean.
  - apply clean_fixes_clean, clean_is_clean.
  - reflexivity.
Qed.

(** X24.  Cleaning does not change what the tracker stores.  When no slot
    value of an observation is itself a dictionary, updating a tracker with
    the cleaned observation gives the same tracker and the same
    serialization as updating it with the observation as the model returned
    it: the text "null" that cleaning puts for a null slot is turned back
    into an unset slot by [update]. *)
Theorem cleaning_is_invisible_to_the_tracker :
  forall (t : StateTracker) (label : string) (fields : list (string * value)),
    (forall k d, In (k, VDict d) fields -> flat d) ->
    update t (mkObs label (_clean_slots fields)) = update t (mkObs label fields).
Proof.
  intros t label fields H. unfold update. cbn [Tracker.fields].
  now rewrite (update_slots_clean fields H).
Qed.

Lemma cleaning_is_invisible_to_the_tracker_witness :
  _clean_slots [("slots", VDict [("style", VNone); ("abv", VStr "low")])]
  = [("slots", VDict [("style", VStr "null"); ("abv", VStr "low")])]
  /\ update (new "get_beer_recommendation")
            (mkObs "get_beer_recommendation"
                   (_clean_slots
                      [("slots", VDict [("style", VNone); ("abv", VStr "low")])]))
     = update (new "get_beer_recommendation")
              (mkObs "get_beer_recommendation"
                     [("slots", VDict [("style", VNone); ("abv", VStr "low")])]).
Proof.
  split; [reflexivity|].
  apply (@cleaning_is_invisible_to_the_tracker
           (new "get_beer_recommendation") "get_beer_recommendation"
           [("slots", VDict [("style", VNone); ("abv", VStr "low")])]).
  intros k d [H|[]]. injection H as _ <-.
  intros slot val [H|[H|[]]]; injection H as _ <-; discriminate.
Defined.

End CleaningSpec.

(** ** From the decisions to the utterance *)

Module GenerationFacts.

Import PyDict Tracker DecisionEngine ValidityFacts EngineFacts Generation.

Definition known_intents : list string :=
  ["get_beer_recommendation"; "get_beer_info"; "list_beers_by_brewery";
   "get_top_rated"; "rate_beer"; "out_of_context"].

(** The decision finds a prompt in [prompt_map], or it is a check_info whose
    parameter cannot be hashed, for which the lookup raises. *)
Definition promptable (d : decision) : Prop :=
  (exists key, select_prompt (action d) (parameter d) = Ret (Some key))
  \/ (action d = VStr "check_info"
      /\ hashable (parameter d) = false
      /\ select_prompt (action d) (parameter d) = Raise TypeError).

Lemma select_request (par : value) :
  hashable par = true ->
  select_prompt (VStr "request_info") par = Ret (Some "prompt_request_info").
Proof. destruct par; try discriminate; reflexivity. Qed.

Lemma select_check (par : value) :
  hashable par = true ->
  select_prompt (VStr "check_info") par = Ret (Some "prompt_check_info").
Proof. destruct par; try discriminate; reflexivity. Qed.

Lemma select_confirmation (label : string) :
  In label known_intents ->
  exists key, select_prompt (VStr "confirmation") (VStr label) = Ret (Some key).
Proof.
  unfold known_intents. simpl.
  intros [<-|[<-|[<-|[<-|[<-|[<-|[]]]]]]]; eexists; reflexivity.
Qed.

Lemma select_unhashable (act par : value) :
  hashable par = false -> select_prompt act par = Raise TypeError.
Proof.
  intros H. unfold select_prompt. rewrite H, andb_false_r. reflexivity.
Qed.

Section WithRuntime.

Context {RT : Runtime}.
Variable fuel : nat.

(** A confirmation that returns a result names, as text, one of the six
    known intents. *)
Lemma handle_some (ds ds' : Catalog.BeerDataset) (stack : list StateTracker)
      (nba : PyDict.t value) (res : payload) :
  _handle_confirmation fuel ds stack nba = Ret (Some res, ds') ->
  exists label,
    get "parameter" nba = Some (VStr label) /\ In label known_intents.
Proof.
  unfold _handle_confirmation, bind.
  destruct (subscript "parameter" nba) as [target| |] eqn:Es; try discriminate.
  apply subscript_get in Es. destruct Es as [Es _].
  destruct (find _ stack) as [target_state|] eqn:Ef; [|discriminate].
  apply find_some in Ef. destruct Ef as [_ Ef]. apply is_str_eq in Ef.
  subst target. intros H. exists (get_intent target_state). split; auto.
  revert H. unfold known_intents.
  destruct (mem_str (get_intent target_state) query_intents) eqn:Em.
  - intros _. apply AdaptiveFacts.mem_str_in in Em. unfold query_intents in Em.
    simpl in *. tauto.
  - destruct (get_intent target_state =? "rate_beer") eqn:Er.
    + apply String.eqb_eq in Er. rewrite Er. simpl. tauto.
    + destruct (get_intent target_state =? "out_of_context") eqn:Eo;
        [|discriminate].
      apply String.eqb_eq in Eo. rewrite Eo. simpl. tauto.
Qed.

Lemma cycle_promptable (stack : list StateTracker) (idx : nat)
      (state : StateTracker) (st st' : loop_state) :
  (forall d, In d (final_actions st) -> promptable d) ->
  cycle fuel false stack idx state st = Ret st' ->
  forall d, In d (final_actions st') -> promptable d.
Proof.
  intros Hd. unfold cycle, bind.
  destruct (await_proposal false state (script st)) as [[nba rest]| |] eqn:Ea;
    try discriminate.
  apply await_interactive in Ea. destruct Ea as (Hv & _ & _).
  simpl. unfold dispatch, bind.
  destruct (subscript "action" nba) as [act| |] eqn:Eact; try discriminate.
  apply subscript_get in Eact. destruct Eact as [_ Eact]. subst act.
  pose proof (AcceptanceFacts.validation_one_kind_cases _ _ Hv)
    as (_ & _ & [(Ha & _ & Hg)|(Ha & _)]);
    unfold action_of, parameter_of in *; rewrite Ha; simpl.
  - (* request_info *)
    destruct (subscript "parameter" nba) as [par| |] eqn:Ep; try discriminate.
    apply subscript_get in Ep. destruct Ep as [_ Ep]. rewrite Ep in Hg.
    intros [= <-]. simpl. intros d Hin.
    apply in_app_or in Hin. destruct Hin as [Hin|[<-|[]]]; auto.
    left. eexists. simpl. apply select_request.
    destruct par; try discriminate; reflexivity.
  - (* confirmation *)
    destruct (_handle_confirmation fuel (ds st) stack nba) as [[r ds']| |] eqn:Eh;
      try discriminate.
    destruct (subscript "parameter" nba) as [par| |] eqn:Ep; try discriminate.
    apply subscript_get in Ep. destruct Ep as [Ep _].
    simpl. destruct r as [res|]; intros [= <-]; simpl; intros d Hin;
      apply in_app_or in Hin; destruct Hin as [Hin|[<-|[]]]; auto.
    + apply handle_some in Eh. destruct Eh as (label & Hl & Hk).
      rewrite Ep in Hl. injection Hl as ->.
      left. simpl. now apply select_confirmation.
    + simpl. destruct (hashable par) eqn:Eh'.
      * left. eexists. simpl. now apply select_check.
      * right. simpl. repeat split; auto. now apply select_unhashable.
Qed.

Lemma cycles_promptable (stack : list StateTracker) (todo : list StateTracker) :
  forall idx st st',
    (forall d, In d (final_actions st) -> promptable d) ->
    cycles fuel false stack idx todo st = Ret st' ->
    forall d, In d (final_actions st') -> promptable d.
Proof.
  induction todo as [|state todo IH]; intros idx st st' Hd; simpl.
  - intros [= <-]. exact Hd.
  - unfold bind.
    destruct (cycle fuel false stack idx state st) as [st1| |] eqn:E;
      try discriminate.
    apply (IH (S idx) st1 st').
    eapply cycle_promptable; eauto.
Qed.

End WithRuntime.

(** When every decision is an action that has a prompt or raises, the loop
    of [NLG.__call__], if it returns, has not taken the "error" exit, and
    has gathered one response per decision. *)
Lemma gather_all (prompts : PyDict.t string) (decisions : list out_item) :
  (forall item, In item decisions -> exists d, item = Action d /\ promptable d) ->
  forall texts acc g,
    gather prompts decisions texts acc = Ret g ->
    exists responses,
      fst g = inr responses
      /\ length responses = length acc + length decisions.
Proof.
  induction decisions as [|item decisions IH]; intros H texts acc g; simpl.
  - intros [= <-]. exists acc. simpl. split; auto.
  - destruct (H item (or_introl eq_refl)) as (d & -> & Hp).
    unfold bind.
    destruct (select_prompt (action d) (parameter d)) as [[key|]| |] eqn:Es;
      try discriminate.
    + destruct (prompt_text prompts key); try discriminate.
      destruct (_query_model texts) as [[response rest]| |]; try discriminate.
      simpl. intros Hg. apply IH in Hg.
      * destruct Hg as (responses & H1 & H2). exists responses. split; auto.
        rewrite H2, length_app. simpl. lia.
      * intros item Hin. apply H. now right.
    + destruct Hp as [[key Hk]|(_ & _ & Hk)]; congruence.
Qed.

(** The decision has a prompt key, and the prompts file has its text. *)
Definition served (prompts : PyDict.t string) (d : decision) : Prop :=
  exists key text,
    select_prompt (action d) (parameter d) = Ret (Some key)
    /\ PyDict.get key prompts = Some text.

Lemma gather_served (prompts : PyDict.t string) (acts : list decision) :
  (forall d, In d acts -> served prompts d) ->
  forall texts acc,
    length acts <= length texts ->
    gather prompts (map Action acts) texts acc
    = Ret (inr (acc ++ firstn (length acts) texts), skipn (length acts) texts).
Proof.
  induction acts as [|d acts IH]; intros H texts acc Hl; simpl.
  - now rewrite app_nil_r.
  - destruct (H d (or_introl eq_refl)) as (key & text & Hk & Ht).
    unfold bind, prompt_text. rewrite Hk, Ht.
    destruct texts as [|response texts]; [simpl in Hl; lia|]. simpl.
    rewrite IH.
    + now rewrite <- app_assoc.
    + intros d0 Hin. apply H. now right.
    + simpl in Hl. lia.
Qed.

Lemma nth_skipn_head (n : nat) :
  forall texts : list string,
    n < length texts ->
    exists rest, skipn n texts = nth n texts "" :: rest
                 /\ skipn (S n) texts = rest.
Proof.
  induction n as [|n IH]; intros [|t texts] H; simpl in *; try lia.
  - eauto.
  - apply IH. lia.
Qed.


End GenerationFacts.

Module GenerationSpec.

Import PyDict Tracker DecisionEngine ValidityFacts EngineFacts Generation.
Import GenerationFacts.

Definition prompts_file : PyDict.t string :=
  [ ("prompt_request_info", "ask");
    ("prompt_confirmation_out_of_context", "chat");
    ("prompt_merge_responses", "merge") ].

Definition two_decisions : list decision :=
  [ mkDecision (VStr "confirmation") (VStr "out_of_context")
               (DText "Intent out_of_context");
    mkDecision (VStr "request_info") (VStr "brewery")
               (DText "intent: list_beers_by_brewery") ].

(** X25.  In interactive mode the generator has a prompt for every action
    the engine emits.  After a turn that is not a lone [terminate_system],
    each emitted action finds its prompt key in [prompt_map] (a confirmation
    is emitted only for one of the six known intents), the one exception
    being a check_info whose parameter is a list or a dict, for which the
    lookup raises TypeError; so [NLG.__call__], when its loop returns on the
    output of such a turn, has never taken the "error" exit and holds one
    response per tracker.  On the output of a lone [terminate_system] it
    returns "error" without asking the model. *)
Theorem interactive_actions_have_prompts :
  forall (RT : Runtime) (fuel : nat) (dm dm' : DM) (answers rest : list reply)
         (nlu_inputs : list observation) (out : list out_item),
    eval_mode dm = false ->
    DecisionEngine.call fuel dm answers nlu_inputs = Ret (out, dm', rest) ->
    (is_terminate nlu_inputs = true ->
     forall prompts texts, Generation.call prompts out texts = Ret ("error", texts))
    /\ (is_terminate nlu_inputs = false ->
        (forall item, In item out -> exists d, item = Action d /\ promptable d)
        /\ (forall prompts texts g,
               gather prompts out texts [] = Ret g ->
               exists responses,
                 fst g = inr responses
                 /\ length responses
                    = length (_update_states (state_stack dm) nlu_inputs))).
Proof.
  intros RT fuel dm dm' answers rest nlu_inputs out Hmode.
  unfold DecisionEngine.call. rewrite Hmode.
  destruct (is_terminate nlu_inputs).
  - intros [= <- _ _]. split; [|discriminate]. reflexivity.
  - unfold bind.
    destruct (cycles fuel false _ 0 _ _) as [st| |] eqn:E; try discriminate.
    intros [= <- _ _]. split; [discriminate|]. intros _.
    assert (Hall : forall item, In item (map Action (final_actions st)) ->
                                exists d, item = Action d /\ promptable d).
    { intros item Hin. apply in_map_iff in Hin. destruct Hin as (d & <- & Hd).
      exists d. split; auto.
      eapply cycles_promptable; [ | exact E | exact Hd ].
      simpl. tauto. }
    split; auto.
    intros prompts texts g Hg.
    destruct (gather_all prompts _ Hall _ _ Hg) as (responses & H1 & H2).
    exists responses. split; auto.
    rewrite H2, length_map. simpl.
    apply TurnFacts.cycles_effect in E. destruct E as (acts & E1 & E2 & _).
    simpl in E1. now rewrite E1.
Qed.

(** The interactive turn of a remark and a listing, then the generator with
    three answers of the model: two responses, no "error". *)
Lemma interactive_actions_have_prompts_witness :
  exists responses,
    gather prompts_file (map Action two_decisions) ["a"; "b"; "c"] []
    = Ret (inr responses, ["c"])
    /\ length responses = 2.
Proof.
  destruct (@interactive_actions_have_prompts Demo.runtime 0
              TurnSpec.dm_two
              (mkDM false TurnSpec.no_catalog [new "list_beers_by_brewery"])
              TurnSpec.answers_two [] TurnSpec.obs_remark_and_listing
              (map Action two_decisions) eq_refl eq_refl) as [_ H].
  destruct (H eq_refl) as [_ Hg].
  destruct (Hg prompts_file ["a"; "b"; "c"] (inr ["a"; "b"], ["c"]) eq_refl)
    as (responses & H1 & H2).
  exists responses. simpl in H1. injection H1 as <-.
  repeat split.
Defined.

(** X26.  The utterance is the model's answer to the single decision, or its
    answer to the merge request.  When every decision has a prompt key whose
    text the prompts file holds, the file holds the merge prompt and the
    model answers, the generator asks the model once per decision, in order;
    with exactly one decision it returns that answer, and with any other
    number, zero included, it asks once more, for the merge, and returns
    that last answer. *)
Theorem utterance_is_answer_or_merge :
  forall (prompts : PyDict.t string) (acts : list decision) (texts : list string),
    (forall d, In d acts -> served prompts d) ->
    PyDict.get "prompt_merge_responses" prompts <> None ->
    length acts < length texts ->
    Generation.call prompts (map Action acts) texts
    = if Nat.eqb (length acts) 1
      then Ret (nth 0 texts "", skipn 1 texts)
      else Ret (nth (length acts) texts "", skipn (S (length acts)) texts).
Proof.
  intros prompts acts texts Hs Hm Hl. unfold Generation.call, bind.
  rewrite (@gather_served prompts acts Hs texts []) by lia. cbn [fst snd app].
  destruct (@nth_skipn_head (length acts) texts Hl) as (rest & E1 & E2).
  assert (Hf : length (firstn (length acts) texts) = length acts).
  { rewrite length_firstn. lia. }
  assert (Hmerge : _merge_responses prompts (skipn (length acts) texts)
                   = Ret (nth (length acts) texts "", skipn (S (length acts)) texts)).
  { unfold _merge_responses, bind, prompt_text.
    destruct (PyDict.get "prompt_merge_responses" prompts); [|contradiction].
    rewrite E1, E2. reflexivity. }
  destruct (firstn (length acts) texts) as [|r0 [|r1 rs]] eqn:Ef.
  - simpl in Hf. rewrite <- Hf. simpl. rewrite <- Hf in Hmerge. exact Hmerge.
  - simpl in Hf. rewrite <- Hf in *. simpl.
    destruct texts as [|t texts]; [discriminate|].
    simpl in Ef. injection Ef as ->. reflexivity.
  - simpl in Hf.
    assert (Hn : Nat.eqb (length acts) 1 = false) by (apply Nat.eqb_neq; lia).
    rewrite Hn. exact Hmerge.
Qed.

(** Two decisions and three answers: the third answer, the merge, is the
    utterance. *)
Lemma utterance_is_answer_or_merge_witness :
  Generation.call prompts_file (map Action two_decisions) ["a"; "b"; "c"]
  = Ret ("c", []).
Proof.
  apply (@utterance_is_answer_or_merge prompts_file two_decisions ["a"; "b"; "c"]).
  - intros d [<-|[<-|[]]]; eexists; eexists; split; reflexivity.
  - discriminate.
  - simpl. lia.
Defined.


End GenerationSpec.
